(** * ourtime: DOB permit ingestion and vector-tile serving

    A shallow embedding of
    - [supabase/migrations/0001_init_schema.sql] (tables, the geometry
      trigger, [upsert_dob_permits], [current_dob_watermark],
      [dob_permit_tiles]),
    - [supabase/functions/dob-permits-sync/index.ts] (the ingestion run),
    - [supabase/functions/tiles/index.ts] (the tile request handler),
    followed by the properties the specification states about them.

    Conventions.  A SQL [NULL] and a JS [null]/[undefined] are [None].  An
    operation that raises (a failed SQL cast, a constraint violation, a JS
    [throw]) returns an error value; a SQL function that raises leaves the
    store as it was, since it runs in one transaction.  Strings are byte
    strings.  Instants ([timestamptz], and the ISO strings the edge function
    passes around) are microseconds since the epoch in [Z]; calendar dates are
    days since the epoch in [Z]. *)

From Stdlib Require Import ZArith QArith String Ascii List Bool Lia Permutation.
From stdpp Require Import base option list gmap strings sorting pretty.

Open Scope string_scope.
Open Scope Z_scope.

(** ** JavaScript helpers *)

Module JS.

(** [if (s)] on a [string | null]: [null] and the empty string are falsy. *)
Definition truthy (s : option string) : bool :=
match s with
| None => false
| Some "" => false
| Some _ => true
end.

(** [a || b] on [string | null] with a string default. *)
Definition or_else (a : option string) (b : string) : string :=
match a with
| Some (String c s) => String c s
| _ => b
end.

(** The ASCII members of StrWhiteSpaceChar. *)
Definition is_space (c : ascii) : bool :=
let n := N_of_ascii c in
((9 <=? n) && (n <=? 13))%N || (n =? 32)%N.

(** Value of a character as a digit in the given radix, if it is one. *)
Definition digit_value (radix : Z) (c : ascii) : option Z :=
let n := Z.of_N (N_of_ascii c) in
let v :=
  if (48 <=? n) && (n <=? 57) then Some (n - 48)
  else if (97 <=? n) && (n <=? 122) then Some (n - 87)
  else if (65 <=? n) && (n <=? 90) then Some (n - 55)
  else None in
match v with
| Some d => if d <? radix then Some d else None
| None => None
end.

Fixpoint skip_spaces (s : string) : string :=
match s with
| String c s' => if is_space c then skip_spaces s' else s
| EmptyString => s
end.

(** Longest prefix of digits, folded into a number; [None] when it is empty. *)
Fixpoint digits_prefix (radix : Z) (acc : option Z) (s : string) : option Z :=
match s with
| String c s' =>
    match digit_value radix c with
    | Some d => digits_prefix radix (Some (radix * default 0 acc + d)) s'
    | None => acc
    end
| EmptyString => acc
end.

Definition strip_0x (s : string) : string :=
match s with
| String "0" (String "x" s') => s'
| String "0" (String "X" s') => s'
| _ => s
end.

(** [parseInt(s, radix)] for radix 10 and 16; [None] is [NaN].  The result of
  the JS function is a double: it is exact up to 2^53, far above every
  bound it is compared with here. *)
Definition parseInt (s : string) (radix : Z) : option Z :=
let s1 := skip_spaces s in
let '(sign, s2) :=
  match s1 with
  | String "-" r => (-1, r)
  | String "+" r => (1, r)
  | _ => (1, s1)
  end in
let s3 := if radix =? 16 then strip_0x s2 else s2 in
(λ n, sign * n) <$> digits_prefix radix None s3.

(** [s.split(sep)] for a one-character separator. *)
Fixpoint split_on (sep : ascii) (cur : string) (s : string) : list string :=
match s with
| EmptyString => [cur]
| String c s' =>
    if Ascii.eqb c sep then cur :: split_on sep "" s'
    else split_on sep (cur ++ String c "") s'
end.

Definition split (sep : ascii) (s : string) : list string := split_on sep "" s.

(** [parts.filter(Boolean)] on strings: drops the empty ones. *)
Definition filter_Boolean (l : list string) : list string :=
List.filter (λ s, negb (String.eqb s "")) l.

(** [arr.indexOf(x)]; [None] is [-1]. *)
Fixpoint indexOf (l : list string) (x : string) : option nat :=
match l with
| [] => None
| y :: l' => if String.eqb y x then Some O else S <$> indexOf l' x
end.

Definition is_digit (c : ascii) : bool :=
let n := N_of_ascii c in ((48 <=? n) && (n <=? 57))%N.

(** [/^\d{4}-\d{2}-\d{2}$/.test(s)] *)
Definition dateRegex_test (s : string) : bool :=
match list_ascii_of_string s with
| [y1; y2; y3; y4; d1; m1; m2; d2; a1; a2] =>
    is_digit y1 && is_digit y2 && is_digit y3 && is_digit y4 &&
    Ascii.eqb d1 "-" && is_digit m1 && is_digit m2 &&
    Ascii.eqb d2 "-" && is_digit a1 && is_digit a2
| _ => false
end.

(** *** Binary data *)

Definition hex_digit (n : N) : ascii :=
ascii_of_N (if (n <? 10)%N then 48 + n else 87 + n)%N.

(** [b.toString(16).padStart(2, '0')] for a byte. *)
Definition byte_to_hex (b : Byte.byte) : string :=
let n := Byte.to_N b in
String (hex_digit (n / 16)) (String (hex_digit (n mod 16)) "").

Definition hex_of_bytes (bs : list Byte.byte) : string :=
foldr (λ b acc, byte_to_hex b ++ acc) "" bs.

(** Storing a Number into a [Uint8Array]: [NaN] becomes 0, others wrap. *)
Definition to_uint8 (v : option Z) : Byte.byte :=
match Byte.of_N (Z.to_N (default 0 v mod 256)) with
| Some b => b
| None => Byte.x00
end.

(** The loop of [hexToArrayBuffer]: two characters per byte; a trailing odd
  character falls outside the array and is dropped. *)
Fixpoint hex_pairs (fuel : nat) (s : string) : list Byte.byte :=
match fuel, s with
| S fuel', String c1 (String c2 s') =>
    to_uint8 (parseInt (String c1 (String c2 "")) 16) :: hex_pairs fuel' s'
| _, _ => []
end.

Definition hexToArrayBuffer (hex : string) : list Byte.byte :=
let hexString :=
  match hex with
  | String "\" (String "x" rest) => rest
  | _ => hex
  end in
hex_pairs (String.length hexString) hexString.

Definition two32 : Z := 4294967296.

(** ToInt32 *)
Definition to_int32 (v : Z) : Z :=
let m := v mod two32 in
if m <? 2147483648 then m else m - two32.

(** [h << k] on Numbers: both conversions of the JS operator. *)
Definition shl32 (h : Z) (k : Z) : Z := to_int32 (Z.shiftl (to_int32 h) k).

(** One round of the loop of [generateETag]: [^=] truncates to 32 bits,
  [+=] is an addition of Numbers and does not. *)
Definition etag_step (hash : Z) (b : Byte.byte) : Z :=
let h := to_int32 (Z.lxor (to_int32 hash) (Z.of_N (Byte.to_N b))) in
h + (shl32 h 1 + shl32 h 4 + shl32 h 7 + shl32 h 8 + shl32 h 24).

Fixpoint hex_of_pos_fuel (fuel : nat) (n : Z) (acc : string) : string :=
match fuel with
| O => acc
| S fuel' =>
    let acc' := String (hex_digit (Z.to_N (n mod 16))) acc in
    if n / 16 =? 0 then acc' else hex_of_pos_fuel fuel' (n / 16) acc'
end.

(** [n.toString(16)] for an integral Number. *)
Definition toString16 (n : Z) : string :=
if n <? 0 then "-" ++ hex_of_pos_fuel (Z.to_nat (Z.log2 (- n)) + 1) (- n) ""
else hex_of_pos_fuel (Z.to_nat (Z.log2 n) + 1) n "".

Definition generateETag (data : list Byte.byte) : string :=
toString16 (fold_left etag_step data 2166136261).

End JS.

(** ** PostgreSQL values *)

(** Outcome of a SQL statement or of an RPC: a value, or the error that
    aborted the transaction. *)
Inductive pg_error :=
  | invalid_text_representation   (* a failed cast from text *)
  | not_null_violation
  | cardinality_violation         (* ON CONFLICT DO UPDATE hits a row twice *)
  | connection_failure.           (* the call did not reach the database *)

Inductive result (A : Type) :=
  | Ok (a : A)
  | Raise (e : pg_error).
Arguments Ok {A} a.
Arguments Raise {A} e.

#[global] Instance result_ret : MRet result := λ A a, Ok a.
#[global] Instance result_bind : MBind result := λ A B f r,
  match r with
  | Ok a => f a
  | Raise e => Raise e
  end.
#[global] Instance result_fmap : FMap result := λ A B f r,
  match r with
  | Ok a => Ok (f a)
  | Raise e => Raise e
  end.

Definition is_Ok {A} (r : result A) : bool :=
  match r with Ok _ => true | Raise _ => false end.

(** [mapM] with the first error winning. *)
Fixpoint traverse {A B} (f : A → result B) (l : list A) : result (list B) :=
  match l with
  | [] => Ok []
  | a :: l' => b ← f a; bs ← traverse f l'; mret (b :: bs)
  end.

(** [double precision]: a finite value is a (dyadic) rational.  PostgreSQL
    orders [NaN] above every other value and equal to itself. *)
Inductive float8 :=
  | Finite (q : Q)
  | PosInf
  | NegInf
  | NaN.

Definition float8_le (a b : float8) : bool :=
  match a, b with
  | _, NaN => true
  | NaN, _ => false
  | NegInf, _ => true
  | _, NegInf => false
  | _, PosInf => true
  | PosInf, _ => false
  | Finite p, Finite q => Qle_bool p q
  end.

Definition float8_of_Z (n : Z) : float8 := Finite (inject_Z n).

(** [x between lo and hi] *)
Definition between (x lo hi : float8) : bool :=
  float8_le lo x && float8_le x hi.

Definition timestamptz := Z.
Definition date := Z.

Definition usecs_per_day : Z := 86400000000.

(** [d::timestamptz] and [t::date], the session time zone being UTC. *)
Definition date_to_timestamptz (d : date) : timestamptz := d * usecs_per_day.
Definition timestamptz_to_date (t : timestamptz) : date := t / usecs_per_day.

(** What the migration takes from the server: the input functions of the
    types it casts text to, and the collation that [ORDER BY] sorts text
    with.  An input function answers [None] where PostgreSQL raises
    "invalid input syntax". *)
Class PgServer := {
  timestamptz_in : string → option timestamptz;
  date_in : string → option date;
  float8_in : string → option float8;
  bytea_in : string → option (list Byte.byte);
  text_le : string → string → bool;
}.

(** [bytea] on the wire, in the default hex output format. *)
Definition bytea_out (bs : list Byte.byte) : string :=
  "\x" ++ JS.hex_of_bytes bs.

(** The collation orders text totally. *)
Class TextOrder `{pg : PgServer} : Prop := {
  text_le_total : ∀ a b, text_le a b = true ∨ text_le b a = true;
  text_le_trans : ∀ a b c, text_le a b = true → text_le b c = true → text_le a c = true;
  text_le_antisym : ∀ a b, text_le a b = true → text_le b a = true → a = b;
}.

(** [(x)::t] for a nullable text [x]: [NULL] casts to [NULL], a text the
    input function refuses raises. *)
Definition cast {A} (input : string → option A) (x : option string)
  : result (option A) :=
  match x with
  | None => Ok None
  | Some s =>
      match input s with
      | Some v => Ok (Some v)
      | None => Raise invalid_text_representation
      end
  end.

(** [case when x is not null and x != '' then x::t else null end] *)
Definition cast_nonempty {A} (input : string → option A) (x : option string)
  : result (option A) :=
  match x with
  | Some (String c s) => cast input (Some (String c s))
  | _ => Ok None
  end.

(** [coalesce(a, b)] *)
Definition coalesce {A} (a b : option A) : option A :=
  match a with Some _ => a | None => b end.

Fixpoint ltrim (s : string) : string :=
  match s with
  | String " " s' => ltrim s'
  | _ => s
  end.

Fixpoint rtrim (s : string) : string :=
  match s with
  | EmptyString => EmptyString
  | String c s' =>
      match rtrim s' with
      | EmptyString => if Ascii.eqb c " " then EmptyString else String c EmptyString
      | r => String c r
      end
  end.

(** [trim(s)]: spaces off both ends. *)
Definition trim (s : string) : string := rtrim (ltrim s).

(** [nullif(x, '')] on a nullable text *)
Definition nullif_empty (x : option string) : option string :=
  match x with
  | Some "" => None
  | _ => x
  end.

(** [x is not null and trim(x) != ''] *)
Definition not_blank (x : option string) : bool :=
  match x with
  | Some s => negb (String.eqb (trim s) "")
  | None => false
  end.

(** *** jsonb *)

(** A JSON value as [->>] sees it: a string gives its content, [null] gives
    [NULL], anything else gives its text. *)
Inductive jvalue :=
  | JNull
  | JString (s : string)
  | JNumber (text : string)
  | JBool (b : bool)
  | JNested (text : string).

Definition jvalue_text (v : jvalue) : option string :=
  match v with
  | JNull => None
  | JString s => Some s
  | JNumber t => Some t
  | JBool b => Some (if b then "true" else "false")
  | JNested t => Some t
  end.

(** A JSON object; a record of the upstream dataset is one. *)
Abbreviation jsonb := (gmap string jvalue).

(** [r->>'key'] *)
Definition get_text (r : jsonb) (key : string) : option string :=
  r !! key ≫= jvalue_text.

Notation "r ->> k" := (get_text r k) (at level 40, left associativity).

(** *** Geometry *)

Record geometry := Point { srid : Z; coord_x : float8; coord_y : float8 }.

Definition ST_Point (x y : float8) : geometry := Point 0 x y.
Definition ST_MakePoint (x y : float8) : geometry := Point 0 x y.
Definition ST_SetSRID (g : geometry) (s : Z) : geometry :=
  Point s (coord_x g) (coord_y g).

(** [g::geography] *)
Inductive geography := Geography (g : geometry).

(** ** The normalized store

    A table with a primary key is a finite map from the key to the other
    columns.  [dob_entities] has a random surrogate key that nothing reads:
    it is the list of its rows, and a row is identified by its position.
    The generated columns [bbl], [geojson] and [permit_month] are functions
    of stored columns that no operation below reads; they are left out. *)

Module Buildings.
Record row := {
  block : option string;
  lot : option string;
  borough : option string;
  street_name : option string;
  house_no : option string;
  zipcode : option string;
  census_tract : option string;
  nta_name : option string;
}.
End Buildings.

Module PermitDetails.
Record row := {
  job_number : option string;
  permit_sequence_no : option string;
  permit_subtype : option string;
  filing_status : option string;
  filing_date : option timestamptz;
  site_fill : option string;
  oil_gas : option string;
  self_cert : option string;
  special_district_1 : option string;
  special_district_2 : option string;
}.
End PermitDetails.

Module Entities.
Record row := {
  entity_type : string;
  full_name : option string;
  business_name : option string;
  license_type : option string;
  license_number : option string;
  phone : option string;
  address : option string;
  city : option string;
  state : option string;
  zip : option string;
}.
End Entities.

Module Permits.
Record row := {
  updated_at : timestamptz;
  borough : option string;
  bin : option string;
  gis_latitude : option float8;
  gis_longitude : option float8;
  community_board : option string;
  council_district : option string;
  nta_name : option string;
  zipcode : option string;
  permit_issuance_date : option timestamptz;
  expiration_date : option timestamptz;
  job_start_date : option timestamptz;
  permit_status : option string;
  permit_type : option string;
  work_type : option string;
  job_type : option string;
  bldg_type : option string;
  residential : option string;
  dobrundate : option timestamptz;
  permit_number : option string;
  raw : jsonb;
  geom : option geography;
  geom_4326 : option geometry;
}.
End Permits.

(** Key of [mvt_cache]: (layer, z, x, y, since, until). *)
Definition cache_key : Type := string * Z * Z * Z * date * date.

Module MvtCache.
Record row := {
  mvt : list Byte.byte;
  updated_at : timestamptz;
}.
End MvtCache.

Record store := {
  dob_buildings : gmap string Buildings.row;
  dob_permit_details : gmap string PermitDetails.row;
  dob_entities : list Entities.row;
  dob_permits : gmap string Permits.row;
  dataset_sync_state : gmap string (option timestamptz);
  mvt_cache : gmap cache_key MvtCache.row;
}.

Definition empty_store : store :=
  {| dob_buildings := ∅; dob_permit_details := ∅; dob_entities := [];
     dob_permits := ∅; dataset_sync_state := ∅; mvt_cache := ∅ |}.

(** The trigger [trigger_populate_geom], run before every insert and update
    of a row of [dob_permits]. *)
Definition populate_geom_from_coords (NEW : Permits.row) : Permits.row :=
  let valid :=
    match Permits.gis_latitude NEW, Permits.gis_longitude NEW with
    | Some lat, Some lon =>
        if between lat (float8_of_Z (-90)) (float8_of_Z 90)
           && between lon (float8_of_Z (-180)) (float8_of_Z 180)
        then Some (ST_SetSRID (ST_Point lon lat) 4326)
        else None
    | _, _ => None
    end in
  {| Permits.updated_at := Permits.updated_at NEW;
     Permits.borough := Permits.borough NEW;
     Permits.bin := Permits.bin NEW;
     Permits.gis_latitude := Permits.gis_latitude NEW;
     Permits.gis_longitude := Permits.gis_longitude NEW;
     Permits.community_board := Permits.community_board NEW;
     Permits.council_district := Permits.council_district NEW;
     Permits.nta_name := Permits.nta_name NEW;
     Permits.zipcode := Permits.zipcode NEW;
     Permits.permit_issuance_date := Permits.permit_issuance_date NEW;
     Permits.expiration_date := Permits.expiration_date NEW;
     Permits.job_start_date := Permits.job_start_date NEW;
     Permits.permit_status := Permits.permit_status NEW;
     Permits.permit_type := Permits.permit_type NEW;
     Permits.work_type := Permits.work_type NEW;
     Permits.job_type := Permits.job_type NEW;
     Permits.bldg_type := Permits.bldg_type NEW;
     Permits.residential := Permits.residential NEW;
     Permits.dobrundate := Permits.dobrundate NEW;
     Permits.permit_number := Permits.permit_number NEW;
     Permits.raw := Permits.raw NEW;
     Permits.geom := Geography <$> valid;
     Permits.geom_4326 := valid |}.

(** The rows of [dob_permits] are as the trigger leaves them. *)
Definition geom_populated (st : store) : Prop :=
  ∀ id p, dob_permits st !! id = Some p → populate_geom_from_coords p = p.

(** The view [v_dob_permits_pts]: the rows with a geography. *)
Definition v_dob_permits_pts (st : store) : list (string * Permits.row) :=
  List.filter (λ kv, bool_decide (is_Some (Permits.geom kv.2)))
    (map_to_list (dob_permits st)).

(** [current_dob_watermark()] *)
Definition max_timestamptz (l : list timestamptz) : option timestamptz :=
  foldr (λ t acc, Some (match acc with Some m => Z.max t m | None => t end)) None l.

Definition current_dob_watermark (st : store) : timestamptz :=
  default 0 (max_timestamptz (Permits.updated_at <$> (map_to_list (dob_permits st)).*2)).

(** ** The bulk upsert: [upsert_dob_permits(_rows jsonb)] *)

Module Stage.
(** A row of the [stage] CTE. *)
Record row := {
  id : option string;
  updated_at : option timestamptz;
  borough : option string;
  bin : option string;
  house_no : option string;
  street_name : option string;
  job_number : option string;
  permit_number : option string;
  work_type : option string;
  permit_type : option string;
  permit_status : option string;
  permit_status_date : option date;
  permit_issuance_date_str : option string;
  expiration_date : option date;
  job_start_date : option date;
  zipcode : option string;
  bbl : option string;
  community_board : option string;
  gis_latitude : option float8;
  gis_longitude : option float8;
  council_district : option string;
  nta_name : option string;
  job_type : option string;
  bldg_type : option string;
  residential : option string;
  dobrundate_str : option string;
  permit_subtype : option string;
  filing_status : option string;
  filing_date_str : option string;
  site_fill : option string;
  oil_gas : option string;
  self_cert : option string;
  special_district_1 : option string;
  special_district_2 : option string;
  permit_sequence_no : option string;
  owner_business_name : option string;
  owner_first_name : option string;
  owner_last_name : option string;
  permittee_business_name : option string;
  permittee_first_name : option string;
  permittee_last_name : option string;
  owner_phone : option string;
  permittee_phone : option string;
  owner_address : option string;
  permittee_address : option string;
  owner_city : option string;
  permittee_city : option string;
  owner_state : option string;
  permittee_state : option string;
  owner_zip : option string;
  permittee_zip : option string;
  owner_license_type : option string;
  permittee_license_type : option string;
  owner_license_number : option string;
  permittee_license_number : option string;
  block : option string;
  lot : option string;
  census_tract : option string;
  raw : jsonb;
}.
End Stage.

Record upsert_result := {
  inserted : Z;
  updated : Z;
  max_updated : option timestamptz;
}.

(** [select distinct on (key) ...]: the first row of each key, in the order
    of the input.  With an [ORDER BY] the input is the sorted list; without
    one PostgreSQL keeps an unspecified row of each key, and the first of the
    page stands for it. *)
Fixpoint distinct_from {A K} `{EqDecision K}
    (key : A → K) (seen : list K) (l : list A) : list A :=
  match l with
  | [] => []
  | a :: l' =>
      if decide (key a ∈ seen) then distinct_from key seen l'
      else a :: distinct_from key (key a :: seen) l'
  end.

Definition distinct_on {A K} `{EqDecision K} (key : A → K) (l : list A) : list A :=
  distinct_from key [] l.

Section upsert.
Context `{pg : PgServer}.

(** One element of [jsonb_array_elements(_rows)] through the select list of
    [stage]; the casts to [timestamptz], [date] and [double precision]
    raise on a text they cannot read. *)
Definition stage_row (r : jsonb) : result Stage.row :=
  updated_at ← cast timestamptz_in (r ->> ":updated_at");
  permit_status_date ← cast date_in (r ->> "permit_status_date");
  expiration_date ← cast date_in (r ->> "expiration_date");
  job_start_date ← cast date_in (r ->> "job_start_date");
  gis_latitude ← cast float8_in (r ->> "gis_latitude");
  gis_longitude ← cast float8_in (r ->> "gis_longitude");
  mret {|
    Stage.id := r ->> ":id";
    Stage.updated_at := updated_at;
    Stage.borough := r ->> "borough";
    Stage.bin := coalesce (r ->> "bin__") (r ->> "bin");
    Stage.house_no := coalesce (r ->> "house__") (r ->> "house_no");
    Stage.street_name := r ->> "street_name";
    Stage.job_number := coalesce (r ->> "job__") (r ->> "job_number");
    Stage.permit_number := coalesce (r ->> "permit_si_no") (r ->> "permit_number");
    Stage.work_type := r ->> "work_type";
    Stage.permit_type := r ->> "permit_type";
    Stage.permit_status := r ->> "permit_status";
    Stage.permit_status_date := permit_status_date;
    Stage.permit_issuance_date_str :=
      coalesce (r ->> "issuance_date") (r ->> "permit_issuance_date");
    Stage.expiration_date := expiration_date;
    Stage.job_start_date := job_start_date;
    Stage.zipcode := coalesce (r ->> "zip_code") (r ->> "zipcode");
    Stage.bbl := r ->> "bbl";
    Stage.community_board := r ->> "community_board";
    Stage.gis_latitude := gis_latitude;
    Stage.gis_longitude := gis_longitude;
    Stage.council_district :=
      coalesce (r ->> "gis_council_district") (r ->> "council_district");
    Stage.nta_name := r ->> "nta_name";
    Stage.job_type := r ->> "job_type";
    Stage.bldg_type := r ->> "bldg_type";
    Stage.residential := r ->> "residential";
    Stage.dobrundate_str := r ->> "dobrundate";
    Stage.permit_subtype := r ->> "permit_subtype";
    Stage.filing_status := r ->> "filing_status";
    Stage.filing_date_str := r ->> "filing_date";
    Stage.site_fill := r ->> "site_fill";
    Stage.oil_gas := r ->> "oil_gas";
    Stage.self_cert := r ->> "self_cert";
    Stage.special_district_1 := r ->> "special_district_1";
    Stage.special_district_2 := r ->> "special_district_2";
    Stage.permit_sequence_no :=
      coalesce (r ->> "permit_sequence__") (r ->> "permit_sequence_no");
    Stage.owner_business_name := r ->> "owner_s_business_name";
    Stage.owner_first_name := r ->> "owner_s_first_name";
    Stage.owner_last_name := r ->> "owner_s_last_name";
    Stage.permittee_business_name := r ->> "permittee_s_business_name";
    Stage.permittee_first_name := r ->> "permittee_s_first_name";
    Stage.permittee_last_name := r ->> "permittee_s_last_name";
    Stage.owner_phone := r ->> "owner_s_phone";
    Stage.permittee_phone := r ->> "permittee_s_phone";
    Stage.owner_address := r ->> "owner_s_address";
    Stage.permittee_address := r ->> "permittee_s_address";
    Stage.owner_city := r ->> "owner_s_city";
    Stage.permittee_city := r ->> "permittee_s_city";
    Stage.owner_state := r ->> "owner_s_state";
    Stage.permittee_state := r ->> "permittee_s_state";
    Stage.owner_zip := r ->> "owner_s_zip";
    Stage.permittee_zip := r ->> "permittee_s_zip";
    Stage.owner_license_type := r ->> "owner_s_license_type";
    Stage.permittee_license_type := r ->> "permittee_s_license_type";
    Stage.owner_license_number := r ->> "owner_s_license_number";
    Stage.permittee_license_number := r ->> "permittee_s_license_number";
    Stage.block := r ->> "block";
    Stage.lot := r ->> "lot";
    Stage.census_tract := coalesce (r ->> "gis_census_tract") (r ->> "census_tract");
    Stage.raw := r;
  |}.

Definition stage (_rows : list jsonb) : result (list Stage.row) :=
  traverse stage_row _rows.

(** *** Step 1: buildings *)

Definition building_of (s : Stage.row) : Buildings.row :=
  {| Buildings.block := Stage.block s;
     Buildings.lot := Stage.lot s;
     Buildings.borough := Stage.borough s;
     Buildings.street_name := Stage.street_name s;
     Buildings.house_no := Stage.house_no s;
     Buildings.zipcode := Stage.zipcode s;
     Buildings.census_tract := Stage.census_tract s;
     Buildings.nta_name := Stage.nta_name s |}.

(** The rows to insert, keyed: [select distinct on (bin) ... where bin is
    not null]. *)
Definition buildings_rows (stg : list Stage.row) : list (string * Buildings.row) :=
  distinct_on fst
    (omap (λ s, (λ k, (k, building_of s)) <$> Stage.bin s) stg).

(** [insert ... on conflict (key) do update set] every other column: the
    row of the key is replaced. *)
Definition upsert_rows {V} (tbl : gmap string V) (rows : list (string * V))
  : gmap string V :=
  foldl (λ m kv, <[kv.1 := kv.2]> m) tbl rows.

(** *** Step 2: permit details *)

Definition permit_detail_of (s : Stage.row) : result PermitDetails.row :=
  filing_date ← cast_nonempty timestamptz_in (Stage.filing_date_str s);
  mret {| PermitDetails.job_number := Stage.job_number s;
          PermitDetails.permit_sequence_no := Stage.permit_sequence_no s;
          PermitDetails.permit_subtype := Stage.permit_subtype s;
          PermitDetails.filing_status := Stage.filing_status s;
          PermitDetails.filing_date := filing_date;
          PermitDetails.site_fill := Stage.site_fill s;
          PermitDetails.oil_gas := Stage.oil_gas s;
          PermitDetails.self_cert := Stage.self_cert s;
          PermitDetails.special_district_1 := Stage.special_district_1 s;
          PermitDetails.special_district_2 := Stage.special_district_2 s |}.

(** The select list is evaluated on the rows that pass [where permit_number
    is not null], before [distinct on]. *)
Definition permit_details_rows (stg : list Stage.row)
  : result (list (string * PermitDetails.row)) :=
  rows ← traverse (λ ks, d ← permit_detail_of ks.2; mret (ks.1, d))
            (omap (λ s, (λ k, (k, s)) <$> Stage.permit_number s) stg);
  mret (distinct_on fst rows).

(** *** Step 3: entities *)

(** [trim(coalesce(first, '') || ' ' || coalesce(last, ''))] *)
Definition full_name_of (first last : option string) : string :=
  trim (default "" first ++ " " ++ default "" last).

Definition owner_entity (s : Stage.row) : option Entities.row :=
  if not_blank (Stage.owner_business_name s)
     || not_blank (Stage.owner_first_name s)
     || not_blank (Stage.owner_last_name s)
  then Some
    {| Entities.entity_type := "owner";
       Entities.full_name :=
         Some (full_name_of (Stage.owner_first_name s) (Stage.owner_last_name s));
       Entities.business_name :=
         nullif_empty (trim <$> Stage.owner_business_name s);
       Entities.license_type := Stage.owner_license_type s;
       Entities.license_number := Stage.owner_license_number s;
       Entities.phone := Stage.owner_phone s;
       Entities.address := Stage.owner_address s;
       Entities.city := Stage.owner_city s;
       Entities.state := Stage.owner_state s;
       Entities.zip := Stage.owner_zip s |}
  else None.

Definition permittee_entity (s : Stage.row) : option Entities.row :=
  if not_blank (Stage.permittee_business_name s)
     || not_blank (Stage.permittee_first_name s)
     || not_blank (Stage.permittee_last_name s)
  then Some
    {| Entities.entity_type := "permittee";
       Entities.full_name :=
         Some (full_name_of (Stage.permittee_first_name s)
                            (Stage.permittee_last_name s));
       Entities.business_name :=
         nullif_empty (trim <$> Stage.permittee_business_name s);
       Entities.license_type := Stage.permittee_license_type s;
       Entities.license_number := Stage.permittee_license_number s;
       Entities.phone := Stage.permittee_phone s;
       Entities.address := Stage.permittee_address s;
       Entities.city := Stage.permittee_city s;
       Entities.state := Stage.permittee_state s;
       Entities.zip := Stage.permittee_zip s |}
  else None.

(** The subquery [entities]: the owners of the page, then ([union all]) its
    permittees. *)
Definition entities_subquery (stg : list Stage.row) : list Entities.row :=
  omap owner_entity stg ++ omap permittee_entity stg.

(** [where (business_name is not null) or (full_name is not null and
    trim(full_name) != '')] *)
Definition entity_named (e : Entities.row) : bool :=
  bool_decide (is_Some (Entities.business_name e))
  || not_blank (Entities.full_name e).

(** Text order of the collation, lifted to a nullable column ([asc]: nulls
    last) and followed by the next sort key on a tie. *)
Definition then_by (x y : option string) (next : bool) : bool :=
  match x, y with
  | Some a, Some b => if String.eqb a b then next else text_le a b
  | Some _, None => true
  | None, Some _ => false
  | None, None => next
  end.

(** [order by entity_type, business_name nulls last, full_name] *)
Definition entity_le (a b : Entities.row) : bool :=
  then_by (Some (Entities.entity_type a)) (Some (Entities.entity_type b))
    (then_by (Entities.business_name a) (Entities.business_name b)
       (then_by (Entities.full_name a) (Entities.full_name b) true)).

Definition entity_order (a b : Entities.row) : Prop := entity_le a b = true.

#[global] Instance entity_order_dec a b : Decision (entity_order a b).
Proof. unfold entity_order. apply _. Defined.

(** The columns of [distinct on (entity_type, business_name)]; two [NULL]
    business names are not distinct. *)
Definition entity_key (e : Entities.row) : string * option string :=
  (Entities.entity_type e, Entities.business_name e).

Definition entities_rows (stg : list Stage.row) : list Entities.row :=
  distinct_on entity_key
    (merge_sort entity_order (List.filter entity_named (entities_subquery stg))).

(** The arbiter of [on conflict (entity_type, business_name) where
    business_name is not null]: the partial unique index
    [idx_dob_entities_unique_business_type]. *)
Definition entity_conflict (new old : Entities.row) : bool :=
  match Entities.business_name new with
  | Some b =>
      String.eqb (Entities.entity_type old) (Entities.entity_type new)
      && bool_decide (Entities.business_name old = Some b)
  | None => false
  end.

(** Insert one entity: the conflicting row, if any, takes the new values
    (its key columns are equal already); otherwise the row is added. *)
Fixpoint entity_upsert (new : Entities.row) (tbl : list Entities.row)
  : list Entities.row :=
  match tbl with
  | [] => [new]
  | old :: tbl' =>
      if entity_conflict new old then new :: tbl'
      else old :: entity_upsert new tbl'
  end.

Definition entities_upsert (tbl : list Entities.row) (rows : list Entities.row)
  : list Entities.row :=
  foldl (λ t e, entity_upsert e t) tbl rows.

(** The rows of the table under a key of the unique index. *)
Definition rows_of (k : string * option string) (tbl : list Entities.row)
  : list Entities.row :=
  List.filter (λ r, bool_decide (entity_key r = k)) tbl.

Definition unnamed (e : Entities.row) : bool :=
  bool_decide (Entities.business_name e = None).

(** The partial unique index [idx_dob_entities_unique_business_type]: at
    most one row for an entity type and a business name. *)
Definition entities_unique (tbl : list Entities.row) : Prop :=
  ∀ role b, (List.length (rows_of (role, Some b) tbl) ≤ 1)%nat.

(** A row that the table holds already, at the place its upsert looks. *)
Definition settled (c : Entities.row) (tbl : list Entities.row) : Prop :=
  entity_upsert c tbl = tbl.

(** *** Step 4: permits *)

Definition not_null {A} (x : option A) : result A :=
  match x with
  | Some a => Ok a
  | None => Raise not_null_violation
  end.

(** The select list of [permits_upsert] and the [NOT NULL] columns of
    [dob_permits]. *)
Definition permit_of (s : Stage.row) : result (string * Permits.row) :=
  permit_issuance_date ←
    cast_nonempty timestamptz_in (Stage.permit_issuance_date_str s);
  dobrundate ← cast_nonempty timestamptz_in (Stage.dobrundate_str s);
  id ← not_null (Stage.id s);
  updated_at ← not_null (Stage.updated_at s);
  mret (id,
    {| Permits.updated_at := updated_at;
       Permits.borough := Stage.borough s;
       Permits.bin := Stage.bin s;
       Permits.gis_latitude := Stage.gis_latitude s;
       Permits.gis_longitude := Stage.gis_longitude s;
       Permits.community_board := Stage.community_board s;
       Permits.council_district := Stage.council_district s;
       Permits.nta_name := Stage.nta_name s;
       Permits.zipcode := Stage.zipcode s;
       Permits.permit_issuance_date := permit_issuance_date;
       Permits.expiration_date := date_to_timestamptz <$> Stage.expiration_date s;
       Permits.job_start_date := date_to_timestamptz <$> Stage.job_start_date s;
       Permits.permit_status := Stage.permit_status s;
       Permits.permit_type := Stage.permit_type s;
       Permits.work_type := Stage.work_type s;
       Permits.job_type := Stage.job_type s;
       Permits.bldg_type := Stage.bldg_type s;
       Permits.residential := Stage.residential s;
       Permits.dobrundate := dobrundate;
       Permits.permit_number := Stage.permit_number s;
       Permits.raw := Stage.raw s;
       Permits.geom := None;
       Permits.geom_4326 := None |}).

(** The insert itself, row by row.  [old] is the table as the statement
    found it: [xmax = 0] tells a row it inserted from one it updated.
    [written] holds the rows the statement has written so far, after the
    trigger; a second row with an id among them raises.  At the end the
    written rows stand in the table in place of the old ones. *)
Fixpoint permits_insert (old : gmap string Permits.row)
    (rows : list (string * Permits.row))
    (written : gmap string Permits.row) (ins upd : Z)
  : result (gmap string Permits.row * Z * Z) :=
  match rows with
  | [] => Ok (written ∪ old, ins, upd)
  | (id, NEW) :: rows' =>
      match written !! id with
      | Some _ => Raise cardinality_violation
      | None =>
          let written' := <[id := populate_geom_from_coords NEW]> written in
          match old !! id with
          | None => permits_insert old rows' written' (ins + 1) upd
          | Some _ => permits_insert old rows' written' ins (upd + 1)
          end
      end
  end.

(** *** The function *)

Definition upsert_dob_permits (st : store) (_rows : list jsonb)
  : result (upsert_result * store) :=
  stg ← stage _rows;
  let buildings := upsert_rows (dob_buildings st) (buildings_rows stg) in
  details_rows ← permit_details_rows stg;
  let details := upsert_rows (dob_permit_details st) details_rows in
  let entities := entities_upsert (dob_entities st) (entities_rows stg) in
  permit_rows ← traverse permit_of stg;
  '(permits, v_ins, v_upd) ←
    permits_insert (dob_permits st) permit_rows ∅ 0 0;
  let v_max := max_timestamptz (omap Stage.updated_at stg) in
  mret ({| inserted := v_ins; updated := v_upd; max_updated := v_max |},
        {| dob_buildings := buildings;
           dob_permit_details := details;
           dob_entities := entities;
           dob_permits := permits;
           dataset_sync_state := dataset_sync_state st;
           mvt_cache := mvt_cache st |}).

End upsert.

(** The rows of a statement as the trigger leaves them, and how many of them
    the table had, or had not, before. *)
Definition populated (rows : list (string * Permits.row)) : list (string * Permits.row) :=
  prod_map id populate_geom_from_coords <$> rows.

Definition count_new (old : gmap string Permits.row) (rows : list (string * Permits.row)) : Z :=
  Z.of_nat (List.length (List.filter (λ kv, bool_decide (old !! kv.1 = None)) rows)).

Definition count_old (old : gmap string Permits.row) (rows : list (string * Permits.row)) : Z :=
  Z.of_nat (List.length (List.filter (λ kv, bool_decide (is_Some (old !! kv.1))) rows)).

(** ** The tile generator: [dob_permit_tiles(z, x, y, date)] *)

(** A row of the CTE [mvtgeom], as [ST_AsMVT] receives it. *)
Record mvt_row (G : Type) := {
  mvt_id : string;
  mvt_permit_type : option string;
  mvt_permit_status : option string;
  mvt_permit_issuance_date : option timestamptz;
  mvt_borough : option string;
  mvt_geom : option G;
}.
Arguments mvt_id {G} _.
Arguments mvt_permit_type {G} _.
Arguments mvt_permit_status {G} _.
Arguments mvt_permit_issuance_date {G} _.
Arguments mvt_borough {G} _.
Arguments mvt_geom {G} _.

(** The functions of the PostGIS extension that the tile function calls.
    [envelope] is the type of the tile polygons and [tile_geometry] the type
    of geometries in tile coordinates.  [ST_TileEnvelope] raises on a tile
    outside the grid of its zoom level; [ST_AsMVT] is the aggregate, over the
    rows in the order the scan delivers them. *)
Class PostGIS := {
  envelope : Type;
  tile_geometry : Type;
  ST_TileEnvelope : Z → Z → Z → option envelope;
  ST_Transform : geometry → Z → geometry;
  ST_Transform_envelope : envelope → Z → envelope;
  bbox_overlaps : geometry → envelope → bool;
  ST_Intersects : geometry → envelope → bool;
  ST_SnapToGrid : geometry → Z → geometry;
  ST_AsMVTGeom : geometry → envelope → Z → Z → bool → option tile_geometry;
  ST_AsMVT : list (mvt_row tile_geometry) → string → Z → string → option (list Byte.byte);
}.

Section tiles_sql.
Context `{pg : PgServer} `{gis : PostGIS}.

(** A row of the CTE [src]. *)
Record src_row := {
  src_id : string;
  src_permit_type : option string;
  src_permit_status : option string;
  src_permit_issuance_date : option timestamptz;
  src_borough : option string;
  g3857 : geometry;
}.

(** The date conjunct of [src]:
    [date is null or (p.permit_issuance_date is not null and
     p.permit_issuance_date::date = date::date)]. *)
Definition date_matches (date : option string) (p : Permits.row) : result bool :=
  match date with
  | None => Ok true
  | Some d =>
      match Permits.permit_issuance_date p with
      | None => Ok false
      | Some issued =>
          day ← cast date_in (Some d);
          mret (bool_decide (Some (timestamptz_to_date issued) = day))
      end
  end.

(** The [where] of [src] on one row of [dob_permits]; a conjunct is
    evaluated on the rows that passed the ones before it. *)
Definition src_of (env_3857 : envelope) (date : option string)
    (kp : string * Permits.row) : result (option src_row) :=
  let '(id, p) := kp in
  match Permits.geom_4326 p with
  | None => Ok None
  | Some g =>
      m ← date_matches date p;
      if m && bbox_overlaps g (ST_Transform_envelope env_3857 4326) then
        mret (Some {| src_id := id;
                      src_permit_type := Permits.permit_type p;
                      src_permit_status := Permits.permit_status p;
                      src_permit_issuance_date := Permits.permit_issuance_date p;
                      src_borough := Permits.borough p;
                      g3857 := ST_Transform g 3857 |})
      else mret None
  end.

Definition src (st : store) (env_3857 : envelope) (date : option string)
  : result (list src_row) :=
  match traverse (src_of env_3857 date) (map_to_list (dob_permits st)) with
  | Ok rows => Ok (omap (λ r : option src_row, r) rows)
  | Raise e => Raise e
  end.

(** The zoom bands of the simplification. *)
Definition simplify (z : Z) (g : geometry) : geometry :=
  if z <=? 6 then ST_SnapToGrid g 64
  else if z <=? 10 then ST_SnapToGrid g 8
  else g.

Definition mvtgeom (z : Z) (env_3857 : envelope) (extent buf : Z)
    (rows : list src_row) : list (mvt_row tile_geometry) :=
  (λ r, {| mvt_id := src_id r;
           mvt_permit_type := src_permit_type r;
           mvt_permit_status := src_permit_status r;
           mvt_permit_issuance_date := src_permit_issuance_date r;
           mvt_borough := src_borough r;
           mvt_geom := ST_AsMVTGeom (simplify z (g3857 r)) env_3857 extent buf true |})
  <$> List.filter (λ r, bbox_overlaps (g3857 r) env_3857
                        && ST_Intersects (g3857 r) env_3857) rows.

(** The rows that the tile encodes. *)
Definition tile_rows (st : store) (z x y : Z) (date : option string)
  : result (list (mvt_row tile_geometry)) :=
  match ST_TileEnvelope z x y with
  | None => Raise invalid_text_representation
  | Some env_3857 =>
      rows ← src st env_3857 date;
      mret (mvtgeom z env_3857 4096 256 rows)
  end.

(** The function: a read of [dob_permits]; it returns no store because it
    writes none. *)
Definition dob_permit_tiles (st : store) (z x y : Z) (date : option string)
  : result (list Byte.byte) :=
  rows ← tile_rows st z x y date;
  mret (default [] (ST_AsMVT rows "permits" 4096 "geom")).

End tiles_sql.

(** ** The edge functions *)

(** The variables of the deployment that [Deno.env.get] reads. *)
Record deno_env := {
  SUPABASE_URL : option string;
  SUPABASE_SERVICE_ROLE_KEY : option string;
  SOCRATA_APP_TOKEN : option string;
}.

Inductive body :=
  | NoBody
  | Text (s : string)
  | Json (fields : list (string * string))
  | Binary (bs : list Byte.byte).

Record response := {
  status : Z;
  headers : list (string * string);
  content : body;
}.

(** What the engine's [Date] and clock give the handlers:
    [Date_valid s] is [!isNaN(new Date(s).getTime())]. *)
Class JsEngine := {
  Date_valid : string → bool;
}.

(** ** The tile request handler: [supabase/functions/tiles/index.ts] *)

Module Tiles.

Record request := {
  method : string;
  pathname : string;                  (* url.pathname *)
  date_param : option string;         (* url.searchParams.get('date') *)
  if_none_match : option string;      (* req.headers.get('If-None-Match') *)
}.

(** The calls of the handler to the store, in the order it makes them. *)
Inductive call :=
  | cache_select (z x y : Z) (since until : string)
  | tile_rpc (z x y : Z) (date : option string)
  | cache_upsert (z x y : Z) (since until : string) (mvt : string).

(** What a run of the handler depends on besides the request and the
    store: the environment, the clock, and which of its calls reach the
    database. *)
Record world := {
  env : deno_env;
  today : string;                     (* now.toISOString().split('T')[0] *)
  now : timestamptz;                  (* new Date() *)
  select_reaches : bool;
  rpc_reaches : bool;
  upsert_reaches : bool;
}.

(** A value as the client library hands it over. *)
Inductive js_data :=
  | js_null
  | js_string (s : string)
  | js_buffer (bs : list Byte.byte).

Definition cors_headers : list (string * string) :=
  [("Access-Control-Allow-Origin", "*");
   ("Access-Control-Allow-Methods", "GET, OPTIONS");
   ("Access-Control-Allow-Headers", "Content-Type, Authorization, authorization, apikey")].

Definition cors_headers_short : list (string * string) :=
  [("Access-Control-Allow-Origin", "*");
   ("Access-Control-Allow-Methods", "GET, OPTIONS");
   ("Access-Control-Allow-Headers", "Content-Type, Authorization, apikey")].

Definition cache_control : string * string :=
  ("Cache-Control", "public, max-age=3600, s-maxage=86400, stale-while-revalidate=604800").

Definition mvt_type : string * string :=
  ("Content-Type", "application/vnd.mapbox-vector-tile").

Definition preflight : response :=
  {| status := 200;
     headers := cors_headers ++ [("Access-Control-Max-Age", "86400")];
     content := NoBody |}.

Definition bad_request (msg : string) : response :=
  {| status := 400; headers := []; content := Text msg |}.

(** The [catch] of the handler. *)
Definition server_error (msg : string) : response :=
  {| status := 500;
     headers := ("Content-Type", "application/json") :: cors_headers_short;
     content := Json [("error", msg)] |}.

Definition empty_tile (cors : list (string * string)) : response :=
  {| status := 200;
     headers := mvt_type :: cache_control :: cors;
     content := Binary [] |}.

Definition not_modified (etagHeader : string) : response :=
  {| status := 304;
     headers := ("ETag", etagHeader) :: cache_control :: cors_headers_short;
     content := NoBody |}.

Definition tile (etagHeader : string) (tileData : list Byte.byte) : response :=
  {| status := 200;
     headers := mvt_type :: cache_control :: ("ETag", etagHeader) :: cors_headers_short;
     content := Binary tileData |}.

Definition dquote : string := String "034"%char "".

(** [if (data)] *)
Definition truthy (data : js_data) : bool :=
  match data with
  | js_null => false
  | js_string s => negb (String.eqb s "")
  | js_buffer _ => true
  end.

(** The test of the empty-tile branch on the result of the RPC. *)
Definition is_empty (data : js_data) : bool :=
  match data with
  | js_null => true
  | js_string s => String.eqb s "\x" || (String.length s =? 0)%nat
  | js_buffer bs => (List.length bs =? 0)%nat
  end.

Definition to_buffer (data : js_data) : list Byte.byte :=
  match data with
  | js_string s => JS.hexToArrayBuffer s
  | js_buffer bs => bs
  | js_null => []
  end.

(** The [mvt] column of the row the handler writes to the cache. *)
Definition mvt_text (data : js_data) : string :=
  match data with
  | js_string s => s
  | _ => "\x" ++ JS.hex_of_bytes (to_buffer data)
  end.

Section handler.
Context `{pg : PgServer} `{gis : PostGIS} `{js : JsEngine}.

(** [from('mvt_cache').select('mvt, updated_at').eq(...).single()]:
    the [mvt] of the row with that key, on the wire; an error when the
    request fails, the date is not one, or no row has the key. *)
Definition select_cache (w : world) (st : store) (z x y : Z) (since until : string)
  : result js_data :=
  if select_reaches w then
    match date_in since, date_in until with
    | Some s, Some u =>
        match mvt_cache st !! ("permits", z, x, y, s, u) with
        | Some row => Ok (js_string (bytea_out (MvtCache.mvt row)))
        | None => Raise cardinality_violation
        end
    | _, _ => Raise invalid_text_representation
    end
  else Raise connection_failure.

(** [rpc('dob_permit_tiles', {z, x, y, date})] *)
Definition rpc_dob_permit_tiles (w : world) (st : store) (z x y : Z)
    (date : option string) : result js_data :=
  if rpc_reaches w then
    bs ← dob_permit_tiles st z x y date;
    mret (js_string (bytea_out bs))
  else Raise connection_failure.

(** [from('mvt_cache').upsert({...})]; the handler does not wait for it
    and drops its error. *)
Definition upsert_cache (w : world) (st : store) (z x y : Z)
    (since until : string) (mvt : string) : store :=
  if upsert_reaches w then
    match date_in since, date_in until, bytea_in mvt with
    | Some s, Some u, Some bs =>
        {| dob_buildings := dob_buildings st;
           dob_permit_details := dob_permit_details st;
           dob_entities := dob_entities st;
           dob_permits := dob_permits st;
           dataset_sync_state := dataset_sync_state st;
           mvt_cache :=
             <[("permits", z, x, y, s, u) :=
                 {| MvtCache.mvt := bs; MvtCache.updated_at := now w |}]>
             (mvt_cache st) |}
    | _, _, _ => st
    end
  else st.

(** The end of the handler, once the tile bytes are known. *)
Definition respond (req : request) (tileData : list Byte.byte) : response :=
  if (List.length tileData =? 0)%nat then empty_tile cors_headers_short
  else
    let etagHeader := dquote ++ JS.generateETag tileData ++ dquote in
    if bool_decide (if_none_match req = Some etagHeader)
    then not_modified etagHeader
    else tile etagHeader tileData.

(** The cache-miss branch. *)
Definition generate (w : world) (st : store) (req : request)
    (z x y : Z) (dateStr : string) : response * list call * store :=
  let cacheDate := dateStr in
  let lookup := cache_select z x y cacheDate cacheDate in
  let rpc := tile_rpc z x y (Some dateStr) in
  match rpc_dob_permit_tiles w st z x y (Some dateStr) with
  | Raise _ => (server_error "Tile RPC error", [lookup; rpc], st)
  | Ok data =>
      if is_empty data then (empty_tile cors_headers, [lookup; rpc], st)
      else
        let tileData := to_buffer data in
        (respond req tileData,
         [lookup; rpc; cache_upsert z x y cacheDate cacheDate (mvt_text data)],
         upsert_cache w st z x y cacheDate cacheDate (mvt_text data))
  end.

(** The handler after the validation of the path and the date. *)
Definition lookup_or_generate (w : world) (st : store) (req : request)
    (z x y : Z) (dateStr : string) : response * list call * store :=
  let cacheDate := dateStr in
  let lookup := cache_select z x y cacheDate cacheDate in
  let cached := select_cache w st z x y cacheDate cacheDate in
  match cached with
  | Ok mvt =>
      if truthy mvt then (respond req (to_buffer mvt), [lookup], st)
      else generate w st req z x y dateStr
  | Raise _ => generate w st req z x y dateStr
  end.

(** [Deno.serve(async (req) => ...)]: the response, the calls made to the
    store, and the store afterwards. *)
Definition serve (w : world) (st : store) (req : request)
  : response * list call * store :=
  if String.eqb (method req) "OPTIONS" then (preflight, [], st)
  else if negb (JS.truthy (SUPABASE_URL (env w))
                && JS.truthy (SUPABASE_SERVICE_ROLE_KEY (env w)))
  then (server_error "Missing SUPABASE_URL or SUPABASE_SERVICE_ROLE_KEY", [], st)
  else
    let pathParts := JS.filter_Boolean (JS.split "/" (pathname req)) in
    match JS.indexOf pathParts "tiles" with
    | None =>
        (bad_request "Invalid path. Expected: /tiles/permits/{z}/{x}/{y}", [], st)
    | Some tilesIndex =>
        if (List.length pathParts <? tilesIndex + 5)%nat
           || negb (bool_decide (pathParts !! (tilesIndex + 1)%nat = Some "permits"))
        then (bad_request "Invalid path. Expected: /tiles/permits/{z}/{x}/{y}", [], st)
        else
          match JS.parseInt (default "" (pathParts !! (tilesIndex + 2)%nat)) 10,
                JS.parseInt (default "" (pathParts !! (tilesIndex + 3)%nat)) 10,
                JS.parseInt (default "" (pathParts !! (tilesIndex + 4)%nat)) 10 with
          | Some z, Some x, Some y =>
              if (z <? 0) || (z >? 16)
              then (bad_request "Zoom level must be between 0 and 16", [], st)
              else
                let maxCoord := 2 ^ z in
                if (x <? 0) || (x >=? maxCoord) || (y <? 0) || (y >=? maxCoord)
                then (bad_request "Tile coordinates out of range", [], st)
                else
                  let dateStr := JS.or_else (date_param req) (today w) in
                  if negb (JS.dateRegex_test dateStr)
                  then (bad_request "Invalid date format. Use YYYY-MM-DD", [], st)
                  else if negb (Date_valid (dateStr ++ "T00:00:00Z"))
                  then (bad_request "Invalid date format. Use YYYY-MM-DD", [], st)
                  else lookup_or_generate w st req z x y dateStr
          | _, _, _ => (bad_request "Invalid tile coordinates", [], st)
          end
    end.

End handler.

(** The parts of the path and the coordinates the handler reads in them. *)
Definition pathParts (req : request) : list string :=
  JS.filter_Boolean (JS.split "/" (pathname req)).

(** [pathParts[tilesIndex + k]] *)
Definition after_tiles (req : request) (k : nat) : string :=
  match JS.indexOf (pathParts req) "tiles" with
  | Some tilesIndex => default "" (pathParts req !! (tilesIndex + k)%nat)
  | None => ""
  end.

Definition zoom (req : request) : option Z := JS.parseInt (after_tiles req 2) 10.
Definition tile_x (req : request) : option Z := JS.parseInt (after_tiles req 3) 10.
Definition tile_y (req : request) : option Z := JS.parseInt (after_tiles req 4) 10.

(** [dateParam || defaultDate] *)
Definition dateStr (w : world) (req : request) : string :=
  JS.or_else (date_param req) (today w).

Definition configured (e : deno_env) : bool :=
  JS.truthy (SUPABASE_URL e) && JS.truthy (SUPABASE_SERVICE_ROLE_KEY e).

(** Tiles whose features all carry an issuance date. *)
Section dated.
Context `{gis : PostGIS}.

Definition dated_rows (rows : list (mvt_row tile_geometry)) : Prop :=
  Forall (λ r, is_Some (mvt_permit_issuance_date r)) rows.

Definition dated_tile (bs : list Byte.byte) : Prop :=
  ∃ rows, dated_rows rows ∧ bs = default [] (ST_AsMVT rows "permits" 4096 "geom").

Definition cache_dated (st : store) : Prop :=
  ∀ k row, mvt_cache st !! k = Some row → dated_tile (MvtCache.mvt row).
End dated.
End Tiles.

(** ** The ingestion run: [supabase/functions/dob-permits-sync/index.ts] *)

Module Sync.

Definition PAGE_SIZE : nat := 5000.

Record request := {
  mode_param : option string;         (* url.searchParams.get('mode') *)
  sinceParam : option timestamptz;    (* ...get('since'), when not empty *)
  untilParam : option timestamptz;    (* ...get('until'), when not empty *)
}.

(** A request to the upstream API: the query parameters and the token. *)
Record query := {
  select : string;                    (* $select *)
  order : option string;              (* $order *)
  limit : nat;                        (* $limit *)
  offset : nat;                       (* $offset *)
  where_after : option timestamptz;   (* :updated_at > '...' *)
  where_until : option timestamptz;   (* :updated_at <= '...' *)
  app_token : option string;          (* X-App-Token *)
}.

(** What [response.json()] gives. *)
Inductive json_body :=
  | not_json                          (* it throws *)
  | not_array
  | array (records : list jsonb).

Inductive fetch_outcome :=
  | fetch_throws
  | fetch_response (status : Z) (b : json_body).

(** What a run depends on besides the request and the store: the
    environment, the clock, what the n-th [fetch] of the run answers, and
    whether its n-th call to the store reaches the database. *)
Record world := {
  env : deno_env;
  now : timestamptz;
  fetch : nat → query → fetch_outcome;
  reaches : nat → bool;
}.

Inductive event :=
  | fetched (q : query)
  | slept (ms : Z)
  | read_watermark
  | upserted (_rows : list jsonb)
  | wrote_sync_state (last_synced_updated_at : timestamptz).

(** The JSON of the responses. *)
Inductive sync_response :=
  | no_new_data (mode : string) (lastSyncedUpdatedAt : timestamptz)
  | synced (mode : string) (totalProcessed totalInserted totalUpdated : Z)
      (lastSyncedUpdatedAt : option timestamptz)
      (dateRange : option (option timestamptz * option timestamptz))
  | failure (error : string).

Definition status_of (r : sync_response) : Z :=
  match r with
  | failure _ => 500
  | _ => 200
  end.

(** The run has answered, or is still in its [while (true)]. *)
Inductive outcome :=
  | responded (r : sync_response)
  | paginating.

(** The mutable variables of the run, with the store, the counters of the
    oracle and the events so far. *)
Record state := {
  db : store;
  fetches : nat;
  calls : nat;
  trace : list event;
  page : nat;
  totalProcessed : Z;
  totalInserted : Z;
  totalUpdated : Z;
  newestSeen : timestamptz;
  maxUpdatedAt : option timestamptz;
}.

Definition ok (status : Z) : bool := (200 <=? status) && (status <=? 299).

Definition transient (status : Z) : bool :=
  (status =? 429) || ((500 <=? status) && (status <? 600)).

Definition jvalue_truthy (v : option jvalue) : bool :=
  match v with
  | Some (JString s) => negb (String.eqb s "")
  | Some (JNumber t) => negb (String.eqb t "0")
  | Some (JBool b) => b
  | Some (JNested _) => true
  | Some JNull | None => false
  end.

(** The retry loop around [fetch]: the body of the response, or [None]
    for the error it throws; with the fetches made and the events. *)
Fixpoint fetch_retrying (w : world) (q : query) (retries : nat) (retryDelay : Z)
    (n : nat) (tr : list event) : option json_body * nat * list event :=
  match retries with
  | O => (None, n, tr)
  | S retries' =>
      let tr := (tr ++ [fetched q])%list in
      let again :=
        match retries' with
        | O => (None, S n, tr)
        | S _ => fetch_retrying w q retries' (retryDelay * 2) (S n)
                   (tr ++ [slept retryDelay])%list
        end in
      match fetch w n q with
      | fetch_throws => again
      | fetch_response status b =>
          if transient status && (1 <? retries)%nat then again
          else if negb (ok status) then again
          else (Some b, S n, tr)
      end
  end.

Section run.
Context `{pg : PgServer}.

Definition page_query (w : world) (req : request) (s : state) : query :=
  {| select := ":*, *";
     order := Some ":updated_at ASC";
     limit := PAGE_SIZE;
     offset := page s * PAGE_SIZE;
     where_after := Some (newestSeen s);
     where_until := untilParam req;
     app_token := SOCRATA_APP_TOKEN (env w) |}.

Definition preflight_query (w : world) (watermark : timestamptz) : query :=
  {| select := "max(:updated_at) as max_updated";
     order := None;
     limit := 1;
     offset := 0;
     where_after := Some watermark;
     where_until := None;
     app_token := SOCRATA_APP_TOKEN (env w) |}.

Definition with_db (s : state) (st : store) (e : event) : state :=
  {| db := st; fetches := fetches s; calls := S (calls s);
     trace := (trace s ++ [e])%list; page := page s;
     totalProcessed := totalProcessed s; totalInserted := totalInserted s;
     totalUpdated := totalUpdated s; newestSeen := newestSeen s;
     maxUpdatedAt := maxUpdatedAt s |}.

Definition with_fetches (s : state) (n : nat) (tr : list event) : state :=
  {| db := db s; fetches := n; calls := calls s;
     trace := tr; page := page s;
     totalProcessed := totalProcessed s; totalInserted := totalInserted s;
     totalUpdated := totalUpdated s; newestSeen := newestSeen s;
     maxUpdatedAt := maxUpdatedAt s |}.

(** The end of an iteration that upserted [records] and got [res]. *)
Definition account (s : state) (records : list jsonb) (res : upsert_result)
  : state :=
  let advance :=
    match max_updated res with
    | Some m => m >? newestSeen s
    | None => false
    end in
  {| db := db s; fetches := fetches s; calls := calls s;
     trace := trace s; page := page s;
     totalProcessed := totalProcessed s + Z.of_nat (List.length records);
     totalInserted := totalInserted s + inserted res;
     totalUpdated := totalUpdated s + updated res;
     newestSeen := if advance then default (newestSeen s) (max_updated res)
                   else newestSeen s;
     maxUpdatedAt := if advance then max_updated res else maxUpdatedAt s |}.

Definition next_page (s : state) : state :=
  {| db := db s; fetches := fetches s; calls := calls s;
     trace := trace s; page := S (page s);
     totalProcessed := totalProcessed s; totalInserted := totalInserted s;
     totalUpdated := totalUpdated s; newestSeen := newestSeen s;
     maxUpdatedAt := maxUpdatedAt s |}.

(** [rpc('upsert_dob_permits', { _rows: records })] *)
Definition rpc_upsert_dob_permits (w : world) (s : state) (records : list jsonb)
  : result upsert_result * state :=
  if reaches w (calls s) then
    match upsert_dob_permits (db s) records with
    | Ok (res, st') => (Ok res, with_db s st' (upserted records))
    | Raise e => (Raise e, with_db s (db s) (upserted records))
    end
  else (Raise connection_failure, with_db s (db s) (upserted records)).

(** The statements after the loop: the upsert of [dataset_sync_state] and
    the response. *)
Definition finish (w : world) (req : request) (mode : string) (s : state)
  : sync_response * state :=
  let dateRange :=
    match sinceParam req, untilParam req with
    | None, None => None
    | since, until => Some (since, until)
    end in
  let done :=
    synced mode (totalProcessed s) (totalInserted s) (totalUpdated s)
      (maxUpdatedAt s) dateRange in
  match sinceParam req, untilParam req with
  | None, None =>
      if bool_decide (is_Some (maxUpdatedAt s)) || String.eqb mode "historical"
      then
        let v := default (now w) (maxUpdatedAt s) in
        if reaches w (calls s) then
          let st' :=
            {| dob_buildings := dob_buildings (db s);
               dob_permit_details := dob_permit_details (db s);
               dob_entities := dob_entities (db s);
               dob_permits := dob_permits (db s);
               dataset_sync_state :=
                 <["ipu4-2q9a" := Some v]> (dataset_sync_state (db s));
               mvt_cache := mvt_cache (db s) |} in
          (done, with_db s st' (wrote_sync_state v))
        else
          (failure "Failed to update sync state",
           with_db s (db s) (wrote_sync_state v))
      else (done, s)
  | _, _ => (done, s)
  end.

(** The [while (true)] loop; [fuel] bounds its iterations. *)
Fixpoint paginate (fuel : nat) (w : world) (req : request) (mode : string)
    (s : state) : outcome * state :=
  match fuel with
  | O => (paginating, s)
  | S fuel' =>
      let '(fetched_body, n, tr) :=
        fetch_retrying w (page_query w req s) 3 1000 (fetches s) (trace s) in
      let s := with_fetches s n tr in
      match fetched_body with
      | None => (responded (failure "Socrata API error"), s)
      | Some not_json => (responded (failure "Unexpected token"), s)
      | Some not_array | Some (array []) =>
          let '(r, s) := finish w req mode s in (responded r, s)
      | Some (array records) =>
          match rpc_upsert_dob_permits w s records with
          | (Raise _, s) => (responded (failure "Upsert failed"), s)
          | (Ok res, s) =>
              let s := account s records res in
              if (List.length records <? PAGE_SIZE)%nat then
                let '(r, s) := finish w req mode s in (responded r, s)
              else paginate fuel' w req mode (next_page s)
          end
      end
  end.

(** [Deno.serve(async (req) => ...)] *)
Definition run (fuel : nat) (w : world) (st : store) (req : request)
  : outcome * state :=
  let s0 :=
    {| db := st; fetches := 0; calls := 0; trace := []; page := 0;
       totalProcessed := 0; totalInserted := 0; totalUpdated := 0;
       newestSeen := 0; maxUpdatedAt := None |} in
  if negb (JS.truthy (SUPABASE_URL (env w))
           && JS.truthy (SUPABASE_SERVICE_ROLE_KEY (env w)))
  then (responded (failure "Missing SUPABASE_URL or SUPABASE_SERVICE_ROLE_KEY"), s0)
  else
    let mode := JS.or_else (mode_param req) "incremental" in
    (* the watermark: [since], or the one of the store *)
    let '(watermark, s1) :=
      match sinceParam req with
      | Some since => (Ok (Some since), s0)
      | None =>
          if String.eqb mode "incremental" then
            if reaches w (calls s0)
            then (Ok (Some (current_dob_watermark st)),
                  with_db s0 st read_watermark)
            else (Raise connection_failure, with_db s0 st read_watermark)
          else (Ok None, s0)
      end in
    match watermark with
    | Raise _ => (responded (failure "Failed to fetch watermark"), s1)
    | Ok watermark =>
        let start (s : state) : outcome * state :=
          paginate fuel w req mode
            {| db := db s; fetches := fetches s; calls := calls s;
               trace := trace s; page := 0;
               totalProcessed := 0; totalInserted := 0; totalUpdated := 0;
               newestSeen := default 0 watermark; maxUpdatedAt := None |} in
        match watermark, sinceParam req, untilParam req with
        | Some wm, None, None =>
            if String.eqb mode "incremental" then
              (* the preflight check *)
              let q := preflight_query w wm in
              let s2 := with_fetches s1 (S (fetches s1)) (trace s1 ++ [fetched q])%list in
              match fetch w (fetches s1) q with
              | fetch_throws => (responded (failure "fetch failed"), s2)
              | fetch_response status b =>
                  if ok status then
                    match b with
                    | not_json => (responded (failure "Unexpected token"), s2)
                    | not_array | array [] =>
                        (responded (no_new_data mode wm), s2)
                    | array (first :: _) =>
                        if jvalue_truthy (first !! "max_updated") then start s2
                        else (responded (no_new_data mode wm), s2)
                    end
                  else start s2
              end
            else start s1
        | _, _, _ => start s1
        end
    end.

(** The lower bound of the first page request of a run: [since], the
    watermark of the store in incremental mode, the epoch otherwise. *)
Definition starting_point (st : store) (req : request) : timestamptz :=
  match sinceParam req with
  | Some since => since
  | None =>
      if String.eqb (JS.or_else (mode_param req) "incremental") "incremental"
      then current_dob_watermark st else 0
  end.

End run.

(** The page requests among the events. *)
Definition page_requests (tr : list event) : list (nat * option timestamptz) :=
  omap (λ e, match e with
             | fetched q => Some (offset q, where_after q)
             | _ => None
             end) tr.

(** How often the run read the watermark of the store. *)
Definition watermark_reads (tr : list event) : nat :=
  List.length (List.filter (λ e, match e with read_watermark => true | _ => false end) tr).

(** *** The upstream API

    What the dataset endpoint answers to a query when it holds [dataset]:
    the records in the range, in the order asked for, from [offset], at
    most [limit] of them.  The instant of a record is the one the store
    reads in its [:updated_at]. *)
Section upstream.
Context `{pg : PgServer}.

Definition updated_at_of (r : jsonb) : option timestamptz :=
  r ->> ":updated_at" ≫= timestamptz_in.

(** The records with their instants; one without an instant is in no
    range. *)
Definition dated (dataset : list jsonb) : list (timestamptz * jsonb) :=
  omap (λ r, (λ t, (t, r)) <$> updated_at_of r) dataset.

Definition in_range (q : query) (tr : timestamptz * jsonb) : bool :=
  match where_after q with Some a => a <? tr.1 | None => true end
  && match where_until q with Some u => tr.1 <=? u | None => true end.

Definition older (a b : timestamptz * jsonb) : Prop := a.1 ≤ b.1.

#[global] Instance older_dec a b : Decision (older a b).
Proof. unfold older. apply _. Defined.

(** The one row of [$select=max(:updated_at) as max_updated]; the
    column is absent when no record is in the range. *)
Definition max_row (rows : list (timestamptz * jsonb)) : jsonb :=
  match reverse (merge_sort older rows) with
  | newest :: _ =>
      match newest.2 !! ":updated_at" with
      | Some v => {[ "max_updated" := v ]}
      | None => ∅
      end
  | [] => ∅
  end.

Definition socrata (dataset : list jsonb) (q : query) : list jsonb :=
  let rows := List.filter (in_range q) (dated dataset) in
  if String.eqb (select q) "max(:updated_at) as max_updated" then
    take (limit q) [max_row rows]
  else
    let rows := match order q with Some _ => merge_sort older rows | None => rows end in
    take (limit q) (drop (offset q) rows).*2.

(** A world whose upstream always answers, from a dataset that does not
    change during the run, and whose store is always reached. *)
Definition steady (e : deno_env) (clock : timestamptz) (dataset : list jsonb)
  : world :=
  {| env := e; now := clock;
     fetch := λ _ q, fetch_response 200 (array (socrata dataset q));
     reaches := λ _, true |}.

End upstream.
End Sync.

(** What the end of a run may have done to the persisted sync state. *)
Definition persisted (lb : timestamptz) (w : Sync.world) (req : Sync.request)
    (before : gmap string (option timestamptz))
    (out : Sync.outcome) (s : Sync.state) : Prop :=
  let after := dataset_sync_state (Sync.db s) in
  after = before
  ∨ ∃ v mode p i u last,
      out = Sync.responded (Sync.synced mode p i u last None)
      ∧ Sync.sinceParam req = None ∧ Sync.untilParam req = None
      ∧ after = <["ipu4-2q9a" := Some v]> before
      ∧ (last = Some v ∧ lb < v
         ∨ last = None ∧ mode = "historical" ∧ v = Sync.now w).

Definition succeeded (out : Sync.outcome) : bool :=
  match out with
  | Sync.responded (Sync.failure _) | Sync.paginating => false
  | Sync.responded _ => true
  end.

Definition post (lb : timestamptz) (w : Sync.world) (req : Sync.request)
    (before : gmap string (option timestamptz))
    (out : Sync.outcome) (s : Sync.state) : Prop :=
  (succeeded out = false → dataset_sync_state (Sync.db s) = before)
  ∧ (Sync.sinceParam req ≠ None ∨ Sync.untilParam req ≠ None →
     dataset_sync_state (Sync.db s) = before)
  ∧ persisted lb w req before out s.

(** The rolling watermark never falls below the starting point, and a
    maximum seen is strictly above it. *)
Definition rolling (lb : timestamptz) (s : Sync.state) : Prop :=
  lb ≤ Sync.newestSeen s
  ∧ ∀ v, Sync.maxUpdatedAt s = Some v → lb < v.

(** ** An implementation of the interfaces, to run the model on examples *)

Module Example.

Definition digit (c : ascii) : option Z := JS.digit_value 10 c.

Definition number2 (a b : ascii) : option Z :=
  x ← digit a; y ← digit b; mret (10 * x + y).

Definition number4 (a b c d : ascii) : option Z :=
  x ← number2 a b; y ← number2 c d; mret (100 * x + y).

Definition leap (y : Z) : bool :=
  ((y mod 4 =? 0) && negb (y mod 100 =? 0)) || (y mod 400 =? 0).

Definition days_in_month (y m : Z) : Z :=
  if m =? 2 then (if leap y then 29 else 28)
  else if (m =? 4) || (m =? 6) || (m =? 9) || (m =? 11) then 30
  else 31.

(** Days from 1970-01-01 to the civil date. *)
Definition days_from_civil (y m d : Z) : Z :=
  let y' := if m <=? 2 then y - 1 else y in
  let era := y' / 400 in
  let yoe := y' - era * 400 in
  let doy := (153 * (if m >? 2 then m - 3 else m + 9) + 2) / 5 + d - 1 in
  let doe := yoe * 365 + yoe / 4 - yoe / 100 + doy in
  era * 146097 + doe - 719468.

Definition civil (y m d : Z) : option Z :=
  if (1 <=? y) && (1 <=? m) && (m <=? 12) && (1 <=? d) && (d <=? days_in_month y m)
  then Some (days_from_civil y m d) else None.

(** [YYYY-MM-DD] *)
Definition iso_date (s : string) : option date :=
  match list_ascii_of_string s with
  | [y1; y2; y3; y4; "-"; m1; m2; "-"; d1; d2]%char =>
      y ← number4 y1 y2 y3 y4; m ← number2 m1 m2; d ← number2 d1 d2;
      civil y m d
  | _ => None
  end.

(** [YYYY-MM-DDTHH:MM:SSZ], or a date (midnight) *)
Definition iso_timestamp (s : string) : option timestamptz :=
  match list_ascii_of_string s with
  | [y1; y2; y3; y4; "-"; m1; m2; "-"; d1; d2; "T"; h1; h2; ":"; n1; n2; ":"; s1; s2; "Z"]%char =>
      y ← number4 y1 y2 y3 y4; m ← number2 m1 m2; d ← number2 d1 d2;
      day ← civil y m d;
      h ← number2 h1 h2; n ← number2 n1 n2; sec ← number2 s1 s2;
      if (h <? 24) && (n <? 60) && (sec <? 60)
      then Some (day * usecs_per_day + ((h * 60 + n) * 60 + sec) * 1000000)
      else None
  | _ => date_to_timestamptz <$> iso_date s
  end.

Fixpoint all_digits (s : string) : bool :=
  match s with
  | EmptyString => true
  | String c s' => JS.is_digit c && all_digits s'
  end.

Definition natural (s : string) : option Z :=
  match s with
  | EmptyString => None
  | _ => if all_digits s then JS.digits_prefix 10 None s else None
  end.

(** Decimal numbers: [-73.9], [40], [NaN], [Infinity]. *)
Definition decimal (s : string) : option float8 :=
  if String.eqb s "NaN" then Some NaN
  else if String.eqb s "Infinity" then Some PosInf
  else if String.eqb s "-Infinity" then Some NegInf
  else
    let '(neg, body) :=
      match s with
      | String "-" r => (true, r)
      | _ => (false, s)
      end in
    let sign (q : Q) := if neg : bool then Qopp q else q in
    match JS.split "." body with
    | [i] => (λ n, Finite (sign (inject_Z n))) <$> natural i
    | [i; f] =>
        n ← natural i; k ← natural f;
        mret (Finite (sign (Qmake (n * 10 ^ Z.of_nat (String.length f) + k)
                                  (Z.to_pos (10 ^ Z.of_nat (String.length f))))))
    | _ => None
    end.

Definition hex_value (c : ascii) : option Z := JS.digit_value 16 c.

Fixpoint hex_bytes (fuel : nat) (s : string) : option (list Byte.byte) :=
  match fuel, s with
  | _, EmptyString => Some []
  | S fuel', String a (String b s') =>
      x ← hex_value a; y ← hex_value b;
      bs ← hex_bytes fuel' s';
      mret (JS.to_uint8 (Some (16 * x + y)) :: bs)
  | _, _ => None
  end.

(** The hex input format of [bytea]. *)
Definition hex_bytea (s : string) : option (list Byte.byte) :=
  match s with
  | String "\" (String "x" rest) => hex_bytes (String.length rest) rest
  | _ => None
  end.

Definition server : PgServer :=
  {| timestamptz_in := iso_timestamp;
     date_in := iso_date;
     float8_in := decimal;
     bytea_in := hex_bytea;
     text_le := String.leb |}.

(** A flat world: the tile of every zoom covers it, nothing is moved, and
    a tile is one byte per feature. *)
Definition gis : PostGIS :=
  {| envelope := Z * Z * Z;
     tile_geometry := geometry;
     ST_TileEnvelope z x y :=
       if (0 <=? z) && (0 <=? x) && (x <? 2 ^ z) && (0 <=? y) && (y <? 2 ^ z)
       then Some (z, x, y) else None;
     ST_Transform g _ := g;
     ST_Transform_envelope e _ := e;
     bbox_overlaps _ _ := true;
     ST_Intersects _ _ := true;
     ST_SnapToGrid g _ := g;
     ST_AsMVTGeom g _ _ _ _ := Some g;
     ST_AsMVT rows _ _ _ :=
       match rows with
       | [] => None
       | _ => Some ((λ _, Byte.x01) <$> rows)
       end |}.

Definition engine : JsEngine :=
  {| Date_valid s := bool_decide (is_Some (iso_timestamp s)) |}.

Definition deployment : deno_env :=
  {| SUPABASE_URL := Some "https://project.supabase.co";
     SUPABASE_SERVICE_ROLE_KEY := Some "service-role-key";
     SOCRATA_APP_TOKEN := None |}.

Definition record (fields : list (string * string)) : jsonb :=
  list_to_map (prod_map id JString <$> fields).

Definition two_digits (n : Z) : string :=
  String (JS.hex_digit (Z.to_N (n / 10 mod 10)))
    (String (JS.hex_digit (Z.to_N (n mod 10))) "").

(** The instant [i] seconds into 2024-01-01, as upstream writes it. *)
Definition stamp (i : nat) : string :=
  let n := Z.of_nat i in
  "2024-01-01T" ++ two_digits (n / 3600) ++ ":" ++ two_digits (n / 60 mod 60)
    ++ ":" ++ two_digits (n mod 60) ++ "Z".

Definition numbered (i : nat) : jsonb :=
  record [(":id", "row-" ++ pretty i); (":updated_at", stamp i)].

(** An upstream dataset of [n] records, one per second from 00:00:01. *)
Definition dataset (n : nat) : list jsonb := numbered <$> seq 1 n.

(** Scenario A of the specification. *)
Definition p1 : jsonb :=
  record [(":id", "P1"); (":updated_at", "2024-01-02T00:00:00Z");
          ("gis_latitude", "40.7"); ("gis_longitude", "-73.9");
          ("issuance_date", "2024-01-02T00:00:00Z")].

(** Two permits of the same owning business, and two of owners without
    one. *)
Definition zed : jsonb :=
  record [(":id", "P2"); (":updated_at", "2024-01-02T00:00:00Z");
          ("owner_s_business_name", "ACME"); ("owner_s_first_name", "Zed")].

Definition amy : jsonb :=
  record [(":id", "P3"); (":updated_at", "2024-01-02T00:00:01Z");
          ("owner_s_business_name", "ACME"); ("owner_s_first_name", "Amy")].

Definition ann : jsonb :=
  record [(":id", "P4"); (":updated_at", "2024-01-02T00:00:02Z");
          ("owner_s_first_name", "Ann")].

Definition bob : jsonb :=
  record [(":id", "P5"); (":updated_at", "2024-01-02T00:00:03Z");
          ("owner_s_first_name", "Bob")].

(** A permit whose expiration date is the empty string. *)
Definition undated : jsonb :=
  record [(":id", "P6"); (":updated_at", "2024-01-02T00:00:04Z");
          ("expiration_date", "")].

(** The store after the page of scenario A. *)
Definition store_A : store :=
  match upsert_dob_permits (pg := server) empty_store [p1] with
  | Ok (_, st) => st
  | Raise _ => empty_store
  end.

Definition tiles_world : Tiles.world :=
  {| Tiles.env := deployment; Tiles.today := "2024-01-02";
     Tiles.now := 1704153600000000;
     Tiles.select_reaches := true; Tiles.rpc_reaches := true;
     Tiles.upsert_reaches := true |}.

Definition get (path : string) (date : option string) : Tiles.request :=
  {| Tiles.method := "GET"; Tiles.pathname := path;
     Tiles.date_param := date; Tiles.if_none_match := None |}.

Definition historical : Sync.request :=
  {| Sync.mode_param := Some "historical";
     Sync.sinceParam := None; Sync.untilParam := None |}.

Definition incremental : Sync.request :=
  {| Sync.mode_param := None;
     Sync.sinceParam := None; Sync.untilParam := None |}.

End Example.

(** ** More of the migration *)

(** [create_geojson_point(lat, lon)], the function of the generated column
    [geojson]: the object [{"type": "Point", "coordinates": [lon, lat]}]. *)
Record geojson := {
  geojson_type : string;
  coordinates : list float8;
}.

Definition create_geojson_point (lat lon : option float8) : option geojson :=
  match lat, lon with
  | Some lat, Some lon =>
      if between lat (float8_of_Z (-90)) (float8_of_Z 90)
         && between lon (float8_of_Z (-180)) (float8_of_Z 180)
      then Some {| geojson_type := "Point"; coordinates := [lon; lat] |}
      else None
  | _, _ => None
  end.

(** The column [geojson] of a row of [dob_permits]. *)
Definition geojson_of (p : Permits.row) : option geojson :=
  create_geojson_point (Permits.gis_latitude p) (Permits.gis_longitude p).

Fixpoint fill_with (c : ascii) (n : nat) (s : string) : string :=
  match n with
  | O => s
  | S n' => String c (fill_with c n' s)
  end.

(** [LPAD(s, n, fill)] for a one-character fill: [s] filled on the left up
    to [n] characters, or cut on the right down to them. *)
Definition LPAD (s : string) (n : nat) (fill : ascii) : string :=
  if (n <=? String.length s)%nat then String.substring 0 n s
  else fill_with fill (n - String.length s) s.

(** The generated column [bbl] of [dob_buildings]. *)
Definition bbl_of (b : Buildings.row) : option string :=
  match Buildings.borough b, Buildings.block b, Buildings.lot b with
  | Some borough, Some block, Some lot =>
      Some (borough ++ LPAD block 5 "0" ++ LPAD lot 4 "0")
  | _, _, _ => None
  end.

(** [clean_mvt_cache()], called at [now]: deletes the entries of the tile
    cache written more than seven days before, and returns their number. *)
Definition stale (now : timestamptz) (entry : cache_key * MvtCache.row) : Prop :=
  MvtCache.updated_at entry.2 < now - 7 * usecs_per_day.

#[global] Instance stale_dec now entry : Decision (stale now entry).
Proof. unfold stale. apply _. Defined.

Definition clean_mvt_cache (now : timestamptz) (st : store) : Z * store :=
  let deleted_count := size (filter (stale now) (mvt_cache st)) in
  (Z.of_nat deleted_count,
   {| dob_buildings := dob_buildings st;
      dob_permit_details := dob_permit_details st;
      dob_entities := dob_entities st;
      dob_permits := dob_permits st;
      dataset_sync_state := dataset_sync_state st;
      mvt_cache := filter (λ entry, ¬ stale now entry) (mvt_cache st) |}).

(** ** What the retry loop sees *)

(** A [fetch] that does not end the retry loop: it throws, or answers with
    a status outside 200..299. *)
Definition failing (o : Sync.fetch_outcome) : bool :=
  match o with
  | Sync.fetch_throws => true
  | Sync.fetch_response status _ => negb (Sync.ok status)
  end.

Definition body_of (o : Sync.fetch_outcome) : option Sync.json_body :=
  match o with
  | Sync.fetch_throws => None
  | Sync.fetch_response _ b => Some b
  end.

(** The events of [k] failed attempts of the retry loop: a [fetch], then
    the wait, which doubles. *)
Fixpoint attempts (q : Sync.query) (k : nat) (delay : Z) : list Sync.event :=
  match k with
  | O => []
  | S k' => Sync.fetched q :: Sync.slept delay :: attempts q k' (delay * 2)
  end.

(** The number of records the run handed to [upsert_dob_permits]. *)
Definition upserted_records (tr : list Sync.event) : Z :=
  foldr (λ e n, match e with
                | Sync.upserted _rows => Z.of_nat (List.length _rows) + n
                | _ => n
                end) 0 tr.

(** An upstream whose first answer to a run is a thrown [fetch], whose
    second is a 404, and which then answers from [dataset]. *)
Definition flaky (dataset : list jsonb) : Sync.world :=
  {| Sync.env := Example.deployment; Sync.now := 0;
     Sync.fetch := λ n q,
       match n with
       | O => Sync.fetch_throws
       | S O => Sync.fetch_response 404 Sync.not_json
       | _ => Sync.fetch_response 200
                (Sync.array (Sync.socrata (pg := Example.server) dataset q))
       end;
     Sync.reaches := λ _, true |}.

(** An upstream that is down. *)
Definition down : Sync.world :=
  {| Sync.env := Example.deployment; Sync.now := 0;
     Sync.fetch := λ _ _, Sync.fetch_response 503 Sync.not_json;
     Sync.reaches := λ _, true |}.

(** The state of a run before its first page. *)
Definition idle (st : store) : Sync.state :=
  {| Sync.db := st; Sync.fetches := 0; Sync.calls := 0; Sync.trace := [];
     Sync.page := 0; Sync.totalProcessed := 0; Sync.totalInserted := 0;
     Sync.totalUpdated := 0; Sync.newestSeen := 0; Sync.maxUpdatedAt := None |}.

(** The store of scenario A after its tile of 2 January 2024 was asked
    for. *)
Definition cached_A : store :=
  (Tiles.serve (pg := Example.server) (gis := Example.gis) (js := Example.engine)
     Example.tiles_world Example.store_A
     (Example.get "/tiles/permits/1/0/0" (Some "2024-01-02"))).2.

(** ** The checks of the tile handler *)

Section validation.
Context `{js : JsEngine}.

(** The handler up to its first call to the store: the response that ends
    it there, or the tile and the date it goes on with. *)
Definition validate (w : Tiles.world) (req : Tiles.request)
  : response + (Z * Z * Z * string) :=
  if String.eqb (Tiles.method req) "OPTIONS" then inl Tiles.preflight
  else if negb (JS.truthy (SUPABASE_URL (Tiles.env w))
                && JS.truthy (SUPABASE_SERVICE_ROLE_KEY (Tiles.env w)))
  then inl (Tiles.server_error "Missing SUPABASE_URL or SUPABASE_SERVICE_ROLE_KEY")
  else
    let pathParts := JS.filter_Boolean (JS.split "/" (Tiles.pathname req)) in
    match JS.indexOf pathParts "tiles" with
    | None =>
        inl (Tiles.bad_request "Invalid path. Expected: /tiles/permits/{z}/{x}/{y}")
    | Some tilesIndex =>
        if (List.length pathParts <? tilesIndex + 5)%nat
           || negb (bool_decide (pathParts !! (tilesIndex + 1)%nat = Some "permits"))
        then inl (Tiles.bad_request "Invalid path. Expected: /tiles/permits/{z}/{x}/{y}")
        else
          match JS.parseInt (default "" (pathParts !! (tilesIndex + 2)%nat)) 10,
                JS.parseInt (default "" (pathParts !! (tilesIndex + 3)%nat)) 10,
                JS.parseInt (default "" (pathParts !! (tilesIndex + 4)%nat)) 10 with
          | Some z, Some x, Some y =>
              if (z <? 0) || (z >? 16)
              then inl (Tiles.bad_request "Zoom level must be between 0 and 16")
              else
                let maxCoord := 2 ^ z in
                if (x <? 0) || (x >=? maxCoord) || (y <? 0) || (y >=? maxCoord)
                then inl (Tiles.bad_request "Tile coordinates out of range")
                else
                  let dateStr := JS.or_else (Tiles.date_param req) (Tiles.today w) in
                  if negb (JS.dateRegex_test dateStr)
                  then inl (Tiles.bad_request "Invalid date format. Use YYYY-MM-DD")
                  else if negb (Date_valid (dateStr ++ "T00:00:00Z"))
                  then inl (Tiles.bad_request "Invalid date format. Use YYYY-MM-DD")
                  else inr (z, x, y, dateStr)
          | _, _, _ => inl (Tiles.bad_request "Invalid tile coordinates")
          end
    end.

End validation.

(** The key of the cache entry of a tile and a day. *)
Definition tile_key (z x y : Z) (day : date)
  : string * Z * Z * Z * date * date :=
  ("permits", z, x, y, day, day).

(** * Properties *)

(** ** Binary data on the wire *)

Lemma to_uint8_byte_to_hex (b : Byte.byte) :
  JS.to_uint8 (JS.parseInt (JS.byte_to_hex b) 16) = b.
Proof. destruct b; vm_compute; reflexivity. Qed.

Lemma byte_to_hex_shape (b : Byte.byte) :
  ∃ c1 c2, JS.byte_to_hex b = String c1 (String c2 "").
Proof. unfold JS.byte_to_hex. eauto. Qed.

Lemma append_two (c1 c2 : ascii) (s : string) :
  String c1 (String c2 "") ++ s = String c1 (String c2 s).
Proof. reflexivity. Qed.

Lemma hex_pairs_hex_of_bytes (bs : list Byte.byte) (fuel : nat) :
  (List.length bs ≤ fuel)%nat →
  JS.hex_pairs fuel (JS.hex_of_bytes bs) = bs.
Proof.
  revert fuel. induction bs as [|b bs IH]; intros fuel Hf.
  - destruct fuel; reflexivity.
  - destruct fuel as [|fuel]; [simpl in Hf; lia|].
    pose proof (to_uint8_byte_to_hex b) as Hb.
    destruct (byte_to_hex_shape b) as (c1 & c2 & Hs).
    change (JS.hex_of_bytes (b :: bs))
      with (JS.byte_to_hex b ++ JS.hex_of_bytes bs).
    rewrite Hs in *. rewrite append_two.
    change (JS.hex_pairs (S fuel) (String c1 (String c2 (JS.hex_of_bytes bs))))
      with (JS.to_uint8 (JS.parseInt (String c1 (String c2 "")) 16)
              :: JS.hex_pairs fuel (JS.hex_of_bytes bs)).
    rewrite Hb. f_equal.
    apply IH. simpl in Hf. lia.
Qed.

Lemma length_hex_of_bytes (bs : list Byte.byte) :
  String.length (JS.hex_of_bytes bs) = (2 * List.length bs)%nat.
Proof.
  induction bs as [|b bs IH]; [reflexivity|].
  destruct (byte_to_hex_shape b) as (c1 & c2 & Hs).
  change (JS.hex_of_bytes (b :: bs))
    with (JS.byte_to_hex b ++ JS.hex_of_bytes bs).
  rewrite Hs, append_two. cbn [String.length].
  rewrite IH. simpl. lia.
Qed.

(** What the handler decodes from the hex text of a [bytea] is the [bytea]. *)
Lemma hexToArrayBuffer_bytea_out (bs : list Byte.byte) :
  JS.hexToArrayBuffer (bytea_out bs) = bs.
Proof.
  unfold JS.hexToArrayBuffer, bytea_out. rewrite append_two.
  apply hex_pairs_hex_of_bytes. rewrite length_hex_of_bytes. lia.
Qed.

Lemma is_empty_bytea_out (bs : list Byte.byte) :
  Tiles.is_empty (Tiles.js_string (bytea_out bs)) = bool_decide (bs = []).
Proof.
  destruct bs as [|b bs]; [reflexivity|].
  unfold Tiles.is_empty, bytea_out.
  destruct (byte_to_hex_shape b) as (c1 & c2 & Hs).
  change (JS.hex_of_bytes (b :: bs))
    with (JS.byte_to_hex b ++ JS.hex_of_bytes bs).
  rewrite Hs, !append_two. reflexivity.
Qed.

Lemma truthy_bytea_out (bs : list Byte.byte) :
  Tiles.truthy (Tiles.js_string (bytea_out bs)) = true.
Proof. reflexivity. Qed.

(** ** Errors and lists *)

Lemma traverse_Ok {A B} (f : A → result B) (l : list A) (l' : list B) :
  traverse f l = Ok l' → Forall2 (λ a b, f a = Ok b) l l'.
Proof.
  revert l'. induction l as [|a l IH]; intros l' H.
  - inversion H. constructor.
  - cbn in H. destruct (f a) as [b|e] eqn:Hb; [|discriminate].
    cbn in H. destruct (traverse f l) as [bs|e]; [|discriminate].
    inversion H; subst. constructor; auto.
Qed.

Lemma traverse_Raise {A B} (f : A → result B) (l1 l2 : list A) (a : A) e :
  f a = Raise e → ∃ e', traverse f (l1 ++ a :: l2)%list = Raise e'.
Proof.
  intros Ha. induction l1 as [|b l1 [e' IH]]; cbn.
  - rewrite Ha. eauto.
  - destruct (f b); cbn; [rewrite IH|]; eauto.
Qed.

Lemma traverse_ext {A B} (f g : A → result B) (l : list A) :
  (∀ a, a ∈ l → f a = g a) → traverse f l = traverse g l.
Proof.
  induction l as [|a l IH]; intros H; [reflexivity|].
  cbn. rewrite (H a) by (left). rewrite IH; [reflexivity|].
  intros b Hb. apply H. now right.
Qed.

Lemma traverse_fmap {A B C} (h : A → B) (f : B → result C) (l : list A) :
  traverse f (h <$> l) = traverse (λ a, f (h a)) l.
Proof. induction l as [|a l IH]; [reflexivity|]. cbn. now rewrite IH. Qed.

(** ** The tile generator *)

Section tiles_sql.
Context `{pg : PgServer} `{gis : PostGIS}.

Lemma date_matches_Some (d : string) (p : Permits.row) :
  date_matches (Some d) p = Ok true →
  ∃ t, Permits.permit_issuance_date p = Some t
       ∧ date_in d = Some (timestamptz_to_date t).
Proof.
  unfold date_matches. destruct (Permits.permit_issuance_date p) as [t|];
    [|discriminate].
  cbn. destruct (date_in d) as [day|]; cbn; [|discriminate].
  intros H. inversion H as [Hb]. apply bool_decide_eq_true in Hb.
  inversion Hb; subst. eauto.
Qed.

(** Where a row of [src] comes from. *)
Lemma src_of_Some env date (kp : string * Permits.row) (s : src_row) :
  src_of env date kp = Ok (Some s) →
  src_id s = kp.1
  ∧ src_permit_type s = Permits.permit_type kp.2
  ∧ src_permit_status s = Permits.permit_status kp.2
  ∧ src_permit_issuance_date s = Permits.permit_issuance_date kp.2
  ∧ src_borough s = Permits.borough kp.2
  ∧ is_Some (Permits.geom_4326 kp.2)
  ∧ date_matches date kp.2 = Ok true.
Proof.
  destruct kp as [k p]. unfold src_of. cbn [fst snd].
  destruct (Permits.geom_4326 p) as [g|] eqn:Hg; [|discriminate].
  destruct (date_matches date p) as [m|e] eqn:Hm; cbn; [|discriminate].
  destruct m; cbn; [|discriminate].
  destruct (bbox_overlaps g _); cbn; [|discriminate].
  intros H. inversion H; subst. cbn.
  split_and!; try reflexivity. by eexists.
Qed.

Lemma src_spec (st : store) env date (rows : list src_row) :
  src st env date = Ok rows →
  ∀ s, s ∈ rows →
    ∃ p, dob_permits st !! src_id s = Some p
         ∧ src_permit_type s = Permits.permit_type p
         ∧ src_permit_status s = Permits.permit_status p
         ∧ src_permit_issuance_date s = Permits.permit_issuance_date p
         ∧ src_borough s = Permits.borough p
         ∧ is_Some (Permits.geom_4326 p)
         ∧ date_matches date p = Ok true.
Proof.
  unfold src. intros H s Hs.
  destruct (traverse _ _) as [os|e] eqn:Ht; [|discriminate].
  inversion H; subst. apply traverse_Ok in Ht.
  apply list_elem_of_omap in Hs as (o & Ho & Heq). cbn in Heq. subst o.
  apply list_elem_of_lookup in Ho as [i Hi].
  destruct (Forall2_lookup_r _ _ _ _ _ Ht Hi) as (kp & Hkp & Hsrc).
  apply src_of_Some in Hsrc as (Hid & H1 & H2 & H3 & H4 & H5 & H6).
  exists kp.2. rewrite Hid.
  apply list_elem_of_lookup_2 in Hkp.
  destruct kp as [k p]. apply elem_of_map_to_list in Hkp.
  cbn in *. auto 10.
Qed.

(** Every row of a tile is a permit of the store with a geometry, whose
    columns it carries, and which passed the date filter. *)
Lemma tile_rows_spec (st : store) (z x y : Z) date rows :
  tile_rows st z x y date = Ok rows →
  ∀ r, r ∈ rows →
    ∃ p, dob_permits st !! mvt_id r = Some p
         ∧ mvt_permit_type r = Permits.permit_type p
         ∧ mvt_permit_status r = Permits.permit_status p
         ∧ mvt_permit_issuance_date r = Permits.permit_issuance_date p
         ∧ mvt_borough r = Permits.borough p
         ∧ is_Some (Permits.geom_4326 p)
         ∧ date_matches date p = Ok true.
Proof.
  unfold tile_rows. destruct (ST_TileEnvelope z x y) as [env|]; [|discriminate].
  destruct (src st env date) as [srows|e] eqn:Hsrc; cbn; [|discriminate].
  intros H r Hr. inversion H; subst. unfold mvtgeom in Hr.
  apply list_elem_of_fmap in Hr as (s & -> & Hs).
  apply list_elem_of_In, filter_In in Hs as [Hs _].
  apply list_elem_of_In in Hs.
  destruct (src_spec _ _ _ _ Hsrc s Hs) as (p & ?). exists p. cbn. assumption.
Qed.

(** With a date, the tile holds only permits issued, and on that day. *)
Lemma tile_rows_dated (st : store) (z x y : Z) (d : string) rows :
  tile_rows st z x y (Some d) = Ok rows →
  ∀ r, r ∈ rows →
    ∃ p t, dob_permits st !! mvt_id r = Some p
           ∧ Permits.permit_issuance_date p = Some t
           ∧ mvt_permit_issuance_date r = Some t
           ∧ date_in d = Some (timestamptz_to_date t).
Proof.
  intros H r Hr.
  destruct (tile_rows_spec _ _ _ _ _ _ H r Hr) as (p & Hp & _ & _ & Hd & _ & _ & Hm).
  apply date_matches_Some in Hm as (t & Ht & Hday).
  exists p, t. rewrite Hd. auto.
Qed.

End tiles_sql.

(** ** The tile request handler *)

Section tiles_handler.
Context `{pg : PgServer} `{gis : PostGIS} `{js : JsEngine}.

(** The two ways a request ends: before any call to the store, or in the
    cache lookup with the coordinates and the date the handler parsed. *)
Lemma serve_cases (w : Tiles.world) (st : store) (req : Tiles.request) :
  (∃ resp, Tiles.serve w st req = (resp, [], st)
     ∧ (resp = Tiles.preflight ∨ ∃ msg, resp = Tiles.server_error msg
        ∨ resp = Tiles.bad_request msg)
     ∧ (Tiles.method req ≠ "OPTIONS" → Tiles.configured (Tiles.env w) = true →
        ∃ msg, resp = Tiles.bad_request msg))
  ∨ (∃ z x y, Tiles.zoom req = Some z ∧ Tiles.tile_x req = Some x
       ∧ Tiles.tile_y req = Some y
       ∧ 0 ≤ z ≤ 16 ∧ 0 ≤ x < 2 ^ z ∧ 0 ≤ y < 2 ^ z
       ∧ Tiles.method req ≠ "OPTIONS" ∧ Tiles.configured (Tiles.env w) = true
       ∧ JS.dateRegex_test (Tiles.dateStr w req) = true
       ∧ Tiles.serve w st req
         = Tiles.lookup_or_generate w st req z x y (Tiles.dateStr w req)).
Proof.
  unfold Tiles.serve, Tiles.zoom, Tiles.tile_x, Tiles.tile_y, Tiles.after_tiles,
    Tiles.pathParts, Tiles.configured.
  destruct (String.eqb (Tiles.method req) "OPTIONS") eqn:Hm.
  { left. eexists; split_and!; [reflexivity|auto|].
    intros Hne. apply String.eqb_eq in Hm. contradiction. }
  apply String.eqb_neq in Hm.
  destruct (JS.truthy (SUPABASE_URL (Tiles.env w))
            && JS.truthy (SUPABASE_SERVICE_ROLE_KEY (Tiles.env w))) eqn:Hc;
    cbn [negb].
  2: { left. eexists; split_and!; [reflexivity|eauto|]. intros _ Hx. discriminate. }
  destruct (JS.indexOf _ "tiles") as [i|] eqn:Hi.
  2: { left. eexists; split_and!; [reflexivity|eauto..]. }
  match goal with |- context [if ?c then _ else _] => destruct c eqn:Hlen end.
  { left. eexists; split_and!; [reflexivity|eauto..]. }
  destruct (JS.parseInt (default "" (_ !! (i + 2)%nat)) 10) as [z|] eqn:Hz.
  2: { left. eexists; split_and!; [reflexivity|eauto..]. }
  destruct (JS.parseInt (default "" (_ !! (i + 3)%nat)) 10) as [x|] eqn:Hx.
  2: { left. eexists; split_and!; [reflexivity|eauto..]. }
  destruct (JS.parseInt (default "" (_ !! (i + 4)%nat)) 10) as [y|] eqn:Hy.
  2: { left. eexists; split_and!; [reflexivity|eauto..]. }
  destruct ((z <? 0) || (z >? 16)) eqn:Hzr.
  { left. eexists; split_and!; [reflexivity|eauto..]. }
  cbv zeta.
  destruct ((x <? 0) || (x >=? 2 ^ z) || (y <? 0) || (y >=? 2 ^ z)) eqn:Hxy.
  { left. eexists; split_and!; [reflexivity|eauto..]. }
  destruct (JS.dateRegex_test (JS.or_else (Tiles.date_param req) (Tiles.today w)))
    eqn:Hre; cbn [negb].
  2: { left. eexists; split_and!; [reflexivity|eauto..]. }
  destruct (Date_valid _) eqn:Hdv; cbn [negb].
  2: { left. eexists; split_and!; [reflexivity|eauto..]. }
  right. exists z, x, y.
  repeat split; auto; lia.
Qed.

Lemma generate_calls (w : Tiles.world) (st : store) (req : Tiles.request)
    (z x y : Z) (d : string) resp calls st' :
  Tiles.generate w st req z x y d = (resp, calls, st') →
  ∀ c, c ∈ calls →
    c = Tiles.cache_select z x y d d ∨ c = Tiles.tile_rpc z x y (Some d)
    ∨ ∃ mvt, c = Tiles.cache_upsert z x y d d mvt.
Proof.
  unfold Tiles.generate. intros Hg c Hc.
  destruct (Tiles.rpc_dob_permit_tiles w st z x y (Some d)) as [data|e];
    [destruct (Tiles.is_empty data)|];
    inversion Hg; subst; clear Hg;
    rewrite ?elem_of_cons, elem_of_nil in Hc; intuition eauto.
Qed.

(** A run that called the generator is a run of the cache-miss branch. *)
Lemma serve_rpc (w : Tiles.world) (st : store) (req : Tiles.request)
    resp calls st' z x y date :
  Tiles.serve w st req = (resp, calls, st') →
  Tiles.tile_rpc z x y date ∈ calls →
  date = Some (Tiles.dateStr w req)
  ∧ Tiles.generate w st req z x y (Tiles.dateStr w req) = (resp, calls, st').
Proof.
  intros Hs Hin.
  destruct (serve_cases w st req) as [(r & Hr & _)|(z' & x' & y' & _ & _ & _ & _ & _ & _ & _ & _ & _ & Hl)].
  - rewrite Hr in Hs. inversion Hs; subst. by apply elem_of_nil in Hin.
  - rewrite Hl in Hs. unfold Tiles.lookup_or_generate in Hs.
    assert (Hgen : ∀ r c s, Tiles.generate w st req z' x' y' (Tiles.dateStr w req) = (r, c, s) →
              Tiles.tile_rpc z x y date ∈ c →
              z = z' ∧ x = x' ∧ y = y' ∧ date = Some (Tiles.dateStr w req)).
    { intros r c s Hg Hc.
      destruct (generate_calls _ _ _ _ _ _ _ _ _ _ Hg _ Hc) as [H|[H|[m H]]];
        inversion H; auto. }
    destruct (Tiles.select_cache w st z' x' y' _ _) as [mvt|e].
    + destruct (Tiles.truthy mvt).
      * inversion Hs; subst.
        apply elem_of_cons in Hin as [Hin|Hin]; [discriminate|].
        by apply elem_of_nil in Hin.
      * destruct (Hgen _ _ _ Hs Hin) as (-> & -> & -> & ->). auto.
    + destruct (Hgen _ _ _ Hs Hin) as (-> & -> & -> & ->). auto.
Qed.



Lemma respond_content (req : Tiles.request) (bs body : list Byte.byte) :
  content (Tiles.respond req bs) = Binary body → body = [] ∨ body = bs.
Proof.
  unfold Tiles.respond. destruct (_ =? _)%nat; cbn; [intros [= <-]; auto|].
  destruct (bool_decide _); cbn; [discriminate|]. intros [= <-]. auto.
Qed.

Lemma generator_dated (st : store) (z x y : Z) (d : string) bs :
  dob_permit_tiles st z x y (Some d) = Ok bs → Tiles.dated_tile bs.
Proof.
  unfold dob_permit_tiles.
  destruct (tile_rows st z x y (Some d)) as [rows|e] eqn:Hrows; [|discriminate].
  cbn. intros [= <-]. exists rows. split; [|reflexivity].
  apply Forall_forall. intros r Hr.
  destruct (tile_rows_dated _ _ _ _ _ _ Hrows r Hr) as (p & t & _ & _ & -> & _).
  by eexists.
Qed.

Lemma upsert_cache_dated (w : Tiles.world) (st : store) (z x y : Z)
    (since until : string) (bs : list Byte.byte) :
  (∀ bs, bytea_in (bytea_out bs) = Some bs) →
  Tiles.cache_dated st → Tiles.dated_tile bs →
  Tiles.cache_dated (Tiles.upsert_cache w st z x y since until (bytea_out bs)).
Proof.
  intros Hio Hinv Hbs. unfold Tiles.upsert_cache.
  destruct (Tiles.upsert_reaches w); [|exact Hinv].
  destruct (date_in since) as [s|]; [|exact Hinv].
  destruct (date_in until) as [u|]; [|exact Hinv].
  rewrite Hio. intros k row. cbn.
  destruct (decide (("permits", z, x, y, s, u) = k)) as [->|Hne].
  - rewrite lookup_insert_eq. by intros [= <-].
  - rewrite lookup_insert_ne by done. apply Hinv.
Qed.

(** The cache-hit and cache-miss branches serve, and store, only tiles of
    dated features. *)
Lemma lookup_or_generate_dated (w : Tiles.world) (st : store)
    (req : Tiles.request) (z x y : Z) (d : string) resp calls st' :
  (∀ bs, bytea_in (bytea_out bs) = Some bs) →
  Tiles.cache_dated st →
  Tiles.lookup_or_generate w st req z x y d = (resp, calls, st') →
  (∀ bs, content resp = Binary bs → bs = [] ∨ Tiles.dated_tile bs)
  ∧ Tiles.cache_dated st'.
Proof.
  intros Hio Hinv.
  assert (Hgen : Tiles.generate w st req z x y d = (resp, calls, st') →
    (∀ bs, content resp = Binary bs → bs = [] ∨ Tiles.dated_tile bs)
    ∧ Tiles.cache_dated st').
  { unfold Tiles.generate, Tiles.rpc_dob_permit_tiles.
    destruct (Tiles.rpc_reaches w).
    2: { intros Heq; inversion Heq; subst; clear Heq. split; [discriminate|assumption]. }
    destruct (dob_permit_tiles st z x y (Some d)) as [bs|e] eqn:Hbs;
      unfold mbind, result_bind, mret, result_ret.
    2: { intros Heq; inversion Heq; subst; clear Heq. split; [discriminate|assumption]. }
    apply generator_dated in Hbs.
    destruct (Tiles.is_empty (Tiles.js_string (bytea_out bs))).
    { intros Heq; inversion Heq; subst; clear Heq. split; [|assumption].
      cbn. intros ? [= <-]. auto. }
    cbn [Tiles.to_buffer Tiles.mvt_text]. rewrite hexToArrayBuffer_bytea_out.
    intros Heq; inversion Heq; subst; clear Heq. split.
    - intros body Hb. apply respond_content in Hb as [->| ->]; auto.
    - by apply upsert_cache_dated. }
  unfold Tiles.lookup_or_generate, Tiles.select_cache.
  destruct (Tiles.select_reaches w); [|exact Hgen].
  destruct (date_in d) as [s|]; [|exact Hgen].
  destruct (mvt_cache st !! _) as [row|] eqn:Hrow; [|exact Hgen].
  rewrite truthy_bytea_out. cbn [Tiles.to_buffer].
  rewrite hexToArrayBuffer_bytea_out.
  intros Heq; inversion Heq; subst; clear Heq. split; [|assumption].
  intros body Hb. apply respond_content in Hb as [->| ->]; eauto.
Qed.

(** C10.  Every call of the handler to the generator carries a date: the
    [date] parameter, or today's date when it is absent; the branch of the
    tile function without date filter is not reached.  With a date the
    tile holds only permits that have an issuance date.  Hence, the cache
    holding only tiles of dated features, every tile the handler serves is
    empty or a tile of dated features, and the cache still holds only
    such tiles afterwards. *)
Theorem date_filter_always_applied
    (w : Tiles.world) (st : store) (req : Tiles.request)
    (resp : response) (calls : list Tiles.call) (st' : store) :
  (∀ bs, bytea_in (bytea_out bs) = Some bs) →
  Tiles.cache_dated st →
  Tiles.serve w st req = (resp, calls, st') →
  (∀ z x y date, Tiles.tile_rpc z x y date ∈ calls →
     date = Some (JS.or_else (Tiles.date_param req) (Tiles.today w)))
  ∧ (∀ z x y d rows, tile_rows st z x y (Some d) = Ok rows →
     ∀ r, r ∈ rows →
       ∃ p t, dob_permits st !! mvt_id r = Some p
              ∧ Permits.permit_issuance_date p = Some t
              ∧ mvt_permit_issuance_date r = Some t)
  ∧ (∀ bs, content resp = Binary bs → bs = [] ∨ Tiles.dated_tile bs)
  ∧ Tiles.cache_dated st'.
Proof.
  intros Hio Hinv Hs. split_and!.
  - intros z x y date Hin.
    by destruct (serve_rpc _ _ _ _ _ _ _ _ _ _ Hs Hin) as [-> _].
  - intros z x y d rows Hrows r Hr.
    destruct (tile_rows_dated _ _ _ _ _ _ Hrows r Hr) as (p & t & ? & ? & ? & _).
    eauto.
  - intros bs Hbs.
    destruct (serve_cases w st req)
      as [(r & Hr & Hk & _)|(z & x & y & _ & _ & _ & _ & _ & _ & _ & _ & _ & Hl)].
    + rewrite Hr in Hs. inversion Hs; subst.
      destruct Hk as [->|[msg [->| ->]]]; discriminate.
    + rewrite Hl in Hs.
      by destruct (lookup_or_generate_dated _ _ _ _ _ _ _ _ _ _ Hio Hinv Hs) as [H _];
        apply H.
  - destruct (serve_cases w st req)
      as [(r & Hr & _)|(z & x & y & _ & _ & _ & _ & _ & _ & _ & _ & _ & Hl)].
    + rewrite Hr in Hs. by inversion Hs; subst.
    + rewrite Hl in Hs.
      by destruct (lookup_or_generate_dated _ _ _ _ _ _ _ _ _ _ Hio Hinv Hs).
Qed.

End tiles_handler.

(** ** The bulk upsert *)

Section upsert_rows.
Context {V : Type}.
Implicit Types (tbl : gmap string V) (rows : list (string * V)).

(** The rows a statement writes stand in front of the table it found. *)
Lemma upsert_rows_union tbl rows :
  upsert_rows tbl rows = upsert_rows ∅ rows ∪ tbl.
Proof.
  unfold upsert_rows. induction rows as [|kv rows IH] using rev_ind.
  - cbn. by rewrite (left_id_L ∅ (∪)).
  - rewrite !foldl_snoc, IH. apply insert_union_l.
Qed.

(** Upserting the same rows again changes nothing. *)
Lemma upsert_rows_idemp tbl rows :
  upsert_rows (upsert_rows tbl rows) rows = upsert_rows tbl rows.
Proof.
  rewrite (upsert_rows_union (upsert_rows tbl rows)), (upsert_rows_union tbl).
  by rewrite (assoc_L (∪)), (idemp_L (∪)).
Qed.

Lemma upsert_rows_lookup_Some tbl rows k v :
  upsert_rows tbl rows !! k = Some v → (k, v) ∈ rows ∨ tbl !! k = Some v.
Proof.
  unfold upsert_rows. induction rows as [|[k' v'] rows IH] using rev_ind.
  - auto.
  - rewrite foldl_snoc. cbn. destruct (decide (k' = k)) as [->|Hne].
    + rewrite lookup_insert_eq. intros [= ->]. left.
      apply elem_of_app. right. by left.
    + rewrite lookup_insert_ne by done. intros H.
      destruct (IH H) as [?|?]; [left|by right].
      apply elem_of_app. by left.
Qed.

Lemma upsert_rows_lookup_None tbl rows k :
  upsert_rows tbl rows !! k = None ↔ (k ∉ rows.*1) ∧ tbl !! k = None.
Proof.
  unfold upsert_rows. induction rows as [|[k' v'] rows IH] using rev_ind.
  - cbn. split; [intros ?; split; [apply not_elem_of_nil|done]|by intros [_ ?]].
  - rewrite foldl_snoc, fmap_app, not_elem_of_app. cbn.
    destruct (decide (k' = k)) as [->|Hne].
    + rewrite lookup_insert_eq. split; [done|].
      intros [[_ Hk] _]. exfalso. apply Hk. by left.
    + rewrite lookup_insert_ne by done. rewrite IH.
      split; [intros [? ?]|intros [[? ?] ?]]; split_and!; auto.
      intros Hk. apply list_elem_of_singleton in Hk. congruence.
Qed.
End upsert_rows.

Lemma populate_geom_idemp (p : Permits.row) :
  populate_geom_from_coords (populate_geom_from_coords p)
  = populate_geom_from_coords p.
Proof. reflexivity. Qed.

(** What the trigger computes. *)
Lemma populate_geom_valid (NEW : Permits.row) (lat lon : float8) :
  Permits.gis_latitude NEW = Some lat → Permits.gis_longitude NEW = Some lon →
  between lat (float8_of_Z (-90)) (float8_of_Z 90) = true →
  between lon (float8_of_Z (-180)) (float8_of_Z 180) = true →
  Permits.geom_4326 (populate_geom_from_coords NEW)
    = Some (ST_SetSRID (ST_Point lon lat) 4326)
  ∧ Permits.geom (populate_geom_from_coords NEW)
    = Some (Geography (ST_SetSRID (ST_Point lon lat) 4326)).
Proof.
  intros Hlat Hlon Hr1 Hr2. unfold populate_geom_from_coords. cbn.
  rewrite Hlat, Hlon, Hr1, Hr2. auto.
Qed.

Lemma populate_geom_invalid (NEW : Permits.row) :
  ¬ (∃ lat lon, Permits.gis_latitude NEW = Some lat
       ∧ Permits.gis_longitude NEW = Some lon
       ∧ between lat (float8_of_Z (-90)) (float8_of_Z 90) = true
       ∧ between lon (float8_of_Z (-180)) (float8_of_Z 180) = true) →
  Permits.geom_4326 (populate_geom_from_coords NEW) = None
  ∧ Permits.geom (populate_geom_from_coords NEW) = None.
Proof.
  intros Hn. unfold populate_geom_from_coords. cbn.
  destruct (Permits.gis_latitude NEW) as [lat|]; [|auto].
  destruct (Permits.gis_longitude NEW) as [lon|]; [|auto].
  destruct (between lat _ _) eqn:H1; [|auto].
  destruct (between lon _ _) eqn:H2; [|auto].
  exfalso. apply Hn. eauto 10.
Qed.

(** The insert succeeds exactly on rows with distinct ids; it writes them,
    through the trigger, over the old table, and counts as inserted those
    whose id the old table did not have. *)
Lemma permits_insert_Ok old rows written ins upd tbl i u :
  permits_insert old rows written ins upd = Ok (tbl, i, u) →
  NoDup rows.*1 ∧ (∀ id, id ∈ rows.*1 → written !! id = None)
  ∧ tbl = upsert_rows written (populated rows) ∪ old
  ∧ i = ins + count_new old rows ∧ u = upd + count_old old rows.
Proof.
  revert written ins upd.
  induction rows as [|[id NEW] rows IH]; intros written ins upd H.
  - cbn in H. inversion H; subst. unfold count_new, count_old. cbn.
    split_and!; [constructor|by intros ? ?%elem_of_nil|done|lia|lia].
  - cbn in H. destruct (written !! id) eqn:Hw; [discriminate|].
    assert (Hrec : ∃ ins' upd',
      permits_insert old rows (<[id:=populate_geom_from_coords NEW]> written) ins' upd'
        = Ok (tbl, i, u)
      ∧ ins' + count_new old rows = ins + count_new old ((id, NEW) :: rows)
      ∧ upd' + count_old old rows = upd + count_old old ((id, NEW) :: rows)).
    { unfold count_new, count_old. cbn [List.filter fst].
      destruct (old !! id) eqn:Ho.
      - exists ins, (upd + 1). split; [done|].
        rewrite bool_decide_eq_false_2 by done.
        rewrite bool_decide_eq_true_2 by done. cbn [List.length]. lia.
      - exists (ins + 1), upd. split; [done|].
        rewrite bool_decide_eq_true_2 by done.
        rewrite bool_decide_eq_false_2 by (intros [? ?]; done).
        cbn [List.length]. lia. }
    destruct Hrec as (ins' & upd' & Hrec & Hi & Hu).
    apply IH in Hrec as (Hnd & Hfresh & -> & -> & ->).
    assert (Hid : id ∉ rows.*1).
    { intros Hin. specialize (Hfresh _ Hin). by rewrite lookup_insert_eq in Hfresh. }
    split_and!; [by constructor| |done|lia|lia].
    intros id' [->|Hin]%elem_of_cons; [done|].
    specialize (Hfresh _ Hin). rewrite lookup_insert_ne in Hfresh; [done|].
    intros ->. done.
Qed.

Lemma permits_insert_NoDup old rows written ins upd :
  NoDup rows.*1 → (∀ id, id ∈ rows.*1 → written !! id = None) →
  ∃ tbl i u, permits_insert old rows written ins upd = Ok (tbl, i, u).
Proof.
  revert written ins upd.
  induction rows as [|[id NEW] rows IH]; intros written ins upd Hnd Hfresh.
  - cbn. eauto.
  - cbn. rewrite Hfresh by (by left). apply NoDup_cons in Hnd as [Hid Hnd].
    assert (Hf : ∀ id', id' ∈ rows.*1 →
              <[id:=populate_geom_from_coords NEW]> written !! id' = None).
    { intros id' Hin. rewrite lookup_insert_ne; [|by intros ->].
      apply Hfresh. by right. }
    destruct (old !! id); by apply IH.
Qed.

Section upsert.
Context `{pg : PgServer}.

(** What a successful call has done. *)
Lemma upsert_dob_permits_Ok (st : store) (_rows : list jsonb) res st' :
  upsert_dob_permits st _rows = Ok (res, st') →
  ∃ stg details_rows permit_rows,
    stage _rows = Ok stg
    ∧ permit_details_rows stg = Ok details_rows
    ∧ traverse permit_of stg = Ok permit_rows
    ∧ NoDup permit_rows.*1
    ∧ dob_buildings st' = upsert_rows (dob_buildings st) (buildings_rows stg)
    ∧ dob_permit_details st' = upsert_rows (dob_permit_details st) details_rows
    ∧ dob_entities st' = entities_upsert (dob_entities st) (entities_rows stg)
    ∧ dob_permits st' = upsert_rows ∅ (populated permit_rows) ∪ dob_permits st
    ∧ dataset_sync_state st' = dataset_sync_state st
    ∧ mvt_cache st' = mvt_cache st
    ∧ inserted res = count_new (dob_permits st) permit_rows
    ∧ updated res = count_old (dob_permits st) permit_rows
    ∧ max_updated res = max_timestamptz (omap Stage.updated_at stg).
Proof.
  unfold upsert_dob_permits.
  destruct (stage _rows) as [stg|e] eqn:Hs; [|discriminate]. cbn.
  destruct (permit_details_rows stg) as [details_rows|e] eqn:Hd; [|discriminate].
  cbn.
  destruct (traverse permit_of stg) as [permit_rows|e] eqn:Hp; [|discriminate].
  cbn.
  destruct (permits_insert _ _ _ _ _) as [[[tbl i] u]|e] eqn:Hins; [|discriminate].
  cbn. intros H. inversion H; subst; clear H.
  apply permits_insert_Ok in Hins as (Hnd & _ & -> & -> & ->).
  exists stg, details_rows, permit_rows. cbn. split_and!; auto; lia.
Qed.

(** When a call succeeds. *)
Lemma upsert_dob_permits_succeeds (st : store) (_rows : list jsonb)
    stg details_rows permit_rows :
  stage _rows = Ok stg →
  permit_details_rows stg = Ok details_rows →
  traverse permit_of stg = Ok permit_rows →
  NoDup permit_rows.*1 →
  ∃ res st', upsert_dob_permits st _rows = Ok (res, st').
Proof.
  intros Hs Hd Hp Hnd. unfold upsert_dob_permits. rewrite Hs. cbn.
  rewrite Hd. cbn. rewrite Hp. cbn.
  destruct (permits_insert_NoDup (dob_permits st) permit_rows ∅ 0 0 Hnd)
    as (tbl & i & u & ->); [intros; apply lookup_empty|].
  cbn. eauto.
Qed.

(** The call writes neither the sync state nor the tile cache, and leaves
    the rows of [dob_permits] as the trigger makes them. *)
Lemma upsert_dob_permits_geom (st : store) (_rows : list jsonb) res st' :
  geom_populated st →
  upsert_dob_permits st _rows = Ok (res, st') →
  geom_populated st'.
Proof.
  intros Hinv Hu.
  apply upsert_dob_permits_Ok in Hu
    as (stg & dr & pr & _ & _ & _ & _ & _ & _ & _ & Hp & _).
  intros id p. rewrite Hp, lookup_union_Some_raw.
  intros [Hw|[_ Ho]]; [|by apply (Hinv id)].
  apply upsert_rows_lookup_Some in Hw as [Hw|Hw]; [|by rewrite lookup_empty in Hw].
  unfold populated in Hw. apply list_elem_of_fmap in Hw as ([k NEW] & [= -> ->] & _).
  apply populate_geom_idemp.
Qed.

Lemma geom_populated_empty : geom_populated empty_store.
Proof. intros id p. cbn. by rewrite lookup_empty. Qed.

Lemma stage_row_empty_date (r : jsonb) (column : string) :
  date_in "" = None →
  column = "permit_status_date" ∨ column = "expiration_date"
    ∨ column = "job_start_date" →
  r ->> column = Some "" →
  ∃ e, stage_row r = Raise e.
Proof.
  intros Hin Hcol Hr. unfold stage_row.
  assert (Hc : cast date_in (r ->> column) = Raise invalid_text_representation).
  { rewrite Hr. cbn. by rewrite Hin. }
  destruct (cast timestamptz_in (r ->> ":updated_at"));
    cbn [mbind result_bind]; [|eauto].
  destruct Hcol as [->|[->| ->]].
  - rewrite Hc. cbn [mbind result_bind]. eauto.
  - destruct (cast date_in (r ->> "permit_status_date"));
      cbn [mbind result_bind]; [|eauto].
    rewrite Hc. cbn [mbind result_bind]. eauto.
  - destruct (cast date_in (r ->> "permit_status_date"));
      cbn [mbind result_bind]; [|eauto].
    destruct (cast date_in (r ->> "expiration_date"));
      cbn [mbind result_bind]; [|eauto].
    rewrite Hc. cbn [mbind result_bind]. eauto.
Qed.

(** C5 (where the code departs from it).  PostgreSQL reads no date in the
    empty text.  A record whose [expiration_date] is the empty string is
    therefore not stored with a null date: the cast in [stage] raises and
    the whole page is refused, whatever the other records are. *)
Theorem empty_expiration_date_fails_page
    (st : store) (before after : list jsonb) (r : jsonb) :
  date_in "" = None →
  r ->> "expiration_date" = Some "" →
  ∃ e, upsert_dob_permits st (before ++ r :: after)%list = Raise e.
Proof.
  intros Hin Hr.
  destruct (stage_row_empty_date r "expiration_date" Hin) as [e He]; auto.
  destruct (traverse_Raise stage_row before after r e He) as [e' He'].
  unfold upsert_dob_permits, stage. rewrite He'. cbn. eauto.
Qed.

(** The guarded casts do store null for an empty or missing text. *)
Lemma cast_nonempty_empty {A} (input : string → option A) (x : option string) :
  x = None ∨ x = Some "" → cast_nonempty input x = Ok None.
Proof. by intros [->| ->]. Qed.

(** A text that is not a date fails the guarded casts too. *)
Lemma cast_nonempty_malformed {A} (input : string → option A) (s : string) :
  s ≠ "" → input s = None →
  cast_nonempty input (Some s) = Raise invalid_text_representation.
Proof. intros Hs Hi. destruct s; [done|]. cbn. by rewrite Hi. Qed.

End upsert.

(** ** Geometry and tiles *)

Section geometry.
Context `{pg : PgServer} `{gis : PostGIS}.

(** C6.  In a store whose permits have passed the trigger (the empty store
    has, and the bulk upsert keeps it so), a permit with latitude in
    [-90,90] and longitude in [-180,180] has the point (longitude,
    latitude) as its geometry, and any other permit has none; the view of
    points and every tile hold only permits with a geometry. *)
Theorem geometry_derived (st : store) :
  geom_populated st →
  (∀ id p, dob_permits st !! id = Some p →
     (∀ lat lon,
        Permits.gis_latitude p = Some lat → Permits.gis_longitude p = Some lon →
        between lat (float8_of_Z (-90)) (float8_of_Z 90) = true →
        between lon (float8_of_Z (-180)) (float8_of_Z 180) = true →
        Permits.geom_4326 p = Some (ST_SetSRID (ST_Point lon lat) 4326)
        ∧ Permits.geom p = Some (Geography (ST_SetSRID (ST_Point lon lat) 4326)))
     ∧ (¬ (∃ lat lon, Permits.gis_latitude p = Some lat
             ∧ Permits.gis_longitude p = Some lon
             ∧ between lat (float8_of_Z (-90)) (float8_of_Z 90) = true
             ∧ between lon (float8_of_Z (-180)) (float8_of_Z 180) = true) →
        Permits.geom_4326 p = None ∧ Permits.geom p = None))
  ∧ (∀ id p, (id, p) ∈ v_dob_permits_pts st →
       dob_permits st !! id = Some p ∧ is_Some (Permits.geom p))
  ∧ (∀ z x y date rows, tile_rows st z x y date = Ok rows →
     ∀ r, r ∈ rows →
       ∃ p, dob_permits st !! mvt_id r = Some p
            ∧ is_Some (Permits.geom_4326 p) ∧ is_Some (Permits.geom p))
  ∧ (∀ _rows res st', upsert_dob_permits st _rows = Ok (res, st') →
     geom_populated st').
Proof.
  intros Hinv. split_and!.
  - intros id p Hp. specialize (Hinv id p Hp). split.
    + intros lat lon Hlat Hlon H1 H2. rewrite <- Hinv.
      by apply populate_geom_valid.
    + intros Hn. rewrite <- Hinv. by apply populate_geom_invalid.
  - intros id p Hin. unfold v_dob_permits_pts in Hin.
    apply list_elem_of_In, filter_In in Hin as [Hin Hg].
    apply list_elem_of_In, elem_of_map_to_list in Hin.
    split; [done|]. by apply bool_decide_eq_true in Hg.
  - intros z x y date rows Hrows r Hr.
    destruct (tile_rows_spec _ _ _ _ _ _ Hrows r Hr)
      as (p & Hp & _ & _ & _ & _ & Hg & _).
    exists p. split_and!; [done..|].
    specialize (Hinv _ p Hp). rewrite <- Hinv in Hg |- *.
    unfold populate_geom_from_coords in *. cbn in *.
    destruct Hg as [g ->]. by eexists.
  - intros _rows res st' Hu. by eapply upsert_dob_permits_geom.
Qed.


End geometry.

(** ** Entities *)

Section distinct.
Context {A K : Type} `{EqDecision K} (key : A → K).

Lemma distinct_from_elem_of seen l a :
  a ∈ distinct_from key seen l → a ∈ l ∧ key a ∉ seen.
Proof.
  revert seen. induction l as [|b l IH]; intros seen; cbn.
  - by intros ?%elem_of_nil.
  - destruct (decide (key b ∈ seen)) as [Hb|Hb].
    + intros [? ?]%IH. split; [by right|done].
    + intros [->|[? Hs]%IH]%elem_of_cons; [split; [by left|done]|].
      split; [by right|]. intros ?. apply Hs. by right.
Qed.

Lemma distinct_from_NoDup seen l : NoDup (key <$> distinct_from key seen l).
Proof.
  revert seen. induction l as [|b l IH]; intros seen; cbn; [constructor|].
  destruct (decide (key b ∈ seen)); [apply IH|].
  cbn. constructor; [|apply IH].
  intros (a & Ha & Hin)%list_elem_of_fmap.
  apply distinct_from_elem_of in Hin as [_ Hin]. apply Hin. rewrite Ha. by left.
Qed.

(** Every row has a representative: a kept row with its key, which is the
    row itself or stands before it. *)
Lemma distinct_from_first seen l c :
  c ∈ l → key c ∉ seen →
  ∃ e l1 l2, e ∈ distinct_from key seen l ∧ key e = key c
             ∧ l = (l1 ++ e :: l2)%list ∧ c ∈ e :: l2.
Proof.
  revert seen. induction l as [|b l IH]; intros seen Hc Hs.
  - by apply elem_of_nil in Hc.
  - cbn. destruct (decide (key b ∈ seen)) as [Hb|Hb].
    + apply elem_of_cons in Hc as [->|Hc]; [done|].
      destruct (IH seen Hc Hs) as (e & l1 & l2 & He & Hk & -> & Hin).
      exists e, (b :: l1), l2. auto.
    + destruct (decide (key b = key c)) as [Hbc|Hbc].
      * exists b, [], l. split_and!; [by left|done|done|].
        apply elem_of_cons in Hc as [->|Hc]; [by left|by right].
      * apply elem_of_cons in Hc as [->|Hc]; [done|].
        destruct (IH (key b :: seen) Hc) as (e & l1 & l2 & He & Hk & -> & Hin).
        { intros [?|?]%elem_of_cons; [congruence|done]. }
        exists e, (b :: l1), l2. split_and!; [by right|done|done|done].
Qed.

Lemma distinct_on_elem_of l a : a ∈ distinct_on key l → a ∈ l.
Proof. intros H. by apply distinct_from_elem_of in H as [? _]. Qed.

Lemma distinct_on_NoDup l : NoDup (key <$> distinct_on key l).
Proof. apply distinct_from_NoDup. Qed.

Lemma distinct_on_first l c :
  c ∈ l →
  ∃ e l1 l2, e ∈ distinct_on key l ∧ key e = key c
             ∧ l = (l1 ++ e :: l2)%list ∧ c ∈ e :: l2.
Proof. intros H. apply distinct_from_first; [done|apply not_elem_of_nil]. Qed.
End distinct.

Section entities.
Context `{pg : PgServer}.

Lemma entity_conflict_true (new old : Entities.row) :
  entity_conflict new old = true ↔
  unnamed new = false ∧ entity_key old = entity_key new.
Proof.
  unfold entity_conflict, unnamed, entity_key.
  destruct new as [t ? b ? ? ? ? ? ? ?], old as [t' ? b' ? ? ? ? ? ? ?]. cbn.
  destruct b as [b|].
  - rewrite andb_true_iff, String.eqb_eq, bool_decide_eq_true.
    rewrite bool_decide_eq_false. split.
    + intros [-> ->]. done.
    + intros [_ [= -> ->]]. done.
  - rewrite bool_decide_eq_false. split; [done|]. intros [H _]. by destruct H.
Qed.

Lemma entity_upsert_unnamed (new : Entities.row) (tbl : list Entities.row) :
  unnamed new = true → entity_upsert new tbl = (tbl ++ [new])%list.
Proof.
  intros Hn. induction tbl as [|old tbl IH]; [done|]. cbn.
  destruct (entity_conflict new old) eqn:Hc.
  - apply entity_conflict_true in Hc as [Hc _]. congruence.
  - by rewrite IH.
Qed.

Lemma entity_conflict_self (c : Entities.row) :
  unnamed c = false → entity_conflict c c = true.
Proof. intros. by apply entity_conflict_true. Qed.

Lemma settled_upsert (c : Entities.row) (tbl : list Entities.row) :
  unnamed c = false → settled c (entity_upsert c tbl).
Proof.
  intros Hn. unfold settled. induction tbl as [|r tbl IH]; cbn.
  - by rewrite entity_conflict_self.
  - destruct (entity_conflict c r) eqn:Hc; cbn.
    + by rewrite entity_conflict_self.
    + by rewrite Hc, IH.
Qed.

Lemma settled_other (c c' : Entities.row) (tbl : list Entities.row) :
  unnamed c = false → entity_key c' ≠ entity_key c →
  settled c tbl → settled c (entity_upsert c' tbl).
Proof.
  intros Hn Hk. unfold settled. induction tbl as [|r tbl IH]; cbn; [done|].
  assert (Hcc' : entity_conflict c c' = false).
  { apply not_true_iff_false. rewrite entity_conflict_true. intros [_ ?]. done. }
  destruct (entity_conflict c r) eqn:Hcr.
  - intros [= <-].
    assert (entity_conflict c' c = false) as ->.
    { apply not_true_iff_false. rewrite entity_conflict_true. intros [_ ?].
      by apply Hk. }
    cbn. by rewrite entity_conflict_self.
  - intros [= Hs]. destruct (entity_conflict c' r) eqn:Hc'r; cbn.
    + by rewrite Hcc', Hs.
    + by rewrite Hcr, IH.
Qed.

Lemma settled_app (c : Entities.row) (tbl l : list Entities.row) :
  settled c tbl → settled c (tbl ++ l).
Proof.
  unfold settled. induction tbl as [|r tbl IH]; cbn; [done|].
  destruct (entity_conflict c r).
  - by intros [= <-].
  - intros [= Hs]. by rewrite IH.
Qed.

Lemma settled_fold (c : Entities.row) (tbl rows : list Entities.row) :
  unnamed c = false → entity_key c ∉ entity_key <$> rows →
  settled c tbl → settled c (entities_upsert tbl rows).
Proof.
  intros Hn. revert tbl. induction rows as [|r rows IH]; intros tbl Hk Hs; [done|].
  cbn. apply IH.
  - intros ?. apply Hk. by right.
  - apply settled_other; [done| |done]. intros Heq. apply Hk. rewrite <- Heq. by left.
Qed.

(** After the upsert of rows with distinct keys, each of them that has a
    business name is in the table. *)
Lemma entities_upsert_settled (tbl rows : list Entities.row) (c : Entities.row) :
  NoDup (entity_key <$> rows) → c ∈ rows → unnamed c = false →
  settled c (entities_upsert tbl rows).
Proof.
  revert tbl. induction rows as [|r rows IH]; intros tbl Hnd Hc Hn.
  - by apply elem_of_nil in Hc.
  - cbn in Hnd. apply NoDup_cons in Hnd as [Hr Hnd]. cbn.
    apply elem_of_cons in Hc as [->|Hc].
    + apply settled_fold; [done..|]. by apply settled_upsert.
    + by apply IH.
Qed.

(** On a table that holds its named rows already, an upsert only adds the
    rows without business name. *)
Lemma entities_upsert_again (tbl rows : list Entities.row) :
  (∀ c, c ∈ rows → unnamed c = false → settled c tbl) →
  entities_upsert tbl rows = (tbl ++ List.filter unnamed rows)%list.
Proof.
  revert tbl. induction rows as [|r rows IH]; intros tbl Hs; cbn.
  - by rewrite app_nil_r.
  - destruct (unnamed r) eqn:Hr.
    + rewrite entity_upsert_unnamed by done. rewrite IH.
      * by rewrite <- app_assoc.
      * intros c Hc Hn. apply settled_app. apply Hs; [by right|done].
    + rewrite (Hs r) by (by left || done). apply IH.
      intros c Hc Hn. apply Hs; [by right|done].
Qed.

(** Applying the same rows twice: the second time adds the rows without
    business name again and changes nothing else. *)
Lemma entities_upsert_twice (tbl rows : list Entities.row) :
  NoDup (entity_key <$> rows) →
  entities_upsert (entities_upsert tbl rows) rows
  = (entities_upsert tbl rows ++ List.filter unnamed rows)%list.
Proof.
  intros Hnd. apply entities_upsert_again.
  intros c Hc Hn. by apply entities_upsert_settled.
Qed.

End entities.

(** ** Applying a page twice *)

Section twice.
Context `{pg : PgServer}.

Lemma traverse_length {A B} (f : A → result B) (l : list A) (l' : list B) :
  traverse f l = Ok l' → List.length l' = List.length l.
Proof. intros H%traverse_Ok. symmetry. by eapply Forall2_length. Qed.

Lemma populated_keys (rows : list (string * Permits.row)) :
  (populated rows).*1 = rows.*1.
Proof.
  unfold populated. rewrite <- list_fmap_compose.
  apply list_fmap_ext. by intros ? [? ?].
Qed.

Lemma count_after_upsert (old : gmap string Permits.row)
    (rows : list (string * Permits.row)) :
  let tbl := upsert_rows ∅ (populated rows) ∪ old in
  count_new tbl rows = 0 ∧ count_old tbl rows = Z.of_nat (List.length rows).
Proof.
  intros tbl.
  assert (Hall : ∀ kv, kv ∈ rows → is_Some (tbl !! kv.1)).
  { intros kv Hkv. unfold tbl.
    destruct (upsert_rows ∅ (populated rows) !! kv.1) as [p|] eqn:Hw.
    - exists p. apply lookup_union_Some_raw. by left.
    - apply upsert_rows_lookup_None in Hw as [Hw _]. exfalso. apply Hw.
      rewrite populated_keys. by apply list_elem_of_fmap_2. }
  unfold count_new, count_old. clearbody tbl.
  induction rows as [|kv rows IH]; [done|]. cbn [List.filter].
  destruct (Hall kv) as [p Hp]; [by left|].
  rewrite bool_decide_eq_false_2 by (by rewrite Hp).
  rewrite bool_decide_eq_true_2 by (by rewrite Hp).
  destruct IH as [IH1 IH2]; [intros; apply Hall; by right|].
  cbn [List.length]. split; [done|lia].
Qed.

(** C4, as the code has it.  A page that was applied can be applied again:
    the second application leaves buildings, permit details and permits
    as the first left them, and so every entity; it adds once more the
    page's entities without business name, which no unique index covers;
    it reports no row inserted and every record of the page updated, with
    the same maximum timestamp. *)
Theorem second_application
    (st st1 : store) (_rows : list jsonb) (res1 : upsert_result) :
  upsert_dob_permits st _rows = Ok (res1, st1) →
  ∃ res2 st2 stg,
    upsert_dob_permits st1 _rows = Ok (res2, st2)
    ∧ stage _rows = Ok stg
    ∧ dob_buildings st2 = dob_buildings st1
    ∧ dob_permit_details st2 = dob_permit_details st1
    ∧ dob_permits st2 = dob_permits st1
    ∧ dob_entities st2
      = (dob_entities st1 ++ List.filter unnamed (entities_rows stg))%list
    ∧ dataset_sync_state st2 = dataset_sync_state st1
    ∧ mvt_cache st2 = mvt_cache st1
    ∧ inserted res2 = 0
    ∧ updated res2 = Z.of_nat (List.length _rows)
    ∧ max_updated res2 = max_updated res1.
Proof.
  intros H1.
  apply upsert_dob_permits_Ok in H1
    as (stg & dr & pr & Hs & Hd & Hp & Hnd & Hb1 & Hd1 & He1 & Hp1 & Hy1 & Hc1
        & _ & _ & Hm1).
  destruct (upsert_dob_permits_succeeds st1 _rows stg dr pr Hs Hd Hp Hnd)
    as (res2 & st2 & H2).
  exists res2, st2, stg. split; [done|]. split; [done|].
  apply upsert_dob_permits_Ok in H2
    as (stg' & dr' & pr' & Hs' & Hd' & Hp' & _ & Hb2 & Hd2 & He2 & Hp2 & Hy2 & Hc2
        & Hi2 & Hu2 & Hm2).
  rewrite Hs in Hs'. injection Hs' as <-.
  rewrite Hd in Hd'. injection Hd' as <-.
  rewrite Hp in Hp'. injection Hp' as <-.
  destruct (count_after_upsert (dob_permits st) pr) as [Hn Ho].
  rewrite <- Hp1 in Hn, Ho.
  split_and!.
  - rewrite Hb2, Hb1. apply upsert_rows_idemp.
  - rewrite Hd2, Hd1. apply upsert_rows_idemp.
  - rewrite Hp2, Hp1. by rewrite (assoc_L (∪)), (idemp_L (∪)).
  - rewrite He2, He1. apply entities_upsert_twice.
    unfold entities_rows. apply distinct_on_NoDup.
  - done.
  - done.
  - by rewrite Hi2.
  - rewrite Hu2, Ho. rewrite (traverse_length _ _ _ Hp).
    unfold stage in Hs. by rewrite (traverse_length _ _ _ Hs).
  - by rewrite Hm2, Hm1.
Qed.

End twice.

(** ** Deduplication of entities *)

Section order.
Context `{pg : PgServer} `{!TextOrder}.

Lemma then_by_total (x y : option string) (n1 n2 : bool) :
  n1 = true ∨ n2 = true → then_by x y n1 = true ∨ then_by y x n2 = true.
Proof.
  intros Hn. destruct x as [a|], y as [b|]; cbn; auto.
  rewrite (String.eqb_sym b a). destruct (String.eqb a b); [done|].
  apply text_le_total.
Qed.

Lemma then_by_trans (x y z : option string) (n1 n2 n3 : bool) :
  (n1 = true → n2 = true → n3 = true) →
  then_by x y n1 = true → then_by y z n2 = true → then_by x z n3 = true.
Proof.
  intros Hn. destruct x as [a|], y as [b|], z as [c|]; cbn; auto; try done.
  destruct (String.eqb a b) eqn:Hab, (String.eqb b c) eqn:Hbc;
    rewrite ?String.eqb_eq, ?String.eqb_neq in *; subst.
  - rewrite String.eqb_refl. done.
  - apply String.eqb_neq in Hbc. rewrite Hbc. done.
  - apply String.eqb_neq in Hab. rewrite Hab. done.
  - intros H1 H2. destruct (String.eqb a c) eqn:Hac.
    + apply String.eqb_eq in Hac. subst.
      exfalso. apply Hab. by apply text_le_antisym.
    + by eapply text_le_trans.
Qed.

#[local] Instance entity_order_total : Total entity_order.
Proof.
  intros a b. unfold entity_order, entity_le.
  apply then_by_total.
  destruct (then_by_total (Entities.business_name a) (Entities.business_name b)
              (then_by (Entities.full_name a) (Entities.full_name b) true)
              (then_by (Entities.full_name b) (Entities.full_name a) true));
    auto.
  apply then_by_total. auto.
Qed.

#[local] Instance entity_order_trans : Transitive entity_order.
Proof.
  intros a b c. unfold entity_order, entity_le.
  apply then_by_trans. apply then_by_trans. apply then_by_trans. done.
Qed.

Lemma entity_order_refl (a : Entities.row) : entity_order a a.
Proof. by destruct (entity_order_total a a). Qed.

(** In the sorted list, the row kept for a key is not after any row with
    that key. *)
Lemma entities_rows_first (stg : list Stage.row) (c : Entities.row) :
  c ∈ entities_subquery stg → entity_named c = true →
  ∃ e, e ∈ entities_rows stg ∧ entity_key e = entity_key c
       ∧ entity_le e c = true.
Proof.
  intros Hc Hn. unfold entities_rows.
  set (L := merge_sort entity_order (List.filter entity_named (entities_subquery stg))).
  assert (HcL : c ∈ L).
  { unfold L. rewrite merge_sort_Permutation.
    apply list_elem_of_In, filter_In. split; [by apply list_elem_of_In|done]. }
  assert (Hsorted : StronglySorted entity_order L)
    by apply (StronglySorted_merge_sort _).
  destruct (distinct_on_first entity_key L c HcL)
    as (e & l1 & l2 & He & Hk & HL & Hin).
  exists e. split_and!; [done..|].
  rewrite HL in Hsorted. apply StronglySorted_app_1_r in Hsorted.
  apply StronglySorted_inv in Hsorted as [_ Hall].
  apply elem_of_cons in Hin as [->|Hin]; [apply entity_order_refl|].
  rewrite Forall_forall in Hall. by apply Hall.
Qed.

End order.

Section dedup.
Context `{pg : PgServer}.

Lemma entities_rows_elem_of (stg : list Stage.row) (e : Entities.row) :
  e ∈ entities_rows stg → e ∈ entities_subquery stg.
Proof.
  unfold entities_rows. intros H%distinct_on_elem_of.
  rewrite merge_sort_Permutation in H.
  by apply list_elem_of_In, filter_In in H as [?%list_elem_of_In _].
Qed.

Lemma NoDup_key_inj {A K} (key : A → K) (l : list A) (a b : A) :
  NoDup (key <$> l) → a ∈ l → b ∈ l → key a = key b → a = b.
Proof.
  induction l as [|x l IH]; intros Hnd Ha Hb Hk; [by apply elem_of_nil in Ha|].
  cbn in Hnd. apply NoDup_cons in Hnd as [Hx Hnd].
  apply elem_of_cons in Ha as [->|Ha], Hb as [->|Hb]; auto.
  - exfalso. apply Hx. rewrite Hk. by apply list_elem_of_fmap_2.
  - exfalso. apply Hx. rewrite <- Hk. by apply list_elem_of_fmap_2.
Qed.

Lemma unnamed_key (c : Entities.row) role b :
  entity_key c = (role, Some b) → unnamed c = false.
Proof.
  unfold entity_key, unnamed. intros [= _ ->]. by apply bool_decide_eq_false.
Qed.

Lemma rows_of_cons k r tbl :
  rows_of k (r :: tbl)
  = if bool_decide (entity_key r = k) then r :: rows_of k tbl else rows_of k tbl.
Proof. reflexivity. Qed.

Lemma entity_upsert_rows_of_same (c : Entities.row) (tbl : list Entities.row) :
  unnamed c = false →
  (List.length (rows_of (entity_key c) tbl) ≤ 1)%nat →
  rows_of (entity_key c) (entity_upsert c tbl) = [c].
Proof.
  intros Hn. induction tbl as [|r tbl IH]; intros Hlen.
  - cbn. by rewrite bool_decide_eq_true_2.
  - cbn [entity_upsert]. destruct (entity_conflict c r) eqn:Hc.
    + apply entity_conflict_true in Hc as [_ Hk].
      rewrite rows_of_cons, bool_decide_eq_true_2 in Hlen by done.
      rewrite rows_of_cons, bool_decide_eq_true_2 by done.
      destruct (rows_of (entity_key c) tbl); [done|cbn in Hlen; lia].
    + assert (entity_key r ≠ entity_key c).
      { intros Hk. apply not_true_iff_false in Hc. apply Hc.
        by apply entity_conflict_true. }
      rewrite rows_of_cons, bool_decide_eq_false_2 in Hlen by done.
      rewrite rows_of_cons, bool_decide_eq_false_2 by done. by apply IH.
Qed.

Lemma entity_upsert_rows_of_other (c : Entities.row) (tbl : list Entities.row) k :
  entity_key c ≠ k →
  rows_of k (entity_upsert c tbl) = rows_of k tbl.
Proof.
  intros Hk. induction tbl as [|r tbl IH].
  - cbn. by rewrite bool_decide_eq_false_2.
  - cbn [entity_upsert]. destruct (entity_conflict c r) eqn:Hc.
    + apply entity_conflict_true in Hc as [_ Hkr].
      rewrite !rows_of_cons, !bool_decide_eq_false_2; [done|congruence|done].
    + rewrite !rows_of_cons, IH. done.
Qed.

Lemma entities_upsert_cons (r : Entities.row) (rows tbl : list Entities.row) :
  entities_upsert tbl (r :: rows) = entities_upsert (entity_upsert r tbl) rows.
Proof. reflexivity. Qed.

Lemma entities_upsert_rows_of_other (rows tbl : list Entities.row) k :
  k ∉ entity_key <$> rows →
  rows_of k (entities_upsert tbl rows) = rows_of k tbl.
Proof.
  revert tbl. induction rows as [|r rows IH]; intros tbl Hk; [done|].
  rewrite entities_upsert_cons, IH by (intros ?; apply Hk; by right).
  apply entity_upsert_rows_of_other. intros ?. apply Hk. subst. by left.
Qed.

(** After the upsert the table has, for the key of a row upserted, that
    row and no other. *)
Lemma entities_upsert_rows_of (rows tbl : list Entities.row) (e : Entities.row) :
  NoDup (entity_key <$> rows) → e ∈ rows → unnamed e = false →
  (List.length (rows_of (entity_key e) tbl) ≤ 1)%nat →
  rows_of (entity_key e) (entities_upsert tbl rows) = [e].
Proof.
  revert tbl. induction rows as [|r rows IH]; intros tbl Hnd He Hn Hlen.
  - by apply elem_of_nil in He.
  - cbn in Hnd. apply NoDup_cons in Hnd as [Hr Hnd].
    rewrite entities_upsert_cons.
    apply elem_of_cons in He as [->|He].
    + rewrite entities_upsert_rows_of_other by done.
      by apply entity_upsert_rows_of_same.
    + apply IH; [done..|].
      rewrite entity_upsert_rows_of_other; [done|].
      intros Hk. apply Hr. rewrite Hk. by apply list_elem_of_fmap_2.
Qed.

Lemma entity_upsert_unique (c : Entities.row) (tbl : list Entities.row) :
  entities_unique tbl → entities_unique (entity_upsert c tbl).
Proof.
  intros Hu role b.
  destruct (decide (entity_key c = (role, Some b))) as [Hk|Hk].
  - rewrite <- Hk. rewrite entity_upsert_rows_of_same; [done| |].
    + by eapply unnamed_key.
    + rewrite Hk. apply Hu.
  - rewrite entity_upsert_rows_of_other by done. apply Hu.
Qed.

Lemma entities_upsert_unique (rows tbl : list Entities.row) :
  entities_unique tbl → entities_unique (entities_upsert tbl rows).
Proof.
  revert tbl. induction rows as [|r rows IH]; intros tbl Hu; [done|].
  rewrite entities_upsert_cons. apply IH. by apply entity_upsert_unique.
Qed.

Lemma entity_upsert_filter_unnamed (c : Entities.row) (tbl : list Entities.row) :
  List.filter unnamed (entity_upsert c tbl)
  = (List.filter unnamed tbl ++ List.filter unnamed [c])%list.
Proof.
  induction tbl as [|r tbl IH]; [done|].
  cbn [entity_upsert]. destruct (entity_conflict c r) eqn:Hc.
  - apply entity_conflict_true in Hc as [Hn Hk].
    assert (unnamed r = false) as Hr.
    { unfold unnamed, entity_key in *. apply bool_decide_eq_false.
      apply bool_decide_eq_false in Hn. injection Hk as _ Hb. congruence. }
    cbn. rewrite Hn, Hr. by rewrite app_nil_r.
  - cbn [List.filter]. rewrite IH. by destruct (unnamed r).
Qed.

Lemma entities_upsert_filter_unnamed (rows tbl : list Entities.row) :
  List.filter unnamed (entities_upsert tbl rows)
  = (List.filter unnamed tbl ++ List.filter unnamed rows)%list.
Proof.
  revert tbl. induction rows as [|r rows IH]; intros tbl.
  - cbn. by rewrite app_nil_r.
  - rewrite entities_upsert_cons.
    rewrite IH, entity_upsert_filter_unnamed, <- app_assoc. f_equal.
    cbn. by destruct (unnamed r).
Qed.


End dedup.

(** ** The ingestion run *)

Section sync.
Context `{pg : PgServer}.

(** Every page request asks for the records after the rolling watermark
    (and up to [until]), oldest first. *)
Lemma page_query_shape (w : Sync.world) (req : Sync.request) (s : Sync.state) :
  Sync.order (Sync.page_query w req s) = Some ":updated_at ASC"
  ∧ Sync.where_after (Sync.page_query w req s) = Some (Sync.newestSeen s)
  ∧ Sync.where_until (Sync.page_query w req s) = Sync.untilParam req
  ∧ Sync.limit (Sync.page_query w req s) = Sync.PAGE_SIZE
  ∧ Sync.offset (Sync.page_query w req s) = (Sync.page s * Sync.PAGE_SIZE)%nat.
Proof. done. Qed.

Lemma post_unchanged lb w req before out s :
  dataset_sync_state (Sync.db s) = before → succeeded out = false ∨ True →
  post lb w req before out s.
Proof. intros H _. split_and!; [done|done|by left]. Qed.

Lemma finish_post lb w req mode s r s' :
  rolling lb s →
  Sync.finish w req mode s = (r, s') →
  post lb w req (dataset_sync_state (Sync.db s)) (Sync.responded r) s'.
Proof.
  intros [_ Hmax]. unfold Sync.finish.
  destruct (Sync.sinceParam req) as [since|] eqn:Hsince.
  { intros [= <- <-]. by apply post_unchanged; auto. }
  destruct (Sync.untilParam req) as [until|] eqn:Huntil.
  { intros [= <- <-]. by apply post_unchanged; auto. }
  destruct (bool_decide (is_Some (Sync.maxUpdatedAt s)) || String.eqb mode "historical")
    eqn:Hcond.
  2: { intros [= <- <-]. by apply post_unchanged; auto. }
  destruct (Sync.reaches w (Sync.calls s)).
  2: { intros [= <- <-]. by apply post_unchanged; auto. }
  intros [= <- <-]. split_and!; [done|by intros [?|?]|].
  right. cbn.
  exists (default (Sync.now w) (Sync.maxUpdatedAt s)), mode,
    (Sync.totalProcessed s), (Sync.totalInserted s), (Sync.totalUpdated s),
    (Sync.maxUpdatedAt s).
  split_and!; [done..|].
  destruct (Sync.maxUpdatedAt s) as [v|] eqn:Hv; cbn.
  - left. split; [done|]. by apply Hmax.
  - right. cbn in Hcond. apply String.eqb_eq in Hcond. done.
Qed.

Lemma rpc_upsert_frame w s records r s' :
  Sync.rpc_upsert_dob_permits w s records = (r, s') →
  dataset_sync_state (Sync.db s') = dataset_sync_state (Sync.db s)
  ∧ Sync.newestSeen s' = Sync.newestSeen s
  ∧ Sync.maxUpdatedAt s' = Sync.maxUpdatedAt s.
Proof.
  unfold Sync.rpc_upsert_dob_permits.
  destruct (Sync.reaches w (Sync.calls s)); [|by intros [= <- <-]].
  destruct (upsert_dob_permits (Sync.db s) records) as [[res st']|e] eqn:Hu;
    [|by intros [= <- <-]].
  intros [= <- <-]. cbn.
  apply upsert_dob_permits_Ok in Hu
    as (? & ? & ? & _ & _ & _ & _ & _ & _ & _ & _ & Hs & _).
  done.
Qed.

Lemma account_rolling lb s records res :
  rolling lb s → rolling lb (Sync.account s records res).
Proof.
  intros [Hlb Hmax]. unfold rolling, Sync.account. cbn.
  destruct (max_updated res) as [m|]; cbn; [|done].
  destruct (m >? Sync.newestSeen s) eqn:Hm; [|done].
  apply Z.gtb_lt in Hm. split; [lia|]. intros v [= <-]. lia.
Qed.

(** The loop writes the sync state at its end only. *)
Lemma paginate_post lb fuel w req mode s out s' :
  rolling lb s →
  Sync.paginate fuel w req mode s = (out, s') →
  post lb w req (dataset_sync_state (Sync.db s)) out s'.
Proof.
  revert s. induction fuel as [|fuel IH]; intros s Hroll; cbn [Sync.paginate].
  { intros [= <- <-]. by apply post_unchanged; auto. }
  destruct (Sync.fetch_retrying _ _ _ _ _ _) as [[body n] tr].
  set (s1 := Sync.with_fetches s n tr).
  assert (Hr1 : rolling lb s1) by done.
  change (dataset_sync_state (Sync.db s)) with (dataset_sync_state (Sync.db s1)).
  clearbody s1. clear Hroll.
  destruct body as [[| |records]|].
  - intros [= <- <-]. by apply post_unchanged; auto.
  - destruct (Sync.finish w req mode s1) as [r s2] eqn:Hf.
    intros [= <- <-]. by eapply finish_post.
  - destruct records as [|r0 records].
    { destruct (Sync.finish w req mode s1) as [r s2] eqn:Hf.
      intros [= <- <-]. by eapply finish_post. }
    destruct (Sync.rpc_upsert_dob_permits w s1 (r0 :: records)) as [[res|e] s2] eqn:Hu;
      apply rpc_upsert_frame in Hu as (Hdb & Hn & Hm).
    2: { intros [= <- <-]. rewrite <- Hdb. by apply post_unchanged; auto. }
    assert (Hr2 : rolling lb s2).
    { destruct Hr1 as [? ?]. split; [by rewrite Hn|by rewrite Hm]. }
    rewrite <- Hdb.
    pose proof (account_rolling lb s2 (r0 :: records) res Hr2) as Hr3.
    change (dataset_sync_state (Sync.db s2))
      with (dataset_sync_state (Sync.db (Sync.account s2 (r0 :: records) res))).
    destruct (_ <? _)%nat.
    + destruct (Sync.finish w req mode _) as [r s3] eqn:Hf.
      intros [= <- <-]. by eapply finish_post.
    + intros Hp.
      exact (IH (Sync.next_page (Sync.account s2 (r0 :: records) res)) Hr3 Hp).
  - intros [= <- <-]. by apply post_unchanged; auto.
Qed.

Lemma run_post fuel w st req out s :
  Sync.run fuel w st req = (out, s) →
  post (Sync.starting_point st req) w req (dataset_sync_state st) out s.
Proof.
  unfold Sync.run, Sync.starting_point.
  destruct (negb _). { intros [= <- <-]. by apply post_unchanged; auto. }
  set (mode := JS.or_else (Sync.mode_param req) "incremental").
  assert (Hstart : ∀ wm s0 out s,
    dataset_sync_state (Sync.db s0) = dataset_sync_state st →
    Sync.paginate fuel w req mode
      {| Sync.db := Sync.db s0; Sync.fetches := Sync.fetches s0;
         Sync.calls := Sync.calls s0; Sync.trace := Sync.trace s0;
         Sync.page := 0; Sync.totalProcessed := 0; Sync.totalInserted := 0;
         Sync.totalUpdated := 0;
         Sync.newestSeen := default 0 wm;
         Sync.maxUpdatedAt := None |} = (out, s) →
    post (default 0 wm) w req (dataset_sync_state st) out s).
  { intros wm s0 out' s'' Hdb H.
    apply (paginate_post (default 0 wm)) in H.
    - cbn in H. by rewrite Hdb in H.
    - split; cbn; [lia|done]. }
  destruct (Sync.sinceParam req) as [since|] eqn:Hsince.
  { apply (Hstart (Some since)). done. }
  destruct (String.eqb mode "incremental") eqn:Hmode.
  2: { destruct (Sync.untilParam req); apply (Hstart None); done. }
  destruct (Sync.reaches w _).
  2: { intros [= <- <-]. by apply post_unchanged; auto. }
  cbv iota beta.
  destruct (Sync.untilParam req) as [until|] eqn:Huntil.
  { by apply (Hstart (Some (current_dob_watermark st))). }
  destruct (Sync.fetch w _ _) as [|status b].
  { intros [= <- <-]. by apply post_unchanged; auto. }
  destruct (Sync.ok status);
    [|by apply (Hstart (Some (current_dob_watermark st)))].
  destruct b as [| |[|first rest]];
    try (intros [= <- <-]; by apply post_unchanged; auto).
  destruct (Sync.jvalue_truthy _);
    [by apply (Hstart (Some (current_dob_watermark st)))|].
  intros [= <- <-]. by apply post_unchanged; auto.
Qed.


End sync.

(** ** The example server respects what the properties assume *)

Lemma ascii_compare_refl (a : ascii) : Ascii.compare a a = Eq.
Proof. unfold Ascii.compare. apply N.compare_refl. Qed.

Lemma ascii_compare_lt_trans (a b c : ascii) :
  Ascii.compare a b = Lt → Ascii.compare b c = Lt → Ascii.compare a c = Lt.
Proof.
  unfold Ascii.compare. rewrite !N.compare_lt_iff. apply N.lt_trans.
Qed.

Lemma string_leb_trans (a b c : string) :
  String.leb a b = true → String.leb b c = true → String.leb a c = true.
Proof.
  unfold String.leb. revert b c.
  induction a as [|a0 a IH]; intros [|b0 b] [|c0 c]; cbn; try done.
  destruct (Ascii.compare a0 b0) eqn:E1; [| |done];
    destruct (Ascii.compare b0 c0) eqn:E2; try done.
  - apply Ascii.compare_eq_iff in E1, E2. subst.
    rewrite ascii_compare_refl. apply IH.
  - apply Ascii.compare_eq_iff in E1. subst. by rewrite E2.
  - apply Ascii.compare_eq_iff in E2. subst. by rewrite E1.
  - by rewrite (ascii_compare_lt_trans _ _ _ E1 E2).
Qed.

Lemma example_text_order : TextOrder (pg := Example.server).
Proof.
  split; cbn.
  - apply String.leb_total.
  - apply string_leb_trans.
  - apply String.leb_antisym.
Qed.

Lemma hex_byte_read (b : Byte.byte) :
  ∃ c1 c2 x y, JS.byte_to_hex b = String c1 (String c2 "")
    ∧ Example.hex_value c1 = Some x ∧ Example.hex_value c2 = Some y
    ∧ JS.to_uint8 (Some (16 * x + y)) = b.
Proof. destruct b; do 4 eexists; split_and!; reflexivity. Qed.

Lemma hex_bytes_hex_of_bytes (bs : list Byte.byte) (fuel : nat) :
  (List.length bs ≤ fuel)%nat →
  Example.hex_bytes fuel (JS.hex_of_bytes bs) = Some bs.
Proof.
  revert fuel. induction bs as [|b bs IH]; intros fuel Hf.
  - by destruct fuel.
  - destruct fuel as [|fuel]; [cbn in Hf; lia|].
    destruct (hex_byte_read b) as (c1 & c2 & x & y & Hs & Hx & Hy & Hb).
    change (JS.hex_of_bytes (b :: bs))
      with (JS.byte_to_hex b ++ JS.hex_of_bytes bs).
    rewrite Hs, append_two. cbn [Example.hex_bytes].
    rewrite Hx, Hy. cbn [mbind option_bind].
    rewrite IH by (cbn in Hf; lia). cbn. by rewrite Hb.
Qed.

(** The example server reads back the [bytea] it prints. *)
Lemma example_bytea_in_out (bs : list Byte.byte) :
  bytea_in (PgServer := Example.server) (bytea_out bs) = Some bs.
Proof.
  cbn. unfold Example.hex_bytea, bytea_out. rewrite append_two.
  apply hex_bytes_hex_of_bytes. rewrite length_hex_of_bytes. lia.
Qed.

(** ** The properties on the examples *)

Section examples.
#[local] Existing Instance Example.server.
#[local] Existing Instance Example.gis.
#[local] Existing Instance Example.engine.

Lemma triple_eta {A B C} (t : A * B * C) : t = (t.1.1, t.1.2, t.2).
Proof. by destruct t as [[? ?] ?]. Defined.



Lemma store_A_applied :
  ∃ res, upsert_dob_permits empty_store [Example.p1] = Ok (res, Example.store_A).
Proof.
  unfold Example.store_A.
  destruct (upsert_dob_permits empty_store [Example.p1]) as [[res st]|e] eqn:H;
    [by exists res|].
  vm_compute in H. discriminate H.
Defined.

Lemma store_A_populated : geom_populated Example.store_A.
Proof.
  destruct store_A_applied as [res H].
  exact (upsert_dob_permits_geom empty_store [Example.p1] res Example.store_A
           geom_populated_empty H).
Defined.

Lemma store_A_cache_dated : Tiles.cache_dated Example.store_A.
Proof.
  destruct store_A_applied as [res H].
  apply upsert_dob_permits_Ok in H
    as (? & ? & ? & _ & _ & _ & _ & _ & _ & _ & _ & _ & Hc & _).
  intros k row. rewrite Hc. cbn. by rewrite lookup_empty.
Defined.

(** Scenario A: after the upsert, permit P1 has the point (-73.9, 40.7). *)
Lemma geometry_derived_witness :
  geom_populated Example.store_A
  ∧ ∃ p lat lon,
      dob_permits Example.store_A !! "P1" = Some p
      ∧ Permits.gis_latitude p = Some lat ∧ Permits.gis_longitude p = Some lon
      ∧ Permits.geom_4326 p = Some (ST_SetSRID (ST_Point lon lat) 4326).
Proof.
  split; [exact store_A_populated|].
  destruct (geometry_derived Example.store_A store_A_populated) as (Hg & _).
  destruct (dob_permits Example.store_A !! "P1") as [p|] eqn:Hp;
    [|vm_compute in Hp; discriminate Hp].
  pose proof Hp as Hp'. vm_compute in Hp'. injection Hp' as Hp'.
  destruct (Hg "P1" p Hp) as [Hvalid _]. subst p.
  eexists _, _, _. split_and!; [exact Hp|reflexivity|reflexivity|].
  apply Hvalid; reflexivity.
Defined.

Lemma date_filter_always_applied_witness :
  let req := Example.get "/tiles/permits/1/0/0" None in
  let out := Tiles.serve Example.tiles_world Example.store_A req in
  (∀ bs, bytea_in (bytea_out bs) = Some bs)
  ∧ Tiles.cache_dated Example.store_A
  ∧ Tiles.tile_rpc 1 0 0 (Some "2024-01-02") ∈ out.1.2
  ∧ (∀ z x y date, Tiles.tile_rpc z x y date ∈ out.1.2 → date = Some "2024-01-02")
  ∧ (∀ bs, content out.1.1 = Binary bs → bs = [] ∨ Tiles.dated_tile bs)
  ∧ Tiles.cache_dated out.2.
Proof.
  intros req out.
  destruct (date_filter_always_applied Example.tiles_world Example.store_A req
              out.1.1 out.1.2 out.2 example_bytea_in_out store_A_cache_dated
              (triple_eta out)) as (H1 & _ & H3 & H4).
  split_and!; [exact example_bytea_in_out|exact store_A_cache_dated| |exact H1|exact H3|exact H4].
  vm_compute. apply list_elem_of_In. right. left. reflexivity.
Defined.


Lemma empty_expiration_date_fails_page_witness :
  date_in "" = None
  ∧ Example.undated ->> "expiration_date" = Some ""
  ∧ ∃ e, upsert_dob_permits empty_store [Example.p1; Example.undated] = Raise e.
Proof.
  split_and!; [reflexivity|reflexivity|].
  apply (empty_expiration_date_fails_page empty_store [Example.p1] [] Example.undated);
    reflexivity.
Defined.


(** Two owners without business name in one page: [distinct on] keeps one
    of them, the two [NULL]s not being distinct. *)
Lemma unnamed_owners_collapsed :
  match upsert_dob_permits empty_store [Example.ann; Example.bob] with
  | Ok (_, st') =>
      (λ e, (entity_key e, Entities.full_name e)) <$> dob_entities st'
      = [("owner", None, Some "Ann")]
  | Raise _ => False
  end.
Proof. vm_compute. reflexivity. Qed.


(** A page with an owner without business name, applied twice: the second
    application adds the owner again. *)
Lemma second_application_adds_entity :
  match upsert_dob_permits empty_store [Example.ann] with
  | Ok (_, st1) =>
      match upsert_dob_permits st1 [Example.ann] with
      | Ok (_, st2) =>
          List.length (dob_entities st1) = 1%nat
          ∧ List.length (dob_entities st2) = 2%nat
          ∧ st2 ≠ st1
      | Raise _ => False
      end
  | Raise _ => False
  end.
Proof. vm_compute. split_and!; [reflexivity..|]. intros H. discriminate H. Qed.

Lemma second_application_witness :
  ∃ res1 st1 res2 st2,
    upsert_dob_permits empty_store [Example.ann] = Ok (res1, st1)
    ∧ upsert_dob_permits st1 [Example.ann] = Ok (res2, st2)
    ∧ dob_permits st2 = dob_permits st1
    ∧ inserted res2 = 0 ∧ updated res2 = 1.
Proof.
  destruct (upsert_dob_permits empty_store [Example.ann])
    as [[res1 st1]|e] eqn:Hu; [|vm_compute in Hu; discriminate Hu].
  destruct (second_application empty_store st1 [Example.ann] res1 Hu)
    as (res2 & st2 & stg & H2 & _ & _ & _ & Hp & _ & _ & _ & Hi & Hup & _).
  exists res1, st1, res2, st2. split_and!; [reflexivity|exact H2|exact Hp|exact Hi|exact Hup].
Defined.



(** C1 (where the code departs from it).  A historical run against an
    upstream that holds 5001 records, one per second, all above the
    epoch, and that answers every request.  The first page request asks
    for the records after the epoch from offset 0 and gets 5000; the
    second asks for those after the newest of them, from offset 5000, and
    gets none of the one record left.  The run ends with success having
    applied 5000 records; the last record of the upstream dataset, in the
    range of the run, is in no page and not in the store. *)
Theorem record_skipped :
  let upstream := Example.dataset 5001 in
  let w := Sync.steady Example.deployment 1704200000000000 upstream in
  let r := Sync.run 5 w empty_store Example.historical in
  let last := upstream !! 5000%nat in
  (last ≫= (λ rec, rec ->> ":id"),
   last ≫= Sync.updated_at_of,
   r.1,
   Sync.page_requests (Sync.trace r.2),
   size (dob_permits (Sync.db r.2)),
   dob_permits (Sync.db r.2) !! "row-5000" ≫= λ _, Some tt,
   dob_permits (Sync.db r.2) !! "row-5001" ≫= λ _, Some tt)
  = (Some "row-5001",
     Some 1704072201000000,
     Sync.responded
       (Sync.synced "historical" 5000 5000 0 (Some 1704072200000000) None),
     [(0%nat, Some 0); (5000%nat, Some 1704072200000000)],
     5000%nat,
     Some tt,
     None).
Proof. vm_compute. reflexivity. Qed.

End examples.

(** * Further properties *)

(** ** The bulk upsert, record by record *)

Section upsert_records.
Context `{pg : PgServer}.

Lemma stage_row_Ok (r : jsonb) (s : Stage.row) :
  stage_row r = Ok s →
  Stage.id s = r ->> ":id" ∧ Stage.raw s = r
  ∧ cast timestamptz_in (r ->> ":updated_at") = Ok (Stage.updated_at s).
Proof.
  unfold stage_row.
  destruct (cast timestamptz_in (r ->> ":updated_at")) as [u|];
    cbn [mbind result_bind]; [|discriminate].
  destruct (cast date_in (r ->> "permit_status_date"));
    cbn [mbind result_bind]; [|discriminate].
  destruct (cast date_in (r ->> "expiration_date"));
    cbn [mbind result_bind]; [|discriminate].
  destruct (cast date_in (r ->> "job_start_date"));
    cbn [mbind result_bind]; [|discriminate].
  destruct (cast float8_in (r ->> "gis_latitude"));
    cbn [mbind result_bind]; [|discriminate].
  destruct (cast float8_in (r ->> "gis_longitude"));
    cbn [mbind result_bind]; [|discriminate].
  intros H. inversion H; subst. done.
Qed.

Lemma permit_of_Ok (s : Stage.row) (id : string) (p : Permits.row) :
  permit_of s = Ok (id, p) →
  Stage.id s = Some id ∧ Stage.updated_at s = Some (Permits.updated_at p)
  ∧ Permits.raw p = Stage.raw s.
Proof.
  unfold permit_of.
  destruct (cast_nonempty timestamptz_in (Stage.permit_issuance_date_str s));
    cbn [mbind result_bind]; [|discriminate].
  destruct (cast_nonempty timestamptz_in (Stage.dobrundate_str s));
    cbn [mbind result_bind]; [|discriminate].
  destruct (Stage.id s); cbn [not_null mbind result_bind]; [|discriminate].
  destruct (Stage.updated_at s); cbn [not_null mbind result_bind]; [|discriminate].
  intros H. inversion H; subst. done.
Qed.

(** The instant the store reads in a record. *)
Lemma cast_updated_at (r : jsonb) (t : timestamptz) :
  cast timestamptz_in (r ->> ":updated_at") = Ok (Some t) →
  Sync.updated_at_of r = Some t.
Proof.
  unfold Sync.updated_at_of, cast.
  destruct (r ->> ":updated_at") as [txt|]; [|discriminate]. cbn.
  destruct (timestamptz_in txt); [|discriminate]. by intros [= ->].
Qed.

(** A record of a page through [stage] and the select list of
    [permits_upsert]. *)
Lemma page_record (_rows : list jsonb) stg permit_rows (i : nat) (r : jsonb) :
  stage _rows = Ok stg → traverse permit_of stg = Ok permit_rows →
  _rows !! i = Some r →
  ∃ id p, permit_rows !! i = Some (id, p)
    ∧ r ->> ":id" = Some id ∧ Permits.raw p = r
    ∧ Sync.updated_at_of r = Some (Permits.updated_at p).
Proof.
  intros Hs Hp Hr. apply traverse_Ok in Hs, Hp.
  destruct (Forall2_lookup_l _ _ _ _ _ Hs Hr) as (s & Hsi & Hst).
  destruct (Forall2_lookup_l _ _ _ _ _ Hp Hsi) as ([id p] & Hpi & Hpo).
  apply stage_row_Ok in Hst as (Hid & Hraw & Hu).
  apply permit_of_Ok in Hpo as (Hid' & Hu' & Hraw').
  exists id, p. split_and!; [done|congruence|congruence|].
  apply cast_updated_at. by rewrite Hu, Hu'.
Qed.

Lemma upsert_rows_lookup_ne {V} (tbl : gmap string V) rows k :
  k ∉ rows.*1 → upsert_rows tbl rows !! k = tbl !! k.
Proof.
  intros Hk. rewrite upsert_rows_union. apply lookup_union_r.
  apply upsert_rows_lookup_None. split; [done|apply lookup_empty].
Qed.

Lemma upsert_rows_lookup_NoDup {V} (tbl : gmap string V) rows k v :
  NoDup rows.*1 → (k, v) ∈ rows → upsert_rows tbl rows !! k = Some v.
Proof.
  revert tbl. induction rows as [|[k' v'] rows IH]; intros tbl Hnd Hin.
  - by apply elem_of_nil in Hin.
  - cbn in Hnd. apply NoDup_cons in Hnd as [Hk' Hnd].
    change (upsert_rows tbl ((k', v') :: rows))
      with (upsert_rows (<[k' := v']> tbl) rows).
    apply elem_of_cons in Hin as [[= -> ->]|Hin].
    + rewrite upsert_rows_lookup_ne by done. apply lookup_insert_eq.
    + by apply IH.
Qed.

Lemma count_new_old (tbl : gmap string Permits.row)
    (permit_rows : list (string * Permits.row)) :
  count_new tbl permit_rows + count_old tbl permit_rows
  = Z.of_nat (List.length permit_rows)
  ∧ 0 ≤ count_new tbl permit_rows ∧ 0 ≤ count_old tbl permit_rows.
Proof.
  unfold count_new, count_old. split; [|lia].
  induction permit_rows as [|kv pr IH]; [done|]. cbn [List.filter List.length].
  destruct (tbl !! kv.1) as [p|] eqn:Hk.
  - rewrite bool_decide_eq_false_2 by done.
    rewrite bool_decide_eq_true_2 by done. cbn [List.length]. lia.
  - rewrite bool_decide_eq_true_2 by done.
    rewrite bool_decide_eq_false_2 by (by intros [? ?]). cbn [List.length]. lia.
Qed.

(** X1.  On success the two counts add up to the page: every record is
    counted once, as inserted or as updated, and neither count is
    negative. *)
Theorem counts_cover_page (st st' : store) (_rows : list jsonb) (res : upsert_result) :
  upsert_dob_permits st _rows = Ok (res, st') →
  inserted res + updated res = Z.of_nat (List.length _rows)
  ∧ 0 ≤ inserted res ∧ 0 ≤ updated res.
Proof.
  intros H. apply upsert_dob_permits_Ok in H
    as (stg & dr & pr & Hs & _ & Hp & _ & _ & _ & _ & _ & _ & _ & Hi & Hu & _).
  rewrite Hi, Hu. unfold stage in Hs. apply traverse_length in Hs, Hp.
  rewrite <- Hs, <- Hp. apply count_new_old.
Qed.

(** X2.  A page in which two records carry the same [:id] is refused as a
    whole: [ON CONFLICT DO UPDATE] cannot touch a row twice in one
    statement. *)
Theorem duplicate_id_fails_page (st : store) (_rows : list jsonb)
    (i j : nat) (r1 r2 : jsonb) (id : string) :
  i ≠ j → _rows !! i = Some r1 → _rows !! j = Some r2 →
  r1 ->> ":id" = Some id → r2 ->> ":id" = Some id →
  ∃ e, upsert_dob_permits st _rows = Raise e.
Proof.
  intros Hij H1 H2 Hid1 Hid2.
  destruct (upsert_dob_permits st _rows) as [[res st']|e] eqn:Hu; [|by exists e].
  exfalso. apply upsert_dob_permits_Ok in Hu
    as (stg & dr & pr & Hs & _ & Hp & Hnd & _).
  destruct (page_record _ _ _ _ _ Hs Hp H1) as (id1 & p1 & Hp1 & Hi1 & _).
  destruct (page_record _ _ _ _ _ Hs Hp H2) as (id2 & p2 & Hp2 & Hi2 & _).
  assert (id1 = id) as -> by congruence. assert (id2 = id) as -> by congruence.
  apply Hij. eapply NoDup_lookup; [exact Hnd| |].
  - by rewrite list_lookup_fmap, Hp1.
  - by rewrite list_lookup_fmap, Hp2.
Qed.

(** X3.  A record without [:id], or without [:updated_at], fails the page:
    both columns of [dob_permits] are [NOT NULL]. *)
Theorem missing_key_fails_page (st : store) (before after : list jsonb) (r : jsonb) :
  r ->> ":id" = None ∨ r ->> ":updated_at" = None →
  ∃ e, upsert_dob_permits st (before ++ r :: after)%list = Raise e.
Proof.
  intros Hmissing.
  destruct (upsert_dob_permits st _) as [[res st']|e] eqn:Hu; [|by exists e].
  exfalso. apply upsert_dob_permits_Ok in Hu
    as (stg & dr & pr & Hs & _ & Hp & _).
  assert (Hr : (before ++ r :: after)%list !! List.length before = Some r).
  { by rewrite list_lookup_middle. }
  destruct (page_record _ _ _ _ _ Hs Hp Hr) as (id & p & _ & Hid & _ & Hup).
  destruct Hmissing as [Hm|Hm]; [congruence|].
  unfold Sync.updated_at_of in Hup. by rewrite Hm in Hup.
Qed.

(** A record of a successful page, in the store. *)
Lemma record_in_store (st st' : store) (_rows : list jsonb) (res : upsert_result)
    (r : jsonb) :
  upsert_dob_permits st _rows = Ok (res, st') → r ∈ _rows →
  ∃ id p, r ->> ":id" = Some id ∧ dob_permits st' !! id = Some p
    ∧ Permits.raw p = r
    ∧ Sync.updated_at_of r = Some (Permits.updated_at p)
    ∧ populate_geom_from_coords p = p.
Proof.
  intros H [i Hi]%list_elem_of_lookup. apply upsert_dob_permits_Ok in H
    as (stg & dr & pr & Hs & _ & Hp & Hnd & _ & _ & _ & Hst & _).
  assert (Hndp : NoDup (populated pr).*1) by (by rewrite populated_keys).
  destruct (page_record _ _ _ _ _ Hs Hp Hi) as (id & p & Hpi & Hid & Hraw & Hup).
  exists id, (populate_geom_from_coords p).
  split_and!; [done| |done|done|apply populate_geom_idemp].
  rewrite Hst. apply lookup_union_Some_raw. left.
  apply upsert_rows_lookup_NoDup; [done|].
  unfold populated. apply list_elem_of_fmap. exists (id, p).
  split; [done|]. by eapply list_elem_of_lookup_2.
Qed.

(** X4.  On success every record of the page is in [dob_permits] under its
    [:id], with the payload stored verbatim in [raw], the instant of its
    [:updated_at], and the geometry of the trigger; a permit whose id no
    record of the page carries is as it was. *)
Theorem page_stored (st st' : store) (_rows : list jsonb) (res : upsert_result) :
  upsert_dob_permits st _rows = Ok (res, st') →
  (∀ r, r ∈ _rows →
     ∃ id p, r ->> ":id" = Some id ∧ dob_permits st' !! id = Some p
       ∧ Permits.raw p = r
       ∧ Sync.updated_at_of r = Some (Permits.updated_at p)
       ∧ populate_geom_from_coords p = p)
  ∧ (∀ id, (∀ r, r ∈ _rows → r ->> ":id" ≠ Some id) →
       dob_permits st' !! id = dob_permits st !! id).
Proof.
  intros H. split; [intros r Hr; by eapply record_in_store|].
  apply upsert_dob_permits_Ok in H
    as (stg & dr & pr & Hs & _ & Hp & Hnd & _ & _ & _ & Hst & _).
  intros id Hid. rewrite Hst. apply lookup_union_r.
  apply upsert_rows_lookup_None. split; [|apply lookup_empty].
  rewrite populated_keys. intros [[id' p] [Heq Hin]]%list_elem_of_fmap.
  cbn in Heq. subst id'. apply list_elem_of_lookup in Hin as [i Hi].
  assert (Hlen : (i < List.length _rows)%nat).
  { unfold stage in Hs. apply traverse_length in Hs, Hp.
    apply lookup_lt_Some in Hi. lia. }
  apply lookup_lt_is_Some in Hlen as [r Hr].
  destruct (page_record _ _ _ _ _ Hs Hp Hr) as (id' & p' & Hpi & Hid' & _).
  rewrite Hi in Hpi. injection Hpi as <- <-.
  eapply Hid; [|exact Hid']. by eapply list_elem_of_lookup_2.
Qed.

End upsert_records.

(** ** The watermark of the store *)

Lemma max_timestamptz_cons (t : timestamptz) (l : list timestamptz) :
  max_timestamptz (t :: l)
  = Some (match max_timestamptz l with Some m => Z.max t m | None => t end).
Proof. reflexivity. Qed.

Lemma max_timestamptz_Some (l : list timestamptz) (m : timestamptz) :
  max_timestamptz l = Some m → m ∈ l ∧ ∀ t, t ∈ l → t ≤ m.
Proof.
  revert m. induction l as [|t l IH]; intros m; [discriminate|].
  rewrite max_timestamptz_cons. destruct (max_timestamptz l) as [m'|] eqn:Hl.
  - destruct (IH m' eq_refl) as [Hin Hle]. intros [= <-]. split.
    + destruct (Z.max_spec t m') as [[_ ->]|[_ ->]]; [by right|by left].
    + intros t' [->|Ht]%elem_of_cons; [lia|]. specialize (Hle _ Ht). lia.
  - intros [= <-]. destruct l; [|discriminate].
    split; [by left|]. intros t' [->|Ht]%elem_of_cons; [lia|].
    by apply elem_of_nil in Ht.
Qed.

Lemma max_timestamptz_None (l : list timestamptz) :
  max_timestamptz l = None → l = [].
Proof. destruct l; [done|]. by rewrite max_timestamptz_cons. Qed.

(** No permit of the store is newer than [current_dob_watermark()]. *)
Lemma watermark_bounds (st : store) (id : string) (p : Permits.row) :
  dob_permits st !! id = Some p → Permits.updated_at p ≤ current_dob_watermark st.
Proof.
  intros Hp. unfold current_dob_watermark.
  assert (Hin : Permits.updated_at p
                ∈ Permits.updated_at <$> (map_to_list (dob_permits st)).*2).
  { apply list_elem_of_fmap_2. apply list_elem_of_fmap. exists (id, p).
    split; [done|]. by apply elem_of_map_to_list. }
  destruct (max_timestamptz _) as [m|] eqn:Hm.
  - apply max_timestamptz_Some in Hm as [_ Hle]. by apply Hle.
  - apply max_timestamptz_None in Hm. rewrite Hm in Hin. by apply elem_of_nil in Hin.
Qed.

Section watermark.
Context `{pg : PgServer}.

(** X5.  The [max_updated] that a successful upsert reports is the greatest
    [:updated_at] of the page: it is the instant of one of its records and
    no record is newer; only the empty page has none.  The watermark that
    [current_dob_watermark()] then reads in the store is at least it, and no
    stored permit is newer than that watermark. *)
Theorem max_updated_is_page_maximum
    (st st' : store) (_rows : list jsonb) (res : upsert_result) :
  upsert_dob_permits st _rows = Ok (res, st') →
  (∀ m, max_updated res = Some m →
     (∃ r, r ∈ _rows ∧ Sync.updated_at_of r = Some m)
     ∧ (∀ r t, r ∈ _rows → Sync.updated_at_of r = Some t → t ≤ m)
     ∧ m ≤ current_dob_watermark st')
  ∧ (max_updated res = None → _rows = [])
  ∧ (∀ id p, dob_permits st' !! id = Some p →
       Permits.updated_at p ≤ current_dob_watermark st').
Proof.
  intros H. pose proof (λ r, record_in_store _ _ _ _ r H) as Hstored.
  apply upsert_dob_permits_Ok in H
    as (stg & dr & pr & Hs & _ & Hp & _ & _ & _ & _ & _ & _ & _ & _ & _ & Hm).
  assert (Hinst : ∀ i r, _rows !! i = Some r →
            ∃ s t, stg !! i = Some s ∧ Stage.updated_at s = Some t
                   ∧ Sync.updated_at_of r = Some t).
  { intros i r Hr.
    destruct (page_record _ _ _ _ _ Hs Hp Hr) as (id & p & Hpi & _ & _ & Hu).
    pose proof (traverse_Ok _ _ _ Hp) as Hf.
    destruct (Forall2_lookup_r _ _ _ _ _ Hf Hpi) as (s & Hsi & Hpo).
    apply permit_of_Ok in Hpo as (_ & Hsu & _). eauto. }
  split_and!.
  - intros m Hmax. rewrite Hm in Hmax.
    apply max_timestamptz_Some in Hmax as [Hin Hle].
    apply list_elem_of_omap in Hin as (s & [i Hsi]%list_elem_of_lookup & Hsu).
    assert (Hlen : (i < List.length _rows)%nat).
    { unfold stage in Hs. apply traverse_length in Hs.
      apply lookup_lt_Some in Hsi. lia. }
    apply lookup_lt_is_Some in Hlen as [r Hr].
    destruct (Hinst i r Hr) as (s' & t & Hs' & Ht & Hut).
    assert (t = m) as -> by congruence.
    assert (Hrin : r ∈ _rows) by (by eapply list_elem_of_lookup_2).
    split_and!.
    + eauto.
    + intros r' t' [j Hj]%list_elem_of_lookup Hut'.
      destruct (Hinst j r' Hj) as (s'' & t'' & Hs'' & Ht'' & Hut'').
      apply Hle. apply list_elem_of_omap. exists s''.
      split; [by eapply list_elem_of_lookup_2|].
      rewrite Ht''. rewrite Hut' in Hut''. by injection Hut'' as <-.
    + destruct (Hstored r Hrin) as (id & p & _ & Hlook & _ & Hup & _).
      assert (Permits.updated_at p = m) as <- by congruence.
      by eapply watermark_bounds.
  - intros Hnone. rewrite Hm in Hnone. apply max_timestamptz_None in Hnone.
    destruct _rows as [|r rows]; [done|]. exfalso.
    destruct (Hinst 0%nat r eq_refl) as (s & t & Hs0 & Ht & _).
    assert (Hin : t ∈ omap Stage.updated_at stg).
    { apply list_elem_of_omap. exists s. split; [|done].
      by eapply list_elem_of_lookup_2. }
    rewrite Hnone in Hin. by apply elem_of_nil in Hin.
  - intros id p. apply watermark_bounds.
Qed.

End watermark.

(** ** Generated columns *)

(** X6.  The two derived locations of a permit agree: [geojson] is null
    exactly when the trigger leaves the geometry null, and otherwise it is a
    ["Point"] whose coordinates are the x and y of the geometry, longitude
    first. *)
Theorem geojson_agrees_with_geometry (NEW : Permits.row) :
  (geojson_of NEW = None ↔
   Permits.geom_4326 (populate_geom_from_coords NEW) = None)
  ∧ (∀ g, geojson_of NEW = Some g →
       ∃ pt, Permits.geom_4326 (populate_geom_from_coords NEW) = Some pt
         ∧ Permits.geom (populate_geom_from_coords NEW) = Some (Geography pt)
         ∧ srid pt = 4326 ∧ geojson_type g = "Point"
         ∧ coordinates g = [coord_x pt; coord_y pt]).
Proof.
  unfold geojson_of, create_geojson_point, populate_geom_from_coords. cbn.
  destruct (Permits.gis_latitude NEW) as [lat|]; [|split; [done|discriminate]].
  destruct (Permits.gis_longitude NEW) as [lon|]; [|split; [done|discriminate]].
  destruct (between lat _ _ && between lon _ _); [|split; [done|discriminate]].
  split; [done|]. intros g [= <-]. eexists. split_and!; reflexivity.
Qed.

Lemma length_fill_with (c : ascii) (n : nat) (s : string) :
  String.length (fill_with c n s) = (n + String.length s)%nat.
Proof. induction n as [|n IH]; [done|]. cbn. by rewrite IH. Qed.

Lemma length_substring_0 (n : nat) (s : string) :
  (n ≤ String.length s)%nat → String.length (String.substring 0 n s) = n.
Proof.
  revert s. induction n as [|n IH]; intros s Hn.
  - by destruct s.
  - destruct s as [|c s]; [cbn in Hn; lia|]. cbn. rewrite IH; [done|].
    cbn in Hn. lia.
Qed.

Lemma length_LPAD (s : string) (n : nat) (fill : ascii) :
  String.length (LPAD s n fill) = n.
Proof.
  unfold LPAD. destruct (n <=? String.length s)%nat eqn:Hn.
  - apply Nat.leb_le in Hn. by apply length_substring_0.
  - apply Nat.leb_gt in Hn. rewrite length_fill_with. lia.
Qed.

Lemma length_append (s1 s2 : string) :
  String.length (s1 ++ s2) = (String.length s1 + String.length s2)%nat.
Proof.
  induction s1 as [|c s1 IH]; [done|].
  change (String c s1 ++ s2) with (String c (s1 ++ s2)).
  change (String.length (String c (s1 ++ s2))) with (S (String.length (s1 ++ s2))).
  rewrite IH. reflexivity.
Qed.

Lemma fill_with_suffix (c : ascii) (n : nat) (s : string) :
  String.substring n (String.length s) (fill_with c n s) = s.
Proof.
  induction n as [|n IH]; cbn; [|done].
  induction s as [|a s IHs]; [done|]. cbn. by rewrite IHs.
Qed.

Lemma substring_append (s rest : string) :
  String.substring 0 (String.length s) (s ++ rest) = s.
Proof.
  induction s as [|c s IH]; [by destruct rest|].
  change (String c s ++ rest) with (String c (s ++ rest)).
  change (String.substring 0 (String.length (String c s)) (String c (s ++ rest)))
    with (String c (String.substring 0 (String.length s) (s ++ rest))).
  by rewrite IH.
Qed.


(** ** The sweep of the tile cache *)

(** X8.  [clean_mvt_cache()] keeps exactly the entries written within the
    last seven days, as they were, and touches no other table; the number
    it returns is the number of entries that are gone. *)
Theorem clean_mvt_cache_sweeps (now : timestamptz) (st : store) :
  (∀ k row, mvt_cache (clean_mvt_cache now st).2 !! k = Some row ↔
     mvt_cache st !! k = Some row
     ∧ now - 7 * usecs_per_day ≤ MvtCache.updated_at row)
  ∧ (clean_mvt_cache now st).1
    = Z.of_nat (size (mvt_cache st))
      - Z.of_nat (size (mvt_cache (clean_mvt_cache now st).2))
  ∧ dob_buildings (clean_mvt_cache now st).2 = dob_buildings st
  ∧ dob_permit_details (clean_mvt_cache now st).2 = dob_permit_details st
  ∧ dob_entities (clean_mvt_cache now st).2 = dob_entities st
  ∧ dob_permits (clean_mvt_cache now st).2 = dob_permits st
  ∧ dataset_sync_state (clean_mvt_cache now st).2 = dataset_sync_state st.
Proof.
  cbn. split_and!; try done.
  - intros k row. rewrite map_lookup_filter_Some. unfold stale. cbn.
    split; intros [? ?]; split; [done|lia|done|lia].
  - rewrite <- (map_filter_union_complement (stale now) (mvt_cache st)) at 2.
    rewrite map_size_disj_union by apply map_disjoint_filter_complement. lia.
Qed.

(** X9.  Sweeps compose: a sweep after an earlier sweep leaves the cache a
    single sweep at the later time would leave; in particular a second
    sweep at the same time deletes nothing. *)
Theorem clean_mvt_cache_again (now now' : timestamptz) (st : store) :
  now ≤ now' →
  (clean_mvt_cache now' (clean_mvt_cache now st).2).2 = (clean_mvt_cache now' st).2
  ∧ (clean_mvt_cache now (clean_mvt_cache now st).2) = (0, (clean_mvt_cache now st).2).
Proof.
  intros Hle. unfold clean_mvt_cache. cbn. split.
  - f_equal. rewrite map_filter_filter. apply map_filter_ext.
    intros k row _. unfold stale. cbn. split; [by intros [? ?]|].
    intros ?. split; [done|lia].
  - f_equal.
    + assert (filter (stale now)
                (filter (λ entry, ¬ stale now entry) (mvt_cache st)) = ∅)
        as ->; [|done].
      apply map_eq. intros k. rewrite lookup_empty.
      apply eq_None_not_Some. intros [row Hrow].
      apply map_lookup_filter_Some in Hrow as [Hrow Hstale].
      apply map_lookup_filter_Some in Hrow as [_ Hfresh]. done.
    + f_equal. rewrite map_filter_filter. apply map_filter_ext.
      intros k row _. split; [by intros [? ?]|done].
Qed.
(** ** The retry loop of the ingestion *)

Lemma ok_not_transient (status : Z) :
  Sync.ok status = true → Sync.transient status = false.
Proof.
  unfold Sync.ok, Sync.transient.
  intros [?%Z.leb_le ?%Z.leb_le]%andb_true_iff.
  apply orb_false_iff. split; [apply Z.eqb_neq; lia|].
  apply andb_false_iff. left. apply Z.leb_gt. lia.
Qed.

(** One turn of the loop: whatever the failure, it goes round again, and
    the last failure is thrown. *)
Lemma fetch_retrying_S (w : Sync.world) (q : Sync.query) (r : nat) (delay : Z)
    (n : nat) (tr : list Sync.event) :
  Sync.fetch_retrying w q (S r) delay n tr
  = if failing (Sync.fetch w n q) then
      match r with
      | O => (None, S n, (tr ++ [Sync.fetched q])%list)
      | S _ => Sync.fetch_retrying w q r (delay * 2) (S n)
                 ((tr ++ [Sync.fetched q]) ++ [Sync.slept delay])%list
      end
    else (body_of (Sync.fetch w n q), S n, (tr ++ [Sync.fetched q])%list).
Proof.
  cbn [Sync.fetch_retrying]. unfold failing, body_of.
  destruct (Sync.fetch w n q) as [|status b]; [done|].
  destruct (Sync.ok status) eqn:Hok; cbn [negb].
  - by rewrite (ok_not_transient _ Hok).
  - by destruct (Sync.transient status && _).
Qed.

Lemma attempts_snoc (q : Sync.query) (k : nat) (delay : Z) (tr rest : list Sync.event) :
  (((tr ++ [Sync.fetched q]) ++ [Sync.slept delay]) ++ attempts q k (delay * 2) ++ rest
   = tr ++ attempts q (S k) delay ++ rest)%list.
Proof. cbn [attempts]. by rewrite <- !app_assoc. Qed.

(** X10.  The retry loop answers with the first response whose status is
    in 200..299, if one of its [retries] attempts gets one: every failure
    before it is retried, a thrown [fetch] and a 404 as much as a 429 or a
    503, each after a wait that doubles from [retryDelay]. *)
Theorem retry_until_answer (w : Sync.world) (q : Sync.query) (retries : nat)
    (retryDelay : Z) (n : nat) (tr : list Sync.event) (k : nat) :
  (k < retries)%nat →
  (∀ i, (i < k)%nat → failing (Sync.fetch w (n + i) q) = true) →
  failing (Sync.fetch w (n + k) q) = false →
  Sync.fetch_retrying w q retries retryDelay n tr
  = (body_of (Sync.fetch w (n + k) q), S (n + k),
     (tr ++ attempts q k retryDelay ++ [Sync.fetched q])%list).
Proof.
  revert retries retryDelay n tr.
  induction k as [|k IH]; intros retries delay n tr Hk Hfail Hok;
    destruct retries as [|r]; try lia; rewrite fetch_retrying_S.
  - rewrite Nat.add_0_r in Hok |- *. by rewrite Hok.
  - rewrite <- (Nat.add_0_r n) at 1. rewrite (Hfail 0%nat) by lia.
    destruct r as [|r]; [lia|].
    rewrite (IH (S r) (delay * 2) (S n)).
    + rewrite attempts_snoc. by replace (S n + k)%nat with (n + S k)%nat by lia.
    + lia.
    + intros i Hi. replace (S n + i)%nat with (n + S i)%nat by lia.
      apply Hfail. lia.
    + by replace (S n + k)%nat with (n + S k)%nat by lia.
Qed.

Lemma fetch_retrying_exhausted (w : Sync.world) (q : Sync.query) (r : nat)
    (delay : Z) (n : nat) (tr : list Sync.event) :
  (∀ i, (i ≤ r)%nat → failing (Sync.fetch w (n + i) q) = true) →
  Sync.fetch_retrying w q (S r) delay n tr
  = (None, S (n + r), (tr ++ attempts q r delay ++ [Sync.fetched q])%list).
Proof.
  revert delay n tr. induction r as [|r IH]; intros delay n tr Hfail;
    rewrite fetch_retrying_S;
    rewrite <- (Nat.add_0_r n) at 1; rewrite (Hfail 0%nat) by lia.
  - by rewrite Nat.add_0_r.
  - rewrite IH.
    + rewrite attempts_snoc. by replace (S n + r)%nat with (n + S r)%nat by lia.
    + intros i Hi. replace (S n + i)%nat with (n + S i)%nat by lia.
      apply Hfail. lia.
Qed.

Lemma upserted_records_app (tr1 tr2 : list Sync.event) :
  upserted_records (tr1 ++ tr2) = upserted_records tr1 + upserted_records tr2.
Proof.
  induction tr1 as [|e tr1 IH]; [done|].
  change (upserted_records ((e :: tr1) ++ tr2))
    with (match e with
          | Sync.upserted _rows => Z.of_nat (List.length _rows) + upserted_records (tr1 ++ tr2)
          | _ => upserted_records (tr1 ++ tr2)
          end).
  change (upserted_records (e :: tr1))
    with (match e with
          | Sync.upserted _rows => Z.of_nat (List.length _rows) + upserted_records tr1
          | _ => upserted_records tr1
          end).
  rewrite IH. destruct e; lia.
Qed.

Lemma upserted_records_fetch_retrying (w : Sync.world) (q : Sync.query) (r : nat)
    (delay : Z) (n : nat) (tr : list Sync.event) :
  upserted_records (Sync.fetch_retrying w q r delay n tr).2 = upserted_records tr.
Proof.
  revert delay n tr. induction r as [|r IH]; intros delay n tr; [done|].
  rewrite fetch_retrying_S.
  assert (Hone : upserted_records (tr ++ [Sync.fetched q]) = upserted_records tr).
  { rewrite upserted_records_app. cbn. lia. }
  destruct (failing _); [|done]. destruct r as [|r]; [done|].
  rewrite IH, upserted_records_app, Hone. cbn. lia.
Qed.

Section runs.
Context `{pg : PgServer}.

(** X11.  Three failures in a row on a page end the run with an error:
    three requests, waits of one and of two seconds between them, no call
    to the store, and the store as it was. *)
Theorem three_failures_end_run (fuel : nat) (w : Sync.world) (req : Sync.request)
    (mode : string) (s : Sync.state) :
  (∀ i, (i < 3)%nat →
     failing (Sync.fetch w (Sync.fetches s + i) (Sync.page_query w req s)) = true) →
  ∃ e s',
    Sync.paginate (S fuel) w req mode s = (Sync.responded (Sync.failure e), s')
    ∧ Sync.db s' = Sync.db s ∧ Sync.calls s' = Sync.calls s
    ∧ Sync.fetches s' = (Sync.fetches s + 3)%nat
    ∧ Sync.trace s'
      = (Sync.trace s
         ++ [Sync.fetched (Sync.page_query w req s); Sync.slept 1000;
             Sync.fetched (Sync.page_query w req s); Sync.slept 2000;
             Sync.fetched (Sync.page_query w req s)])%list.
Proof.
  intros Hfail. cbn [Sync.paginate].
  rewrite fetch_retrying_exhausted by (intros i Hi; apply Hfail; lia).
  eexists _, _. split; [reflexivity|]. cbn.
  split_and!; [done|done|lia|done].
Qed.

(** What the pagination keeps true of the state of a run that started
    from the store [st]: the tile cache is that of [st], the counts of
    inserted and updated rows add up to the records processed, and these
    are the records handed to the store. *)
Lemma finish_synced (w : Sync.world) (req : Sync.request) (mode : string)
    (s s' : Sync.state) (r : Sync.sync_response) :
  Sync.finish w req mode s = (r, s') →
  mvt_cache (Sync.db s') = mvt_cache (Sync.db s)
  ∧ dob_permits (Sync.db s') = dob_permits (Sync.db s)
  ∧ upserted_records (Sync.trace s') = upserted_records (Sync.trace s)
  ∧ ∀ m p i u last range, r = Sync.synced m p i u last range →
      m = mode ∧ p = Sync.totalProcessed s ∧ i = Sync.totalInserted s
      ∧ u = Sync.totalUpdated s ∧ last = Sync.maxUpdatedAt s
      ∧ range = match Sync.sinceParam req, Sync.untilParam req with
                | None, None => None
                | since, until => Some (since, until)
                end.
Proof.
  unfold Sync.finish.
  destruct (Sync.sinceParam req) as [since|].
  { intros [= <- <-]. split_and!; [done..|]. by intros ?????? [= <- <- <- <- <- <-]. }
  destruct (Sync.untilParam req) as [until|].
  { intros [= <- <-]. split_and!; [done..|]. by intros ?????? [= <- <- <- <- <- <-]. }
  destruct (_ || _).
  2: { intros [= <- <-]. split_and!; [done..|]. by intros ?????? [= <- <- <- <- <- <-]. }
  destruct (Sync.reaches w _); intros [= <- <-]; cbn.
  - split_and!; [done|done| |by intros ?????? [= <- <- <- <- <- <-]].
    rewrite upserted_records_app. cbn. lia.
  - split_and!; [done|done| |done].
    rewrite upserted_records_app. cbn. lia.
Qed.

Lemma paginate_kept (st : store) (fuel : nat) (w : Sync.world) (req : Sync.request)
    (mode : string) (s s' : Sync.state) (out : Sync.outcome) :
  mvt_cache (Sync.db s) = mvt_cache st →
  Sync.totalInserted s + Sync.totalUpdated s = Sync.totalProcessed s →
  0 ≤ Sync.totalInserted s → 0 ≤ Sync.totalUpdated s →
  Sync.totalProcessed s = upserted_records (Sync.trace s) →
  Sync.paginate fuel w req mode s = (out, s') →
  mvt_cache (Sync.db s') = mvt_cache st
  ∧ ∀ m p i u last range, out = Sync.responded (Sync.synced m p i u last range) →
      i + u = p ∧ 0 ≤ i ∧ 0 ≤ u ∧ p = upserted_records (Sync.trace s')
      ∧ m = mode
      ∧ range = match Sync.sinceParam req, Sync.untilParam req with
                | None, None => None
                | since, until => Some (since, until)
                end.
Proof.
  revert s. induction fuel as [|fuel IH]; intros s Hc Hsum Hi Hu Hp;
    cbn [Sync.paginate].
  { by intros [= <- <-]. }
  pose proof (upserted_records_fetch_retrying w (Sync.page_query w req s) 3 1000
                (Sync.fetches s) (Sync.trace s)) as Htr.
  destruct (Sync.fetch_retrying _ _ _ _ _ _) as [[body n] tr]. cbn in Htr.
  set (s1 := Sync.with_fetches s n tr).
  assert (Hp1 : Sync.totalProcessed s1 = upserted_records (Sync.trace s1)).
  { cbn. by rewrite Htr. }
  assert (Hc1 : mvt_cache (Sync.db s1) = mvt_cache st) by done.
  assert (Hsum1 : Sync.totalInserted s1 + Sync.totalUpdated s1
                  = Sync.totalProcessed s1) by done.
  assert (Hi1 : 0 ≤ Sync.totalInserted s1) by done.
  assert (Hu1 : 0 ≤ Sync.totalUpdated s1) by done.
  clearbody s1. clear dependent s.
  assert (Hfin : ∀ s2 r s3,
    mvt_cache (Sync.db s2) = mvt_cache st →
    Sync.totalInserted s2 + Sync.totalUpdated s2 = Sync.totalProcessed s2 →
    0 ≤ Sync.totalInserted s2 → 0 ≤ Sync.totalUpdated s2 →
    Sync.totalProcessed s2 = upserted_records (Sync.trace s2) →
    Sync.finish w req mode s2 = (r, s3) →
    mvt_cache (Sync.db s3) = mvt_cache st
    ∧ ∀ m p i u last range, Sync.responded r = Sync.responded (Sync.synced m p i u last range) →
        i + u = p ∧ 0 ≤ i ∧ 0 ≤ u ∧ p = upserted_records (Sync.trace s3)
        ∧ m = mode
        ∧ range = match Sync.sinceParam req, Sync.untilParam req with
                  | None, None => None
                  | since, until => Some (since, until)
                  end).
  { intros s2 r s3 Hc2 Hsum2 Hi2 Hu2 Hp2 Hf.
    apply finish_synced in Hf as (Hc3 & _ & Htr3 & Hr).
    split; [by rewrite Hc3|]. intros m p i u last range [= ->].
    destruct (Hr _ _ _ _ _ _ eq_refl) as (-> & -> & -> & -> & _ & ->).
    rewrite Htr3. done. }
  destruct body as [[| |records]|].
  - by intros [= <- <-].
  - destruct (Sync.finish w req mode s1) as [r s2] eqn:Hf.
    intros [= <- <-]. by eapply Hfin.
  - destruct records as [|r0 records].
    { destruct (Sync.finish w req mode s1) as [r s2] eqn:Hf.
      intros [= <- <-]. by eapply Hfin. }
    unfold Sync.rpc_upsert_dob_permits.
    destruct (Sync.reaches w (Sync.calls s1)); [|by intros [= <- <-]].
    destruct (upsert_dob_permits (Sync.db s1) (r0 :: records))
      as [[res st']|e] eqn:Hup; [|by intros [= <- <-]].
    apply upsert_dob_permits_Ok in Hup
      as (stg & dr & pr & Hs & _ & Hpr & _ & _ & _ & _ & _ & _ & Hcache & Hins & Hupd & _).
    unfold stage in Hs. apply traverse_length in Hs, Hpr.
    pose proof (count_new_old (dob_permits (Sync.db s1)) pr) as (Hcount & Hn0 & Ho0).
    assert (Hlen : List.length pr = List.length (r0 :: records)) by congruence.
    rewrite <- Hins, <- Hupd, Hlen in Hcount.
    rewrite <- Hins in Hn0. rewrite <- Hupd in Ho0.
    set (s2 := Sync.account (Sync.with_db s1 st' (Sync.upserted (r0 :: records)))
                 (r0 :: records) res).
    assert (Hc2 : mvt_cache (Sync.db s2) = mvt_cache st) by (cbn; congruence).
    assert (Hsum2 : Sync.totalInserted s2 + Sync.totalUpdated s2
                    = Sync.totalProcessed s2) by (cbn in *; lia).
    assert (Hi2 : 0 ≤ Sync.totalInserted s2) by (cbn in *; lia).
    assert (Hu2 : 0 ≤ Sync.totalUpdated s2) by (cbn in *; lia).
    assert (Hp2 : Sync.totalProcessed s2 = upserted_records (Sync.trace s2)).
    { cbn [s2 Sync.account Sync.with_db Sync.totalProcessed Sync.trace].
      rewrite upserted_records_app, Hp1.
      change (upserted_records [Sync.upserted (r0 :: records)])
        with (Z.of_nat (List.length (r0 :: records)) + 0). lia. }
    clearbody s2.
    destruct (_ <? _)%nat.
    + destruct (Sync.finish w req mode s2) as [r s3] eqn:Hf.
      intros [= <- <-]. by eapply Hfin.
    + intros Hpag. by apply (IH (Sync.next_page s2)).
  - by intros [= <- <-].
Qed.

Lemma run_kept (fuel : nat) (w : Sync.world) (st : store) (req : Sync.request)
    (out : Sync.outcome) (s : Sync.state) :
  Sync.run fuel w st req = (out, s) →
  mvt_cache (Sync.db s) = mvt_cache st
  ∧ ∀ m p i u last range, out = Sync.responded (Sync.synced m p i u last range) →
      i + u = p ∧ 0 ≤ i ∧ 0 ≤ u ∧ p = upserted_records (Sync.trace s)
      ∧ m = JS.or_else (Sync.mode_param req) "incremental"
      ∧ range = match Sync.sinceParam req, Sync.untilParam req with
                | None, None => None
                | since, until => Some (since, until)
                end.
Proof.
  unfold Sync.run.
  destruct (negb _). { by intros [= <- <-]. }
  set (mode := JS.or_else (Sync.mode_param req) "incremental").
  assert (Hstart : ∀ wm s0 out s,
    mvt_cache (Sync.db s0) = mvt_cache st →
    upserted_records (Sync.trace s0) = 0 →
    Sync.paginate fuel w req mode
      {| Sync.db := Sync.db s0; Sync.fetches := Sync.fetches s0;
         Sync.calls := Sync.calls s0; Sync.trace := Sync.trace s0;
         Sync.page := 0; Sync.totalProcessed := 0; Sync.totalInserted := 0;
         Sync.totalUpdated := 0;
         Sync.newestSeen := default 0 wm;
         Sync.maxUpdatedAt := None |} = (out, s) →
    mvt_cache (Sync.db s) = mvt_cache st
    ∧ ∀ m p i u last range, out = Sync.responded (Sync.synced m p i u last range) →
        i + u = p ∧ 0 ≤ i ∧ 0 ≤ u ∧ p = upserted_records (Sync.trace s)
        ∧ m = mode
        ∧ range = match Sync.sinceParam req, Sync.untilParam req with
                  | None, None => None
                  | since, until => Some (since, until)
                  end).
  { intros wm s0 out' s'' Hdb Htr H.
    by apply (paginate_kept st) in H. }
  destruct (Sync.sinceParam req) as [since|] eqn:Hsince.
  { by apply (Hstart (Some since)). }
  destruct (String.eqb mode "incremental") eqn:Hmode.
  2: { by destruct (Sync.untilParam req); apply (Hstart None). }
  destruct (Sync.reaches w _).
  2: { by intros [= <- <-]. }
  cbv iota beta.
  destruct (Sync.untilParam req) as [until|] eqn:Huntil.
  { by apply (Hstart (Some (current_dob_watermark st))). }
  destruct (Sync.fetch w _ _) as [|status b].
  { by intros [= <- <-]. }
  destruct (Sync.ok status);
    [|by apply (Hstart (Some (current_dob_watermark st)))].
  destruct b as [| |[|first rest]]; try by intros [= <- <-].
  destruct (Sync.jvalue_truthy _);
    [by apply (Hstart (Some (current_dob_watermark st)))|].
  by intros [= <- <-].
Qed.

(** X12.  The totals of a successful response add up: the inserted and the
    updated rows are together the records processed, which are all the
    records the run handed to [upsert_dob_permits]; the mode is the one
    asked for, incremental by default, and the date range is reported
    exactly when one was given. *)
Theorem totals_add_up (fuel : nat) (w : Sync.world) (st : store)
    (req : Sync.request) (s : Sync.state) (mode : string)
    (totalProcessed totalInserted totalUpdated : Z)
    (last : option timestamptz)
    (dateRange : option (option timestamptz * option timestamptz)) :
  Sync.run fuel w st req
  = (Sync.responded
       (Sync.synced mode totalProcessed totalInserted totalUpdated last dateRange), s) →
  totalInserted + totalUpdated = totalProcessed
  ∧ 0 ≤ totalInserted ∧ 0 ≤ totalUpdated
  ∧ totalProcessed = upserted_records (Sync.trace s)
  ∧ mode = JS.or_else (Sync.mode_param req) "incremental"
  ∧ (dateRange = None ↔ Sync.sinceParam req = None ∧ Sync.untilParam req = None).
Proof.
  intros H. apply run_kept in H as [_ H].
  destruct (H _ _ _ _ _ _ eq_refl) as (? & ? & ? & ? & ? & ->).
  split_and!; [done..|].
  destruct (Sync.sinceParam req), (Sync.untilParam req); split; try done;
    by intros [? ?].
Qed.

(** *** Against an upstream that does not change *)

Lemma dated_elem_of (dataset : list jsonb) (t : timestamptz) (r : jsonb) :
  (t, r) ∈ Sync.dated dataset → r ∈ dataset ∧ Sync.updated_at_of r = Some t.
Proof.
  unfold Sync.dated. intros (r' & Hr' & Ht)%list_elem_of_omap.
  destruct (Sync.updated_at_of r') as [t'|] eqn:Hu; [|discriminate].
  cbn in Ht. injection Ht as <- <-. done.
Qed.

Lemma length_dated (dataset : list jsonb) :
  (List.length (Sync.dated dataset) ≤ List.length dataset)%nat.
Proof.
  unfold Sync.dated. induction dataset as [|r dataset IH]; [done|].
  cbn [omap list_omap]. destruct (_ <$> Sync.updated_at_of r); cbn [List.length]; lia.
Qed.

(** A page of the steady upstream is never longer than what the dataset
    holds beyond the offset. *)
Lemma length_socrata_page (dataset : list jsonb) (w : Sync.world)
    (req : Sync.request) (s : Sync.state) :
  (List.length (Sync.socrata dataset (Sync.page_query w req s))
   ≤ List.length dataset - Sync.page s * Sync.PAGE_SIZE)%nat.
Proof.
  unfold Sync.socrata.
  change (String.eqb (Sync.select (Sync.page_query w req s)) _) with false.
  cbv iota. change (Sync.order (Sync.page_query w req s)) with (Some ":updated_at ASC").
  cbv iota. change (Sync.offset (Sync.page_query w req s))
    with (Sync.page s * Sync.PAGE_SIZE)%nat.
  rewrite length_take, length_fmap, length_drop.
  rewrite (Permutation_length (merge_sort_Permutation _ _)).
  pose proof (List.filter_length_le (Sync.in_range (Sync.page_query w req s))
                (Sync.dated dataset)).
  pose proof (length_dated dataset). lia.
Qed.

(** X13.  An incremental run with nothing newer upstream than the
    watermark of the store stops at the preflight check: it reads the
    watermark, sends the one request for the maximum, answers that there
    is nothing to sync, and leaves the store as it was. *)
Theorem nothing_new_upstream (fuel : nat) (e : deno_env) (clock : timestamptz)
    (dataset : list jsonb) (st : store) (req : Sync.request) :
  Tiles.configured e = true →
  JS.or_else (Sync.mode_param req) "incremental" = "incremental" →
  Sync.sinceParam req = None → Sync.untilParam req = None →
  (∀ r t, r ∈ dataset → Sync.updated_at_of r = Some t →
     t ≤ current_dob_watermark st) →
  ∃ s,
    Sync.run fuel (Sync.steady e clock dataset) st req
    = (Sync.responded (Sync.no_new_data "incremental" (current_dob_watermark st)), s)
    ∧ Sync.db s = st
    ∧ Sync.trace s
      = [Sync.read_watermark;
         Sync.fetched (Sync.preflight_query (Sync.steady e clock dataset)
                         (current_dob_watermark st))].
Proof.
  intros Hconf Hmode Hsince Huntil Hold. unfold Sync.run.
  change (Sync.env (Sync.steady e clock dataset)) with e.
  unfold Tiles.configured in Hconf. rewrite Hconf, Hmode, Hsince, Huntil.
  cbn [negb String.eqb Ascii.eqb Bool.eqb Sync.reaches Sync.steady Sync.fetch
       Sync.calls Sync.ok Z.leb Z.compare Pos.compare Pos.compare_cont andb].
  cbv iota beta.
  assert (Hnone : Sync.socrata dataset
                    (Sync.preflight_query (Sync.steady e clock dataset)
                       (current_dob_watermark st)) = [∅]).
  { unfold Sync.socrata.
    change (String.eqb (Sync.select (Sync.preflight_query _ _)) _) with true.
    cbv iota.
    destruct (List.filter _ (Sync.dated dataset)) as [|[t r] rows] eqn:Hf; [done|].
    exfalso.
    assert (Hin : In (t, r) (List.filter
                     (Sync.in_range (Sync.preflight_query (Sync.steady e clock dataset)
                                       (current_dob_watermark st)))
                     (Sync.dated dataset))) by (rewrite Hf; by left).
    apply List.filter_In in Hin as [Hin Hrange].
    apply list_elem_of_In, dated_elem_of in Hin as [Hr Ht].
    specialize (Hold r t Hr Ht).
    unfold Sync.in_range in Hrange. cbn in Hrange.
    apply andb_true_iff in Hrange as [Hrange _]. apply Z.ltb_lt in Hrange. lia. }
  rewrite Hnone. cbn [Sync.jvalue_truthy]. rewrite lookup_empty.
  eexists. split; [reflexivity|]. done.
Qed.

(** The pagination against a steady upstream answers within as many
    iterations as the dataset has pages. *)
Lemma paginate_answers (e : deno_env) (clock : timestamptz) (dataset : list jsonb)
    (req : Sync.request) (mode : string) (fuel : nat) (s : Sync.state) :
  (List.length dataset < (S fuel + Sync.page s) * Sync.PAGE_SIZE)%nat →
  ∃ r s', Sync.paginate (S fuel) (Sync.steady e clock dataset) req mode s
          = (Sync.responded r, s').
Proof.
  revert s. induction fuel as [|fuel IH]; intros s Hlen.
  all: cbn [Sync.paginate]; rewrite fetch_retrying_S.
  all: change (failing (Sync.fetch (Sync.steady e clock dataset) _ _)) with false.
  all: cbv iota.
  all: change (body_of (Sync.fetch (Sync.steady e clock dataset) (Sync.fetches s)
                          (Sync.page_query (Sync.steady e clock dataset) req s)))
         with (Some (Sync.array (Sync.socrata dataset
                 (Sync.page_query (Sync.steady e clock dataset) req s)))).
  all: pose proof (length_socrata_page dataset (Sync.steady e clock dataset) req s)
         as Hpage.
  all: destruct (Sync.socrata dataset _) as [|r0 records];
         [destruct (Sync.finish _ _ _ _) as [r s']; by eexists _, _|].
  all: unfold Sync.rpc_upsert_dob_permits.
  all: change (Sync.reaches (Sync.steady e clock dataset) _) with true; cbv iota.
  all: destruct (upsert_dob_permits _ _) as [[res st']|err]; [|by eexists _, _].
  all: destruct (_ <? _)%nat eqn:Hshort;
         [destruct (Sync.finish _ _ _ _) as [r s']; by eexists _, _|].
  all: apply Nat.ltb_ge in Hshort.
  - exfalso. nia.
  - apply IH. cbn [Sync.page Sync.next_page Sync.account Sync.with_db Sync.with_fetches].
    nia.
Qed.

(** X14.  Against an upstream that always answers from a dataset that does
    not change, a run answers: the loop ends within as many iterations as
    the dataset has pages, whatever the store does with them. *)
Theorem run_answers (fuel : nat) (e : deno_env) (clock : timestamptz)
    (dataset : list jsonb) (st : store) (req : Sync.request) :
  (List.length dataset < fuel * Sync.PAGE_SIZE)%nat →
  ∃ r s, Sync.run fuel (Sync.steady e clock dataset) st req = (Sync.responded r, s).
Proof.
  intros Hlen. destruct fuel as [|fuel]; [cbn in Hlen; lia|].
  assert (Hstart : ∀ s0 wm,
    ∃ r s, Sync.paginate (S fuel) (Sync.steady e clock dataset) req
             (JS.or_else (Sync.mode_param req) "incremental")
             {| Sync.db := Sync.db s0; Sync.fetches := Sync.fetches s0;
                Sync.calls := Sync.calls s0; Sync.trace := Sync.trace s0;
                Sync.page := 0; Sync.totalProcessed := 0; Sync.totalInserted := 0;
                Sync.totalUpdated := 0;
                Sync.newestSeen := default 0 wm;
                Sync.maxUpdatedAt := None |} = (Sync.responded r, s)).
  { intros s0 wm. apply paginate_answers. cbn [Sync.page]. lia. }
  unfold Sync.run.
  destruct (negb _); [by eexists _, _|].
  destruct (Sync.sinceParam req) as [since|]; [apply (Hstart _ (Some since))|].
  destruct (String.eqb _ "incremental").
  2: { destruct (Sync.untilParam req); apply (Hstart _ None). }
  change (Sync.reaches (Sync.steady e clock dataset) _) with true. cbv iota beta.
  destruct (Sync.untilParam req) as [until|];
    [apply (Hstart _ (Some (current_dob_watermark st)))|].
  change (Sync.fetch (Sync.steady e clock dataset) ?n ?q)
    with (Sync.fetch_response 200 (Sync.array (Sync.socrata dataset q))).
  cbv iota. change (Sync.ok 200) with true. cbv iota.
  destruct (Sync.socrata dataset _) as [|first rest]; [by eexists _, _|].
  destruct (Sync.jvalue_truthy _); [|by eexists _, _].
  apply (Hstart _ (Some (current_dob_watermark st))).
Qed.

End runs.
(** ** The tile generator, from the permits to the rows *)

Section tile_rows_of_permits.
Context `{pg : PgServer} `{gis : PostGIS}.

Lemma src_ids_sublist env date (l : list (string * Permits.row))
    (rows : list (option src_row)) :
  Forall2 (λ kp o, src_of env date kp = Ok o) l rows →
  src_id <$> omap (λ r : option src_row, r) rows `sublist_of` l.*1.
Proof.
  induction 1 as [|kp o l rows Hkp _ IH]; [constructor|].
  destruct o as [s|]; cbn.
  - apply src_of_Some in Hkp as (-> & _). by constructor.
  - by constructor.
Qed.

Lemma filter_ids_sublist {A B} (f : A → B) (P : A → bool) (l : list A) :
  f <$> List.filter P l `sublist_of` f <$> l.
Proof.
  induction l as [|a l IH]; [constructor|]. cbn.
  destruct (P a); cbn; by constructor.
Qed.

(** X15.  The rows of a tile are complete and without repetition: every
    permit of the store that has a geometry, matches the date and meets
    the tile is a row of it, with its own attributes and its geometry
    simplified for the zoom; and no permit is a row twice. *)
Theorem tile_rows_complete (st : store) (z x y : Z) (date : option string)
    (rows : list (mvt_row tile_geometry)) (env_3857 : envelope)
    (id : string) (p : Permits.row) (g : geometry) :
  tile_rows st z x y date = Ok rows →
  ST_TileEnvelope z x y = Some env_3857 →
  dob_permits st !! id = Some p →
  Permits.geom_4326 p = Some g →
  date_matches date p = Ok true →
  bbox_overlaps g (ST_Transform_envelope env_3857 4326) = true →
  bbox_overlaps (ST_Transform g 3857) env_3857 = true →
  ST_Intersects (ST_Transform g 3857) env_3857 = true →
  (∃ r, r ∈ rows ∧ mvt_id r = id
     ∧ mvt_permit_type r = Permits.permit_type p
     ∧ mvt_permit_status r = Permits.permit_status p
     ∧ mvt_permit_issuance_date r = Permits.permit_issuance_date p
     ∧ mvt_borough r = Permits.borough p
     ∧ mvt_geom r
       = ST_AsMVTGeom (simplify z (ST_Transform g 3857)) env_3857 4096 256 true)
  ∧ NoDup (mvt_id <$> rows).
Proof.
  intros Hrows Henv Hp Hg Hdate Hbox Hbox' Hint.
  unfold tile_rows in Hrows. rewrite Henv in Hrows.
  destruct (src st env_3857 date) as [srows|e] eqn:Hsrc; [|discriminate].
  cbn in Hrows. injection Hrows as <-.
  unfold src in Hsrc.
  destruct (traverse _ _) as [orows|e] eqn:Htr; [|discriminate].
  injection Hsrc as <-. apply traverse_Ok in Htr.
  split.
  - apply elem_of_map_to_list, list_elem_of_lookup in Hp as [i Hi].
    destruct (Forall2_lookup_l _ _ _ _ _ Htr Hi) as (o & Ho & Hsrc).
    unfold src_of in Hsrc. rewrite Hg, Hdate in Hsrc. cbn in Hsrc.
    rewrite Hbox in Hsrc. cbn in Hsrc. injection Hsrc as <-.
    eexists. split.
    + unfold mvtgeom. apply list_elem_of_fmap. eexists. split; [reflexivity|].
      apply list_elem_of_In, List.filter_In. split.
      * apply list_elem_of_In, list_elem_of_omap. eexists. split; [|reflexivity].
        by eapply list_elem_of_lookup_2.
      * cbn. by rewrite Hbox', Hint.
    + cbn. done.
  - unfold mvtgeom. rewrite <- list_fmap_compose.
    eapply sublist_NoDup; [|apply (filter_ids_sublist (A := src_row))].
    eapply sublist_NoDup; [|exact (src_ids_sublist _ _ _ _ Htr)].
    apply NoDup_fst_map_to_list.
Qed.

End tile_rows_of_permits.

(** ** Bytes, text and the ETag *)

Lemma hex_digit_not_backslash (b : Byte.byte) (rest : string) :
  JS.hexToArrayBuffer (JS.byte_to_hex b ++ rest)
  = JS.hex_pairs (String.length (JS.byte_to_hex b ++ rest)) (JS.byte_to_hex b ++ rest).
Proof. by destruct b. Qed.

(** X16.  The hexadecimal text of the handler and its reader are inverse:
    what the handler writes to the cache for a tile reads back as the
    bytes it served, with the [\x] of the wire format or without it. *)
Theorem cache_text_round_trip (data : Tiles.js_data) (bs : list Byte.byte) :
  JS.hexToArrayBuffer (Tiles.mvt_text data) = Tiles.to_buffer data
  ∧ JS.hexToArrayBuffer (JS.hex_of_bytes bs) = bs
  ∧ JS.hexToArrayBuffer ("\x" ++ JS.hex_of_bytes bs) = bs.
Proof.
  split_and!.
  - destruct data as [|s|bs']; [done|done|].
    apply (hexToArrayBuffer_bytea_out bs').
  - destruct bs as [|b bs]; [done|].
    change (JS.hex_of_bytes (b :: bs)) with (JS.byte_to_hex b ++ JS.hex_of_bytes bs).
    rewrite hex_digit_not_backslash.
    change (JS.byte_to_hex b ++ JS.hex_of_bytes bs) with (JS.hex_of_bytes (b :: bs)).
    apply hex_pairs_hex_of_bytes. rewrite length_hex_of_bytes. lia.
  - apply hexToArrayBuffer_bytea_out.
Qed.

Lemma to_int32_range (v : Z) : - 2 ^ 31 ≤ JS.to_int32 v < 2 ^ 31.
Proof.
  change (2 ^ 31) with 2147483648.
  unfold JS.to_int32, JS.two32.
  pose proof (Z.mod_pos_bound v 4294967296 eq_refl).
  destruct (Z.ltb_spec (v mod 4294967296) 2147483648); lia.
Qed.

Lemma etag_step_range (hash : Z) (b : Byte.byte) :
  - 6 * 2 ^ 31 ≤ JS.etag_step hash b < 6 * 2 ^ 31.
Proof.
  unfold JS.etag_step, JS.shl32. cbv zeta.
  set (h := JS.to_int32 (Z.lxor _ _)).
  pose proof (to_int32_range (Z.lxor (JS.to_int32 hash) (Z.of_N (Byte.to_N b)))) as H0.
  pose proof (to_int32_range (JS.to_int32 h ≪ 1)) as H1.
  pose proof (to_int32_range (JS.to_int32 h ≪ 4)) as H2.
  pose proof (to_int32_range (JS.to_int32 h ≪ 7)) as H3.
  pose proof (to_int32_range (JS.to_int32 h ≪ 8)) as H4.
  pose proof (to_int32_range (JS.to_int32 h ≪ 24)) as H5.
  fold h in H0. change (2 ^ 31) with 2147483648 in *. lia.
Qed.

(** X17.  The hash of [generateETag] never leaves the integers that a
    Number holds exactly: after every byte it is within six times 2^31 of
    zero, so the additions of the loop lose nothing; it can be negative. *)
Theorem etag_hash_exact (data : list Byte.byte) :
  ∃ hash, JS.generateETag data = JS.toString16 hash
    ∧ - 6 * 2 ^ 31 ≤ hash < 6 * 2 ^ 31
    ∧ - 2 ^ 53 < hash < 2 ^ 53.
Proof.
  unfold JS.generateETag. eexists. split; [reflexivity|].
  assert (H : - 6 * 2 ^ 31 ≤ fold_left JS.etag_step data 2166136261 < 6 * 2 ^ 31).
  { assert (Hinit : - 6 * 2 ^ 31 ≤ 2166136261 < 6 * 2 ^ 31) by done.
    revert Hinit. generalize 2166136261.
    induction data as [|b data IH]; intros h Hh; [done|].
    cbn [fold_left]. apply IH, etag_step_range. }
  split; [done|]. change (2 ^ 31) with 2147483648 in H.
  change (2 ^ 53) with 9007199254740992. lia.
Qed.

(** ** The tile handler and its cache *)

Section tile_handler.
Context `{pg : PgServer} `{gis : PostGIS} `{js : JsEngine}.

Lemma serve_validate (w : Tiles.world) (st : store) (req : Tiles.request) :
  Tiles.serve w st req
  = match validate w req with
    | inl resp => (resp, [], st)
    | inr (z, x, y, d) => Tiles.lookup_or_generate w st req z x y d
    end.
Proof.
  unfold Tiles.serve, validate.
  destruct (String.eqb _ _); [done|].
  destruct (negb _); [done|]. cbv zeta.
  destruct (JS.indexOf _ _) as [i|]; [|done].
  match goal with |- context [if ?c then _ else _] => destruct c end; [done|].
  destruct (JS.parseInt (default "" (_ !! (i + 2)%nat)) 10) as [z|]; [|done].
  destruct (JS.parseInt (default "" (_ !! (i + 3)%nat)) 10) as [x|]; [|done].
  destruct (JS.parseInt (default "" (_ !! (i + 4)%nat)) 10) as [y|]; [|done].
  destruct ((z <? 0) || (z >? 16)); [done|].
  destruct ((x <? 0) || (x >=? 2 ^ z) || (y <? 0) || (y >=? 2 ^ z)); [done|].
  destruct (negb (JS.dateRegex_test _)); [done|].
  by destruct (negb (Date_valid _)).
Qed.

Lemma validate_inr (w : Tiles.world) (req : Tiles.request) (z x y : Z) (d : string) :
  validate w req = inr (z, x, y, d) →
  Tiles.zoom req = Some z ∧ Tiles.tile_x req = Some x ∧ Tiles.tile_y req = Some y
  ∧ d = Tiles.dateStr w req.
Proof.
  unfold validate, Tiles.zoom, Tiles.tile_x, Tiles.tile_y, Tiles.after_tiles,
    Tiles.pathParts, Tiles.dateStr.
  destruct (String.eqb _ _); [discriminate|].
  destruct (negb _); [discriminate|]. cbv zeta.
  destruct (JS.indexOf _ _) as [i|]; [|discriminate].
  match goal with |- context [if ?c then _ else _] => destruct c end; [discriminate|].
  destruct (JS.parseInt (default "" (_ !! (i + 2)%nat)) 10) as [z'|]; [|discriminate].
  destruct (JS.parseInt (default "" (_ !! (i + 3)%nat)) 10) as [x'|]; [|discriminate].
  destruct (JS.parseInt (default "" (_ !! (i + 4)%nat)) 10) as [y'|]; [|discriminate].
  destruct ((z' <? 0) || (z' >? 16)); [discriminate|].
  destruct ((x' <? 0) || (x' >=? 2 ^ z') || (y' <? 0) || (y' >=? 2 ^ z'));
    [discriminate|].
  destruct (negb (JS.dateRegex_test _)); [discriminate|].
  destruct (negb (Date_valid _)); [discriminate|].
  by intros [= <- <- <- <-].
Qed.

Lemma validate_inl (w : Tiles.world) (req : Tiles.request) (resp : response) :
  validate w req = inl resp →
  resp = Tiles.preflight
  ∨ ∃ msg, resp = Tiles.server_error msg ∨ resp = Tiles.bad_request msg.
Proof.
  unfold validate.
  destruct (String.eqb _ _); [intros [= <-]; by left|].
  destruct (negb _); [intros [= <-]; eauto|]. cbv zeta.
  destruct (JS.indexOf _ _) as [i|]; [|intros [= <-]; eauto].
  match goal with |- context [if ?c then _ else _] => destruct c end;
    [intros [= <-]; eauto|].
  destruct (JS.parseInt (default "" (_ !! (i + 2)%nat)) 10) as [z'|];
    [|intros [= <-]; eauto].
  destruct (JS.parseInt (default "" (_ !! (i + 3)%nat)) 10) as [x'|];
    [|intros [= <-]; eauto].
  destruct (JS.parseInt (default "" (_ !! (i + 4)%nat)) 10) as [y'|];
    [|intros [= <-]; eauto].
  destruct ((z' <? 0) || (z' >? 16)); [intros [= <-]; eauto|].
  destruct ((x' <? 0) || (x' >=? 2 ^ z') || (y' <? 0) || (y' >=? 2 ^ z'));
    [intros [= <-]; eauto|].
  destruct (negb (JS.dateRegex_test _)); [intros [= <-]; eauto|].
  destruct (negb (Date_valid _)); [intros [= <-]; eauto|].
  discriminate.
Qed.

(** The checks read the method, the path and the date of the request, the
    environment and the day of the clock, and nothing else. *)
Lemma validate_ext (w w2 : Tiles.world) (req req2 : Tiles.request) :
  Tiles.method req2 = Tiles.method req →
  Tiles.pathname req2 = Tiles.pathname req →
  Tiles.date_param req2 = Tiles.date_param req →
  Tiles.env w2 = Tiles.env w → Tiles.today w2 = Tiles.today w →
  validate w2 req2 = validate w req.
Proof. unfold validate. by intros -> -> -> -> ->. Qed.

(** The two ways through the cache lookup. *)
Lemma lookup_hit (w : Tiles.world) (st : store) (req : Tiles.request)
    (z x y : Z) (d : string) (day : date) (row : MvtCache.row) :
  Tiles.select_reaches w = true → date_in d = Some day →
  mvt_cache st !! tile_key z x y day = Some row →
  Tiles.lookup_or_generate w st req z x y d
  = (Tiles.respond req (MvtCache.mvt row), [Tiles.cache_select z x y d d], st).
Proof.
  intros Hsel Hday Hrow. unfold Tiles.lookup_or_generate, Tiles.select_cache.
  unfold tile_key in Hrow. rewrite Hsel, Hday. cbv iota beta zeta.
  rewrite Hrow. cbv iota beta. rewrite truthy_bytea_out. unfold Tiles.to_buffer.
  by rewrite hexToArrayBuffer_bytea_out.
Qed.

Lemma lookup_or_generate_cases (w : Tiles.world) (st : store) (req : Tiles.request)
    (z x y : Z) (d : string) :
  (∃ day row, Tiles.select_reaches w = true ∧ date_in d = Some day
     ∧ mvt_cache st !! tile_key z x y day = Some row
     ∧ Tiles.lookup_or_generate w st req z x y d
       = (Tiles.respond req (MvtCache.mvt row), [Tiles.cache_select z x y d d], st))
  ∨ (Tiles.lookup_or_generate w st req z x y d = Tiles.generate w st req z x y d
     ∧ (Tiles.select_reaches w = false ∨ date_in d = None
        ∨ ∃ day, date_in d = Some day ∧ mvt_cache st !! tile_key z x y day = None)).
Proof.
  destruct (Tiles.select_reaches w) eqn:Hsel.
  2: { right. unfold Tiles.lookup_or_generate, Tiles.select_cache.
       rewrite Hsel. auto. }
  destruct (date_in d) as [day|] eqn:Hday.
  2: { right. unfold Tiles.lookup_or_generate, Tiles.select_cache.
       rewrite Hsel, Hday. auto. }
  destruct (mvt_cache st !! tile_key z x y day) as [row|] eqn:Hrow.
  - left. exists day, row. split_and!; [done..|].
    by apply (lookup_hit w st req z x y d day row).
  - right. unfold Tiles.lookup_or_generate, Tiles.select_cache.
    unfold tile_key in Hrow. rewrite Hsel, Hday. cbv iota beta zeta.
    rewrite Hrow. eauto 6.
Qed.

(** The three ways through the generator. *)
Lemma generate_cases (w : Tiles.world) (st : store) (req : Tiles.request)
    (z x y : Z) (d : string) :
  Tiles.generate w st req z x y d
  = (Tiles.server_error "Tile RPC error",
     [Tiles.cache_select z x y d d; Tiles.tile_rpc z x y (Some d)], st)
  ∨ Tiles.generate w st req z x y d
    = (Tiles.empty_tile Tiles.cors_headers,
       [Tiles.cache_select z x y d d; Tiles.tile_rpc z x y (Some d)], st)
  ∨ ∃ bs, Tiles.rpc_reaches w = true
      ∧ dob_permit_tiles st z x y (Some d) = Ok bs ∧ bs ≠ []
      ∧ Tiles.generate w st req z x y d
        = (Tiles.respond req bs,
           [Tiles.cache_select z x y d d; Tiles.tile_rpc z x y (Some d);
            Tiles.cache_upsert z x y d d (bytea_out bs)],
           Tiles.upsert_cache w st z x y d d (bytea_out bs)).
Proof.
  unfold Tiles.generate, Tiles.rpc_dob_permit_tiles.
  destruct (Tiles.rpc_reaches w); [|by left].
  destruct (dob_permit_tiles st z x y (Some d)) as [bs|e]; [|by left].
  cbn [mbind result_bind mret result_ret]. cbv zeta.
  rewrite is_empty_bytea_out. destruct (bool_decide_reflect (bs = [])) as [->|Hne].
  - right. by left.
  - right. right. exists bs. split_and!; [done..|].
    unfold Tiles.to_buffer, Tiles.mvt_text. by rewrite hexToArrayBuffer_bytea_out.
Qed.

(** What the write to the cache does to the store. *)
Lemma upsert_cache_cases (w : Tiles.world) (st : store) (z x y : Z) (d : string)
    (mvt : string) :
  Tiles.upsert_cache w st z x y d d mvt = st
  ∨ ∃ day bs, Tiles.upsert_reaches w = true ∧ date_in d = Some day
      ∧ bytea_in mvt = Some bs
      ∧ Tiles.upsert_cache w st z x y d d mvt
        = {| dob_buildings := dob_buildings st;
             dob_permit_details := dob_permit_details st;
             dob_entities := dob_entities st;
             dob_permits := dob_permits st;
             dataset_sync_state := dataset_sync_state st;
             mvt_cache :=
               <[tile_key z x y day :=
                   {| MvtCache.mvt := bs; MvtCache.updated_at := Tiles.now w |}]>
               (mvt_cache st) |}.
Proof.
  unfold Tiles.upsert_cache.
  destruct (Tiles.upsert_reaches w); [|by left].
  destruct (date_in d) as [day|]; [|by left].
  destruct (bytea_in mvt) as [bs|]; [|by left].
  right. by exists day, bs.
Qed.

(** The generator reads the permits and nothing else. *)
Lemma dob_permit_tiles_ext (st st2 : store) (z x y : Z) (date : option string) :
  dob_permits st2 = dob_permits st →
  dob_permit_tiles st2 z x y date = dob_permit_tiles st z x y date.
Proof.
  intros Heq. unfold dob_permit_tiles, tile_rows, src. by rewrite Heq.
Qed.

Lemma generate_ext (w : Tiles.world) (st st2 : store) (req : Tiles.request)
    (z x y : Z) (d : string) :
  dob_permits st2 = dob_permits st →
  (Tiles.generate w st2 req z x y d).1 = (Tiles.generate w st req z x y d).1.
Proof.
  intros Heq. unfold Tiles.generate, Tiles.rpc_dob_permit_tiles.
  rewrite (dob_permit_tiles_ext st st2) by done.
  destruct (Tiles.rpc_reaches w); [|done].
  destruct (dob_permit_tiles st z x y (Some d)) as [bs|e]; [|done].
  cbn [mbind result_bind mret result_ret]. cbv zeta.
  by destruct (Tiles.is_empty _).
Qed.

(** X18.  A request for a tile that the cache holds never reaches the
    generator and writes nothing: if it passes the checks of the handler,
    its one call to the store is the lookup, and the answer is made from
    the cached bytes. *)
Theorem cached_tile_served (w : Tiles.world) (st : store) (req : Tiles.request)
    (z x y : Z) (day : date) (row : MvtCache.row) :
  Tiles.zoom req = Some z → Tiles.tile_x req = Some x → Tiles.tile_y req = Some y →
  date_in (Tiles.dateStr w req) = Some day →
  Tiles.select_reaches w = true →
  mvt_cache st !! tile_key z x y day = Some row →
  ∃ resp calls, Tiles.serve w st req = (resp, calls, st)
    ∧ (calls = []
       ∧ (resp = Tiles.preflight ∨ status resp = 400 ∨ status resp = 500)
       ∨ calls = [Tiles.cache_select z x y (Tiles.dateStr w req) (Tiles.dateStr w req)]
         ∧ resp = Tiles.respond req (MvtCache.mvt row)).
Proof.
  intros Hz Hx Hy Hday Hsel Hrow. rewrite serve_validate.
  destruct (validate w req) as [resp|[[[z' x'] y'] d]] eqn:Hv.
  - eexists _, _. split; [reflexivity|]. left. split; [done|].
    apply validate_inl in Hv as [->|[msg [->| ->]]]; auto.
  - apply validate_inr in Hv as (Hz' & Hx' & Hy' & ->).
    assert (z' = z) as -> by congruence. assert (x' = x) as -> by congruence.
    assert (y' = y) as -> by congruence.
    rewrite (lookup_hit w st req z x y _ day row) by done.
    eexists _, _. split; [reflexivity|]. by right.
Qed.

(** X19.  A generated tile is cached and then served from the cache: when
    the handler has written a tile, the entry of its tile and day holds
    the bytes it answered with, stamped with the time of the write, and
    the same request made again is answered from them, by the lookup
    alone. *)
Theorem generated_tile_cached (w : Tiles.world) (st : store) (req : Tiles.request)
    (resp : response) (calls : list Tiles.call) (st' : store)
    (z x y : Z) (since until mvt : string) (day : date) :
  (∀ bs, bytea_in (bytea_out bs) = Some bs) →
  Tiles.serve w st req = (resp, calls, st') →
  Tiles.cache_upsert z x y since until mvt ∈ calls →
  Tiles.upsert_reaches w = true →
  date_in (Tiles.dateStr w req) = Some day →
  ∃ bs, dob_permit_tiles st z x y (Some (Tiles.dateStr w req)) = Ok bs ∧ bs ≠ []
    ∧ resp = Tiles.respond req bs
    ∧ mvt_cache st' !! tile_key z x y day
      = Some {| MvtCache.mvt := bs; MvtCache.updated_at := Tiles.now w |}
    ∧ ∀ w2 req2,
        Tiles.method req2 = Tiles.method req →
        Tiles.pathname req2 = Tiles.pathname req →
        Tiles.date_param req2 = Tiles.date_param req →
        Tiles.env w2 = Tiles.env w → Tiles.today w2 = Tiles.today w →
        Tiles.select_reaches w2 = true →
        Tiles.serve w2 st' req2
        = (Tiles.respond req2 bs,
           [Tiles.cache_select z x y (Tiles.dateStr w req) (Tiles.dateStr w req)],
           st').
Proof.
  intros Hbytes Hserve Hin Hup Hday. rewrite serve_validate in Hserve.
  destruct (validate w req) as [r|[[[z' x'] y'] d]] eqn:Hv.
  { injection Hserve as <- <- <-. by apply elem_of_nil in Hin. }
  pose proof Hv as Hv'. apply validate_inr in Hv' as (_ & _ & _ & ->).
  destruct (lookup_or_generate_cases w st req z' x' y' (Tiles.dateStr w req))
    as [(day' & row & _ & _ & _ & Hhit)|[Hmiss _]].
  { rewrite Hhit in Hserve. injection Hserve as <- <- <-.
    apply list_elem_of_singleton in Hin. discriminate. }
  rewrite Hmiss in Hserve.
  destruct (generate_cases w st req z' x' y' (Tiles.dateStr w req))
    as [Hg|[Hg|(bs & _ & Hbs & Hne & Hg)]];
    rewrite Hg in Hserve; injection Hserve as <- <- <-.
  1,2: rewrite !elem_of_cons, elem_of_nil in Hin;
       destruct Hin as [?|[?|?]]; done.
  assert (z' = z ∧ x' = x ∧ y' = y) as (-> & -> & ->).
  { rewrite !elem_of_cons, elem_of_nil in Hin.
    destruct Hin as [?|[?|[Heq|?]]]; try done. by injection Heq as -> -> ->. }
  assert (Hcache : mvt_cache (Tiles.upsert_cache w st z x y (Tiles.dateStr w req)
                     (Tiles.dateStr w req) (bytea_out bs)) !! tile_key z x y day
                   = Some {| MvtCache.mvt := bs; MvtCache.updated_at := Tiles.now w |}).
  { unfold Tiles.upsert_cache. rewrite Hup, Hday, Hbytes. cbn.
    apply lookup_insert_eq. }
  exists bs. split_and!; [done..|].
  intros w2 req2 Hm Hp Hd He Ht Hsel. rewrite serve_validate.
  rewrite (validate_ext w w2 req req2) by done. rewrite Hv.
  exact (lookup_hit w2 _ req2 z x y _ day
           {| MvtCache.mvt := bs; MvtCache.updated_at := Tiles.now w |}
           Hsel Hday Hcache).
Qed.

(** X20.  Revalidation works: a tile answered with status 200 carries an
    [ETag], and the same request made again with that tag in
    [If-None-Match] is answered 304 without a body, whether the tile comes
    from the cache or is generated again. *)
Theorem revalidation (w : Tiles.world) (st : store) (req : Tiles.request)
    (resp : response) (calls : list Tiles.call) (st' : store)
    (bs : list Byte.byte) :
  (∀ bs, bytea_in (bytea_out bs) = Some bs) →
  Tiles.serve w st req = (resp, calls, st') →
  content resp = Binary bs → bs ≠ [] →
  ∃ etag, status resp = 200 ∧ ("ETag", etag) ∈ headers resp
    ∧ ∀ req2,
        Tiles.method req2 = Tiles.method req →
        Tiles.pathname req2 = Tiles.pathname req →
        Tiles.date_param req2 = Tiles.date_param req →
        Tiles.if_none_match req2 = Some etag →
        (Tiles.serve w st' req2).1.1 = Tiles.not_modified etag.
Proof.
  intros Hbytes Hserve Hcontent Hne. rewrite serve_validate in Hserve.
  destruct (validate w req) as [r|[[[z x] y] d]] eqn:Hv.
  { injection Hserve as <- <- <-.
    apply validate_inl in Hv as [->|[msg [->| ->]]]; discriminate. }
  (* what answering with the bytes [bs] means, now and for the next request *)
  assert (Hrespond : ∀ r : Tiles.request,
    Tiles.respond r bs
    = if bool_decide (Tiles.if_none_match r
                      = Some (Tiles.dquote ++ JS.generateETag bs ++ Tiles.dquote))
      then Tiles.not_modified (Tiles.dquote ++ JS.generateETag bs ++ Tiles.dquote)
      else Tiles.tile (Tiles.dquote ++ JS.generateETag bs ++ Tiles.dquote) bs).
  { intros r. unfold Tiles.respond. destruct bs; [done|reflexivity]. }
  assert (Hfirst : ∀ bs', resp = Tiles.respond req bs' → bs' = bs
            ∧ status resp = 200
            ∧ ("ETag", Tiles.dquote ++ JS.generateETag bs ++ Tiles.dquote)
              ∈ headers resp).
  { intros bs' ->. unfold Tiles.respond in Hcontent |- *.
    destruct (_ =? _)%nat; [cbn in Hcontent; congruence|].
    destruct (bool_decide _); [discriminate|].
    cbn in Hcontent. injection Hcontent as ->.
    split_and!; [done..|]. cbn. rewrite !elem_of_cons. auto. }
  assert (Hsecond : ∀ req2,
    Tiles.method req2 = Tiles.method req →
    Tiles.pathname req2 = Tiles.pathname req →
    Tiles.date_param req2 = Tiles.date_param req →
    Tiles.if_none_match req2
    = Some (Tiles.dquote ++ JS.generateETag bs ++ Tiles.dquote) →
    validate w req2 = inr (z, x, y, d)
    ∧ Tiles.respond req2 bs
      = Tiles.not_modified (Tiles.dquote ++ JS.generateETag bs ++ Tiles.dquote)).
  { intros req2 Hm Hp Hd Hinm. split.
    - by rewrite (validate_ext w w req req2).
    - rewrite Hrespond. by rewrite bool_decide_eq_true_2. }
  exists (Tiles.dquote ++ JS.generateETag bs ++ Tiles.dquote).
  destruct (lookup_or_generate_cases w st req z x y d)
    as [(day & row & Hsel & Hday & Hrow & Hhit)|[Hmiss Hwhy]].
  - (* from the cache, and again from the cache *)
    rewrite Hhit in Hserve. injection Hserve as <- <- <-.
    destruct (Hfirst _ eq_refl) as (Hbs & Hst & Hetag).
    split_and!; [done..|]. intros req2 Hm Hp Hd Hinm.
    destruct (Hsecond req2 Hm Hp Hd Hinm) as [Hv2 Hnm].
    rewrite serve_validate, Hv2, (lookup_hit w st req2 z x y d day row) by done.
    cbn. by rewrite Hbs.
  - rewrite Hmiss in Hserve.
    destruct (generate_cases w st req z x y d)
      as [Hg|[Hg|(bs' & Hrpc & Hbs' & Hne' & Hg)]];
      rewrite Hg in Hserve; injection Hserve as <- <- <-.
    { discriminate. }
    { cbn in Hcontent. congruence. }
    destruct (Hfirst _ eq_refl) as (-> & Hst & Hetag).
    split_and!; [done..|]. intros req2 Hm Hp Hd Hinm.
    destruct (Hsecond req2 Hm Hp Hd Hinm) as [Hv2 Hnm].
    rewrite serve_validate, Hv2.
    (* generated again from the same permits, it is the same tile *)
    assert (Hagain : ∀ st2, dob_permits st2 = dob_permits st →
              (Tiles.generate w st2 req2 z x y d).1.1
              = Tiles.not_modified (Tiles.dquote ++ JS.generateETag bs ++ Tiles.dquote)).
    { intros st2 Heq. rewrite (generate_ext w st st2) by done.
      unfold Tiles.generate, Tiles.rpc_dob_permit_tiles. rewrite Hrpc, Hbs'.
      cbn [mbind result_bind mret result_ret]. cbv zeta.
      rewrite is_empty_bytea_out, bool_decide_eq_false_2 by done.
      unfold Tiles.to_buffer. rewrite hexToArrayBuffer_bytea_out. exact Hnm. }
    destruct (upsert_cache_cases w st z x y d (bytea_out bs))
      as [Hsame|(day & bs2 & Hup & Hday & Hin & Hwritten)].
    + (* nothing was written: the lookup misses as it did *)
      rewrite Hsame.
      destruct (lookup_or_generate_cases w st req2 z x y d)
        as [(day & row & Hsel & Hday & Hrow & _)|[Hmiss2 _]].
      * exfalso. destruct Hwhy as [?|[?|(day' & ? & ?)]]; congruence.
      * rewrite Hmiss2. by apply Hagain.
    + (* the tile was written: the lookup finds it, or it does not reach *)
      rewrite Hbytes in Hin. injection Hin as <-.
      destruct (lookup_or_generate_cases w
                  (Tiles.upsert_cache w st z x y d d (bytea_out bs)) req2 z x y d)
        as [(day' & row & Hsel & Hday' & Hrow & Hhit2)|[Hmiss2 _]].
      * rewrite Hhit2. cbn.
        assert (day' = day) as -> by congruence.
        rewrite Hwritten in Hrow. cbn in Hrow.
        rewrite lookup_insert_eq in Hrow. injection Hrow as <-. done.
      * rewrite Hmiss2. apply Hagain. by rewrite Hwritten.
Qed.

Lemma respond_status (req : Tiles.request) (bs : list Byte.byte) :
  status (Tiles.respond req bs) = 200 ∨ status (Tiles.respond req bs) = 304.
Proof.
  unfold Tiles.respond. destruct (_ =? _)%nat; [by left|].
  destruct (bool_decide _); [by right|by left].
Qed.

(** X21.  The handler writes nothing but the tile cache, and of it at most
    the entry of the tile and day of the request, with the time of the
    clock; it makes at most three calls to the store, and its status is
    200, 304, 400 or 500. *)
Theorem handler_writes_only_cache (w : Tiles.world) (st : store)
    (req : Tiles.request) (resp : response) (calls : list Tiles.call)
    (st' : store) :
  Tiles.serve w st req = (resp, calls, st') →
  dob_buildings st' = dob_buildings st
  ∧ dob_permit_details st' = dob_permit_details st
  ∧ dob_entities st' = dob_entities st
  ∧ dob_permits st' = dob_permits st
  ∧ dataset_sync_state st' = dataset_sync_state st
  ∧ (∀ k, mvt_cache st' !! k ≠ mvt_cache st !! k →
       ∃ z x y day row,
         Tiles.zoom req = Some z ∧ Tiles.tile_x req = Some x
         ∧ Tiles.tile_y req = Some y
         ∧ date_in (Tiles.dateStr w req) = Some day
         ∧ k = tile_key z x y day
         ∧ mvt_cache st' !! k = Some row
         ∧ MvtCache.updated_at row = Tiles.now w)
  ∧ (List.length calls ≤ 3)%nat
  ∧ (status resp = 200 ∨ status resp = 304 ∨ status resp = 400 ∨ status resp = 500).
Proof.
  intros Hserve. rewrite serve_validate in Hserve.
  destruct (validate w req) as [r|[[[z x] y] d]] eqn:Hv.
  { injection Hserve as <- <- <-. split_and!; [done..| | |].
    - by intros k [].
    - cbn. lia.
    - apply validate_inl in Hv as [->|[msg [->| ->]]]; cbn; auto. }
  apply validate_inr in Hv as (Hz & Hx & Hy & ->).
  destruct (lookup_or_generate_cases w st req z x y (Tiles.dateStr w req))
    as [(day & row & _ & _ & _ & Hhit)|[Hmiss _]].
  { rewrite Hhit in Hserve. injection Hserve as <- <- <-.
    split_and!; [done..| | |].
    - by intros k [].
    - cbn. lia.
    - destruct (respond_status req (MvtCache.mvt row)); auto. }
  rewrite Hmiss in Hserve.
  destruct (generate_cases w st req z x y (Tiles.dateStr w req))
    as [Hg|[Hg|(bs & _ & _ & _ & Hg)]];
    rewrite Hg in Hserve; injection Hserve as <- <- <-.
  { split_and!; [done..| | |]; [by intros k []|cbn; lia|cbn; auto]. }
  { split_and!; [done..| | |]; [by intros k []|cbn; lia|cbn; auto]. }
  assert (Hst : status (Tiles.respond req bs) = 200
                ∨ status (Tiles.respond req bs) = 304
                ∨ status (Tiles.respond req bs) = 400
                ∨ status (Tiles.respond req bs) = 500).
  { destruct (respond_status req bs); auto. }
  destruct (upsert_cache_cases w st z x y (Tiles.dateStr w req) (bytea_out bs))
    as [->|(day & bs' & _ & Hday & _ & ->)].
  { split_and!; [done..| | |done]; [by intros k []|cbn; lia]. }
  cbn [dob_buildings dob_permit_details dob_entities dob_permits
       dataset_sync_state mvt_cache].
  split_and!; [done..| | |done]; [|cbn; lia].
  intros k Hk. destruct (decide (k = tile_key z x y day)) as [->|Hne].
  - exists z, x, y, day. eexists. split_and!; [done..| |].
    + apply lookup_insert_eq.
    + done.
  - exfalso. apply Hk. by apply lookup_insert_ne.
Qed.


(** X23.  The ingestion does not touch the tile cache: a tile that was
    served from the cache before a run is served from it after the run,
    byte for byte, whatever the run has stored. *)
Theorem cached_tiles_survive_sync (fuel : nat) (sw : Sync.world) (st : store)
    (sreq : Sync.request) (out : Sync.outcome) (s : Sync.state)
    (tw : Tiles.world) (treq : Tiles.request) (resp : response)
    (c : Tiles.call) (st' : store) :
  Sync.run fuel sw st sreq = (out, s) →
  Tiles.serve tw st treq = (resp, [c], st') →
  mvt_cache (Sync.db s) = mvt_cache st
  ∧ Tiles.serve tw (Sync.db s) treq = (resp, [c], Sync.db s).
Proof.
  intros Hrun Hserve. apply run_kept in Hrun as [Hcache _].
  split; [done|]. rewrite serve_validate in Hserve |- *.
  destruct (validate tw treq) as [r|[[[z x] y] d]] eqn:Hv; [discriminate|].
  destruct (lookup_or_generate_cases tw st treq z x y d)
    as [(day & row & Hsel & Hday & Hrow & Hhit)|[Hmiss _]].
  - rewrite Hhit in Hserve. injection Hserve as <- <- <-.
    apply (lookup_hit tw _ treq z x y d day row); [done..|]. by rewrite Hcache.
  - rewrite Hmiss in Hserve.
    destruct (generate_cases tw st treq z x y d)
      as [Hg|[Hg|(bs & _ & _ & _ & Hg)]];
      rewrite Hg in Hserve; discriminate.
Qed.

End tile_handler.
(** ** The further properties on the examples *)

Section further_examples.
#[local] Existing Instance Example.server.
#[local] Existing Instance Example.gis.
#[local] Existing Instance Example.engine.

Lemma pair_eta {A B} (t : A * B) : t = (t.1, t.2).
Proof. by destruct t. Defined.

Lemma counts_cover_page_witness :
  ∃ res, upsert_dob_permits empty_store [Example.p1] = Ok (res, Example.store_A)
    ∧ inserted res + updated res = Z.of_nat (List.length [Example.p1])
    ∧ 0 ≤ inserted res ∧ 0 ≤ updated res.
Proof.
  destruct store_A_applied as [res H]. exists res. split; [exact H|].
  exact (counts_cover_page empty_store Example.store_A [Example.p1] res H).
Defined.

Lemma duplicate_id_fails_page_witness :
  ∃ e, upsert_dob_permits empty_store [Example.p1; Example.p1] = Raise e.
Proof.
  apply (duplicate_id_fails_page empty_store [Example.p1; Example.p1]
           0 1 Example.p1 Example.p1 "P1");
    [lia|reflexivity|reflexivity|reflexivity|reflexivity].
Defined.

Lemma missing_key_fails_page_witness :
  ∃ e, upsert_dob_permits empty_store
         ([Example.p1] ++ Example.record [("permit_type", "NB")] :: [])%list
       = Raise e.
Proof.
  apply (missing_key_fails_page empty_store [Example.p1] []
           (Example.record [("permit_type", "NB")])).
  left. reflexivity.
Defined.

Lemma page_stored_witness :
  ∃ res, upsert_dob_permits empty_store [Example.p1] = Ok (res, Example.store_A)
    ∧ (∀ r, r ∈ [Example.p1] →
         ∃ id p, r ->> ":id" = Some id ∧ dob_permits Example.store_A !! id = Some p
           ∧ Permits.raw p = r
           ∧ Sync.updated_at_of r = Some (Permits.updated_at p)
           ∧ populate_geom_from_coords p = p)
    ∧ (∀ id, (∀ r, r ∈ [Example.p1] → r ->> ":id" ≠ Some id) →
         dob_permits Example.store_A !! id = dob_permits empty_store !! id).
Proof.
  destruct store_A_applied as [res H]. exists res. split; [exact H|].
  exact (page_stored empty_store Example.store_A [Example.p1] res H).
Defined.

Lemma max_updated_is_page_maximum_witness :
  ∃ res, upsert_dob_permits empty_store [Example.p1] = Ok (res, Example.store_A)
    ∧ (∀ m, max_updated res = Some m →
         (∃ r, r ∈ [Example.p1] ∧ Sync.updated_at_of r = Some m)
         ∧ (∀ r t, r ∈ [Example.p1] → Sync.updated_at_of r = Some t → t ≤ m)
         ∧ m ≤ current_dob_watermark Example.store_A)
    ∧ (max_updated res = None → [Example.p1] = [])
    ∧ (∀ id p, dob_permits Example.store_A !! id = Some p →
         Permits.updated_at p ≤ current_dob_watermark Example.store_A).
Proof.
  destruct store_A_applied as [res H]. exists res. split; [exact H|].
  exact (max_updated_is_page_maximum empty_store Example.store_A [Example.p1] res H).
Defined.

Lemma clean_mvt_cache_again_witness :
  1704153600000000 ≤ 1704758400000000
  ∧ (clean_mvt_cache 1704758400000000
       (clean_mvt_cache 1704153600000000 cached_A).2).2
    = (clean_mvt_cache 1704758400000000 cached_A).2
  ∧ clean_mvt_cache 1704153600000000 (clean_mvt_cache 1704153600000000 cached_A).2
    = (0, (clean_mvt_cache 1704153600000000 cached_A).2).
Proof.
  split; [lia|].
  apply (clean_mvt_cache_again 1704153600000000 1704758400000000 cached_A). lia.
Defined.

Lemma retry_until_answer_witness :
  let q := Sync.preflight_query (flaky []) 0 in
  Sync.fetch_retrying (flaky []) q 3 1000 0 []
  = (Some (Sync.array [∅]), 3%nat,
     [Sync.fetched q; Sync.slept 1000; Sync.fetched q; Sync.slept 2000;
      Sync.fetched q]).
Proof.
  intros q.
  apply (retry_until_answer (flaky []) q 3 1000 0 [] 2).
  - lia.
  - intros [|[|i]] Hi; [reflexivity|reflexivity|lia].
  - reflexivity.
Defined.

Lemma three_failures_end_run_witness :
  let s := idle empty_store in
  let q := Sync.page_query down Example.historical s in
  ∃ e s',
    Sync.paginate 1 down Example.historical "historical" s
    = (Sync.responded (Sync.failure e), s')
    ∧ Sync.db s' = Sync.db s ∧ Sync.calls s' = Sync.calls s
    ∧ Sync.fetches s' = (Sync.fetches s + 3)%nat
    ∧ Sync.trace s'
      = (Sync.trace s
         ++ [Sync.fetched q; Sync.slept 1000; Sync.fetched q; Sync.slept 2000;
             Sync.fetched q])%list.
Proof.
  intros s q.
  apply (three_failures_end_run 0 down Example.historical "historical" s).
  intros i Hi. reflexivity.
Defined.

Lemma totals_add_up_witness :
  let w := Sync.steady Example.deployment 1704200000000000 (Example.dataset 3) in
  ∃ s last,
    Sync.run 5 w Example.store_A Example.historical
    = (Sync.responded (Sync.synced "historical" 3 3 0 last None), s)
    ∧ 3 + 0 = 3 ∧ 0 ≤ 3 ∧ 0 ≤ 0
    ∧ 3 = upserted_records (Sync.trace s)
    ∧ "historical" = JS.or_else (Sync.mode_param Example.historical) "incremental"
    ∧ ((None : option (option timestamptz * option timestamptz)) = None
       ↔ Sync.sinceParam Example.historical = None
                     ∧ Sync.untilParam Example.historical = None).
Proof.
  intros w.
  assert (Hr : ∃ s last,
            Sync.run 5 w Example.store_A Example.historical
            = (Sync.responded (Sync.synced "historical" 3 3 0 last None), s)).
  { vm_compute. eexists _, _. reflexivity. }
  destruct Hr as (s & last & Hr). exists s, last. split; [exact Hr|].
  exact (totals_add_up 5 w Example.store_A Example.historical s
           "historical" 3 3 0 last None Hr).
Defined.

Lemma nothing_new_upstream_witness :
  ∃ s,
    Sync.run 5 (Sync.steady Example.deployment 1704200000000000 [Example.p1])
      Example.store_A Example.incremental
    = (Sync.responded
         (Sync.no_new_data "incremental" (current_dob_watermark Example.store_A)), s)
    ∧ Sync.db s = Example.store_A
    ∧ Sync.trace s
      = [Sync.read_watermark;
         Sync.fetched
           (Sync.preflight_query
              (Sync.steady Example.deployment 1704200000000000 [Example.p1])
              (current_dob_watermark Example.store_A))].
Proof.
  apply (nothing_new_upstream 5 Example.deployment 1704200000000000 [Example.p1]
           Example.store_A Example.incremental);
    [reflexivity|reflexivity|reflexivity|reflexivity|].
  intros r t Hr Ht. apply list_elem_of_singleton in Hr. subst r.
  vm_compute in Ht. injection Ht as <-. vm_compute. discriminate.
Defined.

Lemma run_answers_witness :
  ∃ r s,
    Sync.run 1 (Sync.steady Example.deployment 1704200000000000 (Example.dataset 3))
      empty_store Example.historical
    = (Sync.responded r, s).
Proof.
  apply (run_answers 1 Example.deployment 1704200000000000 (Example.dataset 3)
           empty_store Example.historical).
  apply Nat.ltb_lt. vm_compute. reflexivity.
Defined.

Lemma tile_rows_complete_witness :
  ∃ rows p g,
    tile_rows Example.store_A 1 0 0 (Some "2024-01-02") = Ok rows
    ∧ dob_permits Example.store_A !! "P1" = Some p
    ∧ Permits.geom_4326 p = Some g
    ∧ (∃ r, r ∈ rows ∧ mvt_id r = "P1"
         ∧ mvt_permit_type r = Permits.permit_type p
         ∧ mvt_permit_status r = Permits.permit_status p
         ∧ mvt_permit_issuance_date r = Permits.permit_issuance_date p
         ∧ mvt_borough r = Permits.borough p
         ∧ mvt_geom r
           = ST_AsMVTGeom (simplify 1 (ST_Transform g 3857)) (1, 0, 0) 4096 256 true)
    ∧ NoDup (mvt_id <$> rows).
Proof.
  destruct (tile_rows Example.store_A 1 0 0 (Some "2024-01-02")) as [rows|e] eqn:Hrows;
    [|vm_compute in Hrows; discriminate Hrows].
  destruct (dob_permits Example.store_A !! "P1") as [p|] eqn:Hp;
    [|vm_compute in Hp; discriminate Hp].
  pose proof Hp as Hp'. vm_compute in Hp'. injection Hp' as Hp'.
  destruct (Permits.geom_4326 p) as [g|] eqn:Hg;
    [|subst p; vm_compute in Hg; discriminate Hg].
  exists rows, p, g. split_and!; [reflexivity|reflexivity|exact Hg|..].
  all: apply (tile_rows_complete Example.store_A 1 0 0 (Some "2024-01-02")
                rows (1, 0, 0) "P1" p g Hrows);
    [reflexivity|exact Hp|exact Hg| |reflexivity|reflexivity|reflexivity].
  all: subst p; vm_compute; reflexivity.
Defined.

Lemma cached_tile_served_witness :
  let req := Example.get "/tiles/permits/1/0/0" (Some "2024-01-02") in
  ∃ row resp calls,
    mvt_cache cached_A !! tile_key 1 0 0 19724 = Some row
    ∧ Tiles.serve Example.tiles_world cached_A req = (resp, calls, cached_A)
    ∧ (calls = []
       ∧ (resp = Tiles.preflight ∨ status resp = 400 ∨ status resp = 500)
       ∨ calls = [Tiles.cache_select 1 0 0 (Tiles.dateStr Example.tiles_world req)
                    (Tiles.dateStr Example.tiles_world req)]
         ∧ resp = Tiles.respond req (MvtCache.mvt row)).
Proof.
  intros req.
  destruct (mvt_cache cached_A !! tile_key 1 0 0 19724) as [row|] eqn:Hrow;
    [|vm_compute in Hrow; discriminate Hrow].
  exists row.
  destruct (cached_tile_served Example.tiles_world cached_A req 1 0 0 19724 row)
    as (resp & calls & H); [reflexivity..|exact Hrow|].
  exists resp, calls. split; [reflexivity|]. exact H.
Defined.

Lemma generated_tile_cached_witness :
  let req := Example.get "/tiles/permits/1/0/0" (Some "2024-01-02") in
  let out := Tiles.serve Example.tiles_world Example.store_A req in
  Tiles.cache_upsert 1 0 0 "2024-01-02" "2024-01-02" "\x01" ∈ out.1.2
  ∧ ∃ bs,
      dob_permit_tiles Example.store_A 1 0 0 (Some (Tiles.dateStr Example.tiles_world req))
      = Ok bs
      ∧ bs ≠ [] ∧ out.1.1 = Tiles.respond req bs
      ∧ mvt_cache out.2 !! tile_key 1 0 0 19724
        = Some {| MvtCache.mvt := bs;
                  MvtCache.updated_at := Tiles.now Example.tiles_world |}
      ∧ ∀ w2 req2,
          Tiles.method req2 = Tiles.method req →
          Tiles.pathname req2 = Tiles.pathname req →
          Tiles.date_param req2 = Tiles.date_param req →
          Tiles.env w2 = Tiles.env Example.tiles_world →
          Tiles.today w2 = Tiles.today Example.tiles_world →
          Tiles.select_reaches w2 = true →
          Tiles.serve w2 out.2 req2
          = (Tiles.respond req2 bs,
             [Tiles.cache_select 1 0 0 (Tiles.dateStr Example.tiles_world req)
                (Tiles.dateStr Example.tiles_world req)],
             out.2).
Proof.
  intros req out.
  assert (Hin : Tiles.cache_upsert 1 0 0 "2024-01-02" "2024-01-02" "\x01" ∈ out.1.2).
  { vm_compute. apply list_elem_of_In. right. right. left. reflexivity. }
  split; [exact Hin|].
  apply (generated_tile_cached Example.tiles_world Example.store_A req
           out.1.1 out.1.2 out.2 1 0 0 "2024-01-02" "2024-01-02" "\x01" 19724
           example_bytea_in_out (triple_eta out) Hin); reflexivity.
Defined.

Lemma revalidation_witness :
  let req := Example.get "/tiles/permits/1/0/0" (Some "2024-01-02") in
  let out := Tiles.serve Example.tiles_world Example.store_A req in
  content out.1.1 = Binary [Byte.x01]
  ∧ ∃ etag, status out.1.1 = 200 ∧ ("ETag", etag) ∈ headers out.1.1
      ∧ ∀ req2,
          Tiles.method req2 = Tiles.method req →
          Tiles.pathname req2 = Tiles.pathname req →
          Tiles.date_param req2 = Tiles.date_param req →
          Tiles.if_none_match req2 = Some etag →
          (Tiles.serve Example.tiles_world out.2 req2).1.1 = Tiles.not_modified etag.
Proof.
  intros req out.
  assert (Hc : content out.1.1 = Binary [Byte.x01]) by (vm_compute; reflexivity).
  split; [exact Hc|].
  apply (revalidation Example.tiles_world Example.store_A req
           out.1.1 out.1.2 out.2 [Byte.x01]
           example_bytea_in_out (triple_eta out) Hc).
  discriminate.
Defined.

Lemma handler_writes_only_cache_witness :
  let req := Example.get "/tiles/permits/1/0/0" (Some "2024-01-02") in
  let out := Tiles.serve Example.tiles_world Example.store_A req in
  dob_buildings out.2 = dob_buildings Example.store_A
  ∧ dob_permit_details out.2 = dob_permit_details Example.store_A
  ∧ dob_entities out.2 = dob_entities Example.store_A
  ∧ dob_permits out.2 = dob_permits Example.store_A
  ∧ dataset_sync_state out.2 = dataset_sync_state Example.store_A
  ∧ (∀ k, mvt_cache out.2 !! k ≠ mvt_cache Example.store_A !! k →
       ∃ z x y day row,
         Tiles.zoom req = Some z ∧ Tiles.tile_x req = Some x
         ∧ Tiles.tile_y req = Some y
         ∧ date_in (Tiles.dateStr Example.tiles_world req) = Some day
         ∧ k = tile_key z x y day
         ∧ mvt_cache out.2 !! k = Some row
         ∧ MvtCache.updated_at row = Tiles.now Example.tiles_world)
  ∧ (List.length out.1.2 ≤ 3)%nat
  ∧ (status out.1.1 = 200 ∨ status out.1.1 = 304 ∨ status out.1.1 = 400
     ∨ status out.1.1 = 500).
Proof.
  intros req out.
  exact (handler_writes_only_cache Example.tiles_world Example.store_A req
           out.1.1 out.1.2 out.2 (triple_eta out)).
Defined.


Lemma cached_tiles_survive_sync_witness :
  let sw := Sync.steady Example.deployment 1704200000000000 (Example.dataset 3) in
  let run := Sync.run 5 sw cached_A Example.historical in
  let req := Example.get "/tiles/permits/1/0/0" (Some "2024-01-02") in
  let c := Tiles.cache_select 1 0 0 "2024-01-02" "2024-01-02" in
  ∃ resp,
    Tiles.serve Example.tiles_world cached_A req = (resp, [c], cached_A)
    ∧ size (dob_permits (Sync.db run.2)) = 4%nat
    ∧ mvt_cache (Sync.db run.2) = mvt_cache cached_A
    ∧ Tiles.serve Example.tiles_world (Sync.db run.2) req
      = (resp, [c], Sync.db run.2).
Proof.
  intros sw run req c.
  assert (Hserve : ∃ resp,
            Tiles.serve Example.tiles_world cached_A req = (resp, [c], cached_A)).
  { destruct (Tiles.serve Example.tiles_world cached_A req) as [[resp calls] st']
      eqn:Hs.
    exists resp.
    assert (Hc : (Tiles.serve Example.tiles_world cached_A req).1.2 = [c])
      by (vm_compute; reflexivity).
    rewrite Hs in Hc. cbn in Hc. subst calls. f_equal.
    assert (Hst : (Tiles.serve Example.tiles_world cached_A req).2 = cached_A)
      by (vm_compute; reflexivity).
    rewrite Hs in Hst. exact Hst. }
  destruct Hserve as [resp Hserve]. exists resp.
  split; [exact Hserve|]. split; [vm_compute; reflexivity|].
  exact (cached_tiles_survive_sync 5 sw cached_A Example.historical run.1 run.2
           Example.tiles_world req resp c cached_A (pair_eta run) Hserve).
Defined.

End further_examples.
